(** * Ionosphere repository build orchestration (repobuild.py)

    A shallow embedding of [repobuild.py]: the diagnostic normalisation
    pattern, the package descriptor, the download coordinator shared by all
    build units, the streaming transfer, and the stage / build / export
    methods of a build unit, with the properties of each. *)

From Stdlib Require Import Ascii String ZArith Lia List.
From stdpp Require Import gmap strings list fin_maps.

Local Open Scope Z_scope.
Local Open Scope list_scope.

(** ** Python values shared by all parts *)

(** The exceptions the program raises or lets through.  [TransferError] is
    the [ValueError] of the read loop, kept with its three arguments (the URL,
    the bytes read and the bytes expected), which determine its message. *)
Inductive exn :=
| ValueError (msg : string)
| TransferError (url : string) (total_read content_length : Z)
| TypeError
| KeyError (key : string)
| FileExistsError (p : list string)
| FileNotFoundError (p : list string)
| NotADirectoryError (p : list string)
| IsADirectoryError (p : list string)
| PermissionError (p : list string)
| CrossDeviceError (p : list string)
| URLError (url : string)
| BuildError (build_log : list (option string * option string))
| ContainerError (stdout stderr : option string)
| AssertionError
| OtherError (what : string).

(** What a call does: it returns, it raises, or it never comes back
    (a thread parked in [Condition.wait] that nobody notifies). *)
Inductive outcome (A : Type) :=
| Returned (a : A)
| Raised (e : exn)
| Blocked.
Arguments Returned {A} a.
Arguments Raised {A} e.
Arguments Blocked {A}.

(** ** LOG_STRIP_PATTERN and the normalisation of diagnostics *)
Module LogStrip.

Abbreviation str := (list ascii) (only parsing).

Definition nl : ascii := "010"%char.
Definition sp : ascii := " "%char.

(** The fragment of Python's [re] syntax that the pattern uses.  [Chr p] is
    any single-character matcher; the repetitions are the greedy ones. *)
Inductive regex :=
| Chr (p : ascii -> bool)
| Seq (r1 r2 : regex)
| Alt (r1 r2 : regex)
| Star (r : regex)
| Opt (r : regex)
| Grp (n : nat) (r : regex)
| Bol
| Eol.

Definition is_nl (c : ascii) : bool := Ascii.eqb c nl.
Definition is_ws (c : ascii) : bool := Ascii.eqb c sp || Ascii.eqb c nl.

(** [\n], [[ \n]] and [.] (without DOTALL the dot refuses the newline). *)
Definition Lit (c : ascii) : regex := Chr (Ascii.eqb c).
Definition Newline : regex := Chr is_nl.
Definition SpaceOrNewline : regex := Chr is_ws.
Definition Dot : regex := Chr (fun c => negb (is_nl c)).
Definition Plus (r : regex) : regex := Seq r (Star r).

(** A matcher state: the text still to read and the groups captured. *)
Abbreviation mstate := (list ascii * gmap nat (list ascii))%type (only parsing).

Definition progress (st st' : mstate) : bool :=
  (length (fst st') <? length (fst st))%nat.

(** Greedy repetition of a matcher [f]: one more round first, stopping
    here last.  A round that consumes nothing is not repeated. *)
Fixpoint iterate (f : mstate -> list mstate) (fuel : nat) (st : mstate) : list mstate :=
  match fuel with
  | O => [st]
  | S fuel' =>
      flat_map (iterate f fuel') (filter (fun st' => progress st st' = true) (f st)) ++ [st]
  end.

(** The backtracking matcher as a list of successes, in the order in which
    Python's engine tries them: the first element is the match [re] reports.
    [input] is the whole subject, needed by [^]. *)
Fixpoint go (input : str) (r : regex) (st : mstate) : list mstate :=
  match r with
  | Chr p =>
      match fst st with
      | c :: rest => if p c then [(rest, snd st)] else []
      | [] => []
      end
  | Seq r1 r2 => flat_map (go input r2) (go input r1 st)
  | Alt r1 r2 => go input r1 st ++ go input r2 st
  | Star r' => iterate (go input r') (length (fst st)) st
  | Opt r' => go input r' st ++ [st]
  | Grp n r' =>
      map (fun st' =>
             (fst st',
              <[n := take (length (fst st) - length (fst st')) (fst st)]> (snd st')))
          (go input r' st)
  | Bol => if (length (fst st) =? length input)%nat then [st] else []
  | Eol =>
      match fst st with
      | [] => [st]
      | [c] => if is_nl c then [st] else []
      | _ => []
      end
  end.

(** [pattern.match(s)]: anchored at the start of [s]. *)
Definition re_match (r : regex) (s : str) : option mstate :=
  head (go s r (s, ∅)).

(** [m.group(n)] *)
Definition group (n : nat) (m : mstate) : option str := snd m !! n.

(** [LOG_STRIP_PATTERN], piece by piece: the anchor [^]; an optional
    non-capturing group, any run of spaces and newlines followed by a newline;
    group 1, any repetition of either one character that is not a newline or
    one or more newlines followed by such a character; an optional
    non-capturing group, a newline followed by any run of spaces and
    newlines; the anchor [$]. *)
Definition leading_blank : regex := Opt (Seq (Star SpaceOrNewline) Newline).
Definition payload : regex := Grp 1 (Star (Alt Dot (Seq (Plus Newline) Dot))).
Definition trailing_blank : regex := Opt (Seq Newline (Star SpaceOrNewline)).

Definition LOG_STRIP_PATTERN : regex :=
  Seq Bol (Seq leading_blank (Seq payload (Seq trailing_blank Eol))).

(** [m = LOG_STRIP_PATTERN.match(s); assert m; m.group(1)] on character
    lists; [None] is the failed assertion. *)
Definition log_strip_chars (s : str) : option str :=
  match re_match LOG_STRIP_PATTERN s with
  | Some m => group 1 m
  | None => None
  end.

(** The same on Python strings. *)
Definition log_strip (s : string) : option string :=
  string_of_list_ascii <$> log_strip_chars (list_ascii_of_string s).

(** *** What the pattern computes, without the matcher *)

(** Length of the longest prefix made of spaces and newlines that ends in a
    newline: what the leading group takes. *)
Fixpoint lead_len (s : str) : nat :=
  match s with
  | c :: s' =>
      if is_ws c then
        match lead_len s' with
        | O => if is_nl c then 1%nat else O
        | S n => S (S n)
        end
      else O
  | [] => O
  end.

Definition strip_lead (s : str) : str := drop (lead_len s) s.

(** The newlines that end [s]. *)
Fixpoint tail_nl (s : str) : str :=
  match s with
  | [] => []
  | _ :: s' => if forallb is_nl s then s else tail_nl s'
  end.

Definition strip_tail (s : str) : str := take (length s - length (tail_nl s)) s.

Definition normalized (s : str) : str := strip_tail (strip_lead s).

(** The rests after a greedy run of characters satisfying [p], longest run
    first. *)
Fixpoint chr_run (p : ascii -> bool) (s : str) : list str :=
  match s with
  | c :: s' => if p c then chr_run p s' ++ [s] else [s]
  | [] => [[]]
  end.

Fixpoint skip_nl (s : str) : str :=
  match s with
  | c :: s' => if is_nl c then skip_nl s' else s
  | [] => []
  end.

(** One round of the payload's repetition: a character that is not a
    newline, or newlines and then such a character. *)
Definition payload_step (s : str) : option str :=
  match s with
  | [] => None
  | c :: s' =>
      if is_nl c then
        match skip_nl s' with
        | [] => None
        | _ :: s3 => Some s3
        end
      else Some s'
  end.

(** *** Lists of successes *)

Lemma head_app_Some {A} (l1 l2 : list A) x :
  head l1 = Some x -> head (l1 ++ l2) = Some x.
Proof. destruct l1; simpl; congruence. Qed.

Lemma head_flat_map_Some {A B} (f : A -> list B) (l : list A) x y :
  head l = Some x -> head (f x) = Some y -> head (flat_map f l) = Some y.
Proof.
  destruct l as [|a l]; simpl; [congruence|].
  intros [= ->] Hy. now apply head_app_Some.
Qed.

Lemma head_None_nil {A} (l : list A) : head l = None -> l = [].
Proof. now destruct l. Qed.

Lemma is_nl_is_ws c : is_nl c = true -> is_ws c = true.
Proof. unfold is_nl, is_ws. intros ->. apply orb_true_r. Qed.

(** A greedy run of single characters. *)
Lemma iterate_chr input p caps s fuel :
  (length s <= fuel)%nat ->
  iterate (go input (Chr p)) fuel (s, caps) = map (fun r => (r, caps)) (chr_run p s).
Proof.
  revert s. induction fuel as [|fuel IH]; intros s Hlen.
  - destruct s; simpl in *; [reflexivity|lia].
  - destruct s as [|c s]; simpl; [reflexivity|].
    destruct (p c) eqn:Hp; simpl; [|reflexivity].
    rewrite filter_cons_True by (unfold progress; simpl; apply Nat.ltb_lt; lia).
    rewrite filter_nil. simpl. rewrite app_nil_r.
    rewrite IH by (simpl in Hlen; lia).
    now rewrite map_app.
Qed.

Lemma go_star_chr input p caps s :
  go input (Star (Chr p)) (s, caps) = map (fun r => (r, caps)) (chr_run p s).
Proof. exact (iterate_chr input p caps s (length s) (le_n _)). Qed.

(** The leading group: the newline that ends the longest blank prefix. *)
Lemma lead_candidates input caps s :
  head (flat_map (go input Newline) (map (fun r => (r, caps)) (chr_run is_ws s)))
  = match lead_len s with
    | O => None
    | S n => Some (drop (S n) s, caps)
    end.
Proof.
  induction s as [|c s IH]; [reflexivity|].
  cbn [chr_run lead_len].
  destruct (is_ws c) eqn:Hws.
  - rewrite map_app, flat_map_app. cbn [map flat_map]. rewrite app_nil_r.
    destruct (lead_len s) as [|n] eqn:Hn.
    + apply head_None_nil in IH. rewrite IH. simpl.
      destruct (is_nl c); reflexivity.
    + now apply head_app_Some.
  - simpl. destruct (is_nl c) eqn:Hnl; [|reflexivity].
    apply is_nl_is_ws in Hnl. congruence.
Qed.

Lemma go_leading_blank input caps s :
  head (go input leading_blank (s, caps)) = Some (strip_lead s, caps).
Proof.
  unfold leading_blank, strip_lead.
  change (go input (Opt (Seq (Star SpaceOrNewline) Newline)) (s, caps))
    with (flat_map (go input Newline) (go input (Star (Chr is_ws)) (s, caps)) ++ [(s, caps)]).
  rewrite go_star_chr.
  pose proof (lead_candidates input caps s) as H.
  destruct (lead_len s) as [|n].
  - apply head_None_nil in H. now rewrite H.
  - now apply head_app_Some.
Qed.

(** The payload: its repetition runs to the newlines that end the text. *)
Lemma skip_nl_cons s d s3 :
  skip_nl s = d :: s3 ->
  is_nl d = false /\ tail_nl s = tail_nl s3 /\ (length s3 < length s)%nat
  /\ forallb is_nl s = false.
Proof.
  induction s as [|c s IH]; [discriminate|].
  cbn [skip_nl]. destruct (is_nl c) eqn:Hc.
  - intros H. destruct (IH H) as (Hd & Ht & Hl & Hf).
    repeat split; try assumption.
    + cbn [tail_nl]. cbn [forallb]. rewrite Hc, Hf. simpl. exact Ht.
    + simpl. lia.
    + cbn [forallb]. rewrite Hc, Hf. reflexivity.
  - intros [= -> ->]. repeat split; try assumption.
    + cbn [tail_nl forallb]. rewrite Hc. reflexivity.
    + simpl. lia.
    + cbn [forallb]. rewrite Hc. reflexivity.
Qed.

Lemma skip_nl_nil s : skip_nl s = [] -> forallb is_nl s = true.
Proof.
  induction s as [|c s IH]; [reflexivity|].
  cbn [skip_nl forallb]. destruct (is_nl c); [simpl; exact IH|discriminate].
Qed.

Lemma tail_nl_all s : forallb is_nl s = true -> tail_nl s = s.
Proof. destruct s; [reflexivity|]. cbn [tail_nl]. now intros ->. Qed.

Lemma payload_step_Some s r :
  payload_step s = Some r -> (length r < length s)%nat /\ tail_nl s = tail_nl r.
Proof.
  destruct s as [|c s]; [discriminate|]. cbn [payload_step].
  destruct (is_nl c) eqn:Hc.
  - destruct (skip_nl s) as [|d s3] eqn:Hs; [discriminate|].
    intros [= <-]. destruct (skip_nl_cons _ _ _ Hs) as (_ & Ht & Hl & Hf).
    split; [simpl; lia|].
    cbn [tail_nl forallb]. rewrite Hc, Hf. exact Ht.
  - intros [= <-]. split; [simpl; lia|].
    cbn [tail_nl forallb]. rewrite Hc. reflexivity.
Qed.

Lemma payload_step_None s : payload_step s = None -> tail_nl s = s.
Proof.
  destruct s as [|c s]; [reflexivity|]. cbn [payload_step].
  destruct (is_nl c) eqn:Hc; [|discriminate].
  destruct (skip_nl s) eqn:Hs; [|discriminate].
  intros _. apply tail_nl_all. cbn [forallb]. rewrite Hc. now apply skip_nl_nil.
Qed.

Lemma dot_after_newlines input caps s :
  flat_map (go input Dot) (map (fun r => (r, caps)) (chr_run is_nl s))
  = match skip_nl s with
    | [] => []
    | _ :: s3 => [(s3, caps)]
    end.
Proof.
  induction s as [|c s IH]; [reflexivity|].
  cbn [chr_run skip_nl]. destruct (is_nl c) eqn:Hc.
  - rewrite map_app, flat_map_app. rewrite IH.
    simpl. rewrite Hc. simpl. now rewrite app_nil_r.
  - simpl. rewrite Hc. reflexivity.
Qed.

Definition payload_round : regex := Alt Dot (Seq (Plus Newline) Dot).

Lemma go_payload_round input caps s :
  go input payload_round (s, caps)
  = match payload_step s with
    | Some r => [(r, caps)]
    | None => []
    end.
Proof.
  change (go input payload_round (s, caps))
    with (go input Dot (s, caps)
          ++ flat_map (go input Dot)
               (flat_map (go input (Star (Chr is_nl))) (go input Newline (s, caps)))).
  destruct s as [|c s]; [reflexivity|].
  cbn [payload_step]. destruct (is_nl c) eqn:Hc.
  - assert (go input Dot (c :: s, caps) = []) as -> by (simpl; now rewrite Hc).
    assert (go input Newline (c :: s, caps) = [(s, caps)]) as -> by (simpl; now rewrite Hc).
    cbn [flat_map]. rewrite app_nil_r, go_star_chr, dot_after_newlines.
    destruct (skip_nl s); reflexivity.
  - assert (go input Dot (c :: s, caps) = [(s, caps)]) as -> by (simpl; now rewrite Hc).
    assert (go input Newline (c :: s, caps) = []) as -> by (simpl; now rewrite Hc).
    reflexivity.
Qed.

Lemma iterate_payload input caps fuel s :
  (length s <= fuel)%nat ->
  head (iterate (go input payload_round) fuel (s, caps)) = Some (tail_nl s, caps).
Proof.
  revert s. induction fuel as [|fuel IH]; intros s Hlen.
  - destruct s; simpl in *; [reflexivity|lia].
  - cbn [iterate]. rewrite go_payload_round.
    destruct (payload_step s) as [r|] eqn:Hstep.
    + destruct (payload_step_Some _ _ Hstep) as [Hlt Ht].
      rewrite filter_cons_True by (unfold progress; simpl; apply Nat.ltb_lt; lia).
      rewrite filter_nil. cbn [flat_map]. rewrite app_nil_r, Ht.
      apply head_app_Some, IH. lia.
    + rewrite filter_nil. simpl. now rewrite (payload_step_None _ Hstep).
Qed.

Lemma head_map_Some {A B} (f : A -> B) (l : list A) x :
  head l = Some x -> head (map f l) = Some (f x).
Proof. destruct l; simpl; congruence. Qed.

Lemma go_payload input caps s :
  head (go input payload (s, caps))
  = Some (tail_nl s, <[1%nat := strip_tail s]> caps).
Proof.
  change (go input payload (s, caps))
    with (map (fun st' : mstate =>
                 (fst st', <[1%nat := take (length s - length (fst st')) s]> (snd st')))
              (iterate (go input payload_round) (length s) (s, caps))).
  rewrite (head_map_Some _ _ (tail_nl s, caps)) by now apply iterate_payload.
  reflexivity.
Qed.

(** The trailing group and the end anchor, on the newlines left over. *)
Lemma chr_run_head_all p s : forallb p s = true -> head (chr_run p s) = Some [].
Proof.
  induction s as [|c s IH]; [reflexivity|].
  cbn [forallb chr_run]. destruct (p c); [|discriminate].
  simpl. intros H. now apply head_app_Some, IH.
Qed.

Lemma forallb_nl_ws s : forallb is_nl s = true -> forallb is_ws s = true.
Proof.
  induction s as [|c s IH]; [reflexivity|]. cbn [forallb].
  intros [Hc Hs]%andb_true_iff. now rewrite (is_nl_is_ws _ Hc), IH.
Qed.

Lemma go_trailing_blank_eol input caps t :
  forallb is_nl t = true ->
  head (go input (Seq trailing_blank Eol) (t, caps)) = Some ([], caps).
Proof.
  intros Hall.
  change (go input (Seq trailing_blank Eol) (t, caps))
    with (flat_map (go input Eol)
            (flat_map (go input (Star (Chr is_ws))) (go input Newline (t, caps))
               ++ [(t, caps)])).
  destruct t as [|c t]; [reflexivity|].
  cbn [forallb] in Hall. apply andb_true_iff in Hall as [Hc Ht].
  assert (go input Newline (c :: t, caps) = [(t, caps)]) as -> by (simpl; now rewrite Hc).
  cbn [flat_map]. rewrite app_nil_r, go_star_chr.
  apply (head_flat_map_Some _ _ ([], caps)); [|reflexivity].
  apply head_app_Some.
  apply (head_map_Some (fun r : list ascii => (r, caps)) _ []).
  now apply chr_run_head_all, forallb_nl_ws.
Qed.

Lemma tail_nl_forallb s : forallb is_nl (tail_nl s) = true.
Proof.
  induction s as [|c s IH]; [reflexivity|].
  cbn [tail_nl]. destruct (forallb is_nl (c :: s)) eqn:H; [exact H|exact IH].
Qed.

(** The match the pattern reports on any subject. *)
Lemma re_match_LOG_STRIP_PATTERN s :
  re_match LOG_STRIP_PATTERN s = Some ([], {[1%nat := normalized s]}).
Proof.
  unfold re_match.
  change (go s LOG_STRIP_PATTERN (s, ∅))
    with (flat_map
            (fun st => flat_map
               (fun st' => flat_map (go s (Seq trailing_blank Eol)) (go s payload st'))
               (go s leading_blank st))
            (go s Bol (s, ∅))).
  assert (go s Bol (s, ∅) = [(s, ∅)]) as -> by (simpl; now rewrite Nat.eqb_refl).
  cbn [flat_map]. rewrite app_nil_r.
  eapply head_flat_map_Some; [apply go_leading_blank|].
  eapply head_flat_map_Some; [apply go_payload|].
  rewrite insert_empty.
  apply go_trailing_blank_eol, tail_nl_forallb.
Qed.

Lemma log_strip_chars_normalized s : log_strip_chars s = Some (normalized s).
Proof.
  unfold log_strip_chars. rewrite re_match_LOG_STRIP_PATTERN.
  unfold group. simpl. apply lookup_singleton_eq.
Qed.

(** *** Shape of the result *)



Lemma lead_len_le s : (lead_len s <= length s)%nat.
Proof.
  induction s as [|c s IH]; simpl; [lia|].
  destruct (is_ws c); [|lia].
  destruct (lead_len s); [destruct (is_nl c)|]; lia.
Qed.


Lemma lead_len_strip_lead s : lead_len (strip_lead s) = O.
Proof.
  unfold strip_lead. induction s as [|c s IH]; [reflexivity|].
  cbn [lead_len]. destruct (is_ws c) eqn:Hws.
  - destruct (lead_len s) as [|n] eqn:Hn.
    + destruct (is_nl c) eqn:Hnl.
      * simpl in *. exact IH.
      * simpl. now rewrite Hws, Hn, Hnl.
    + exact IH.
  - simpl. now rewrite Hws.
Qed.

Lemma lead_len_app_0 p q : lead_len (p ++ q) = O -> lead_len p = O.
Proof.
  induction p as [|c p IH]; [reflexivity|].
  cbn [app lead_len]. destruct (is_ws c); [|reflexivity].
  destruct (lead_len (p ++ q)) eqn:Hpq; [|discriminate].
  rewrite IH by reflexivity. tauto.
Qed.

Lemma tail_nl_length s : (length (tail_nl s) <= length s)%nat.
Proof.
  induction s as [|c s IH]; [simpl; lia|].
  cbn [tail_nl]. destruct (forallb is_nl (c :: s)); simpl in *; lia.
Qed.

Lemma strip_tail_cons c s :
  strip_tail (c :: s) = if forallb is_nl (c :: s) then [] else c :: strip_tail s.
Proof.
  unfold strip_tail. cbn [tail_nl].
  destruct (forallb is_nl (c :: s)).
  - now rewrite Nat.sub_diag.
  - pose proof (tail_nl_length s). cbn [length].
    replace (S (length s) - length (tail_nl s))%nat
      with (S (length s - length (tail_nl s))) by lia.
    reflexivity.
Qed.

Lemma strip_tail_app_tail s : s = strip_tail s ++ tail_nl s.
Proof.
  induction s as [|c s IH]; [reflexivity|].
  rewrite strip_tail_cons. cbn [tail_nl].
  destruct (forallb is_nl (c :: s)); [reflexivity|].
  simpl. now rewrite <- IH.
Qed.

Lemma strip_tail_not_all_nl s :
  forallb is_nl s = false -> forallb is_nl (strip_tail s) = false.
Proof.
  intros H. rewrite (strip_tail_app_tail s), forallb_app, tail_nl_forallb in H.
  now rewrite andb_true_r in H.
Qed.

Lemma tail_nl_strip_tail s : tail_nl (strip_tail s) = [].
Proof.
  induction s as [|c s IH]; [reflexivity|].
  rewrite strip_tail_cons. destruct (forallb is_nl (c :: s)) eqn:Hall; [reflexivity|].
  cbn [tail_nl]. rewrite IH.
  cbn [forallb] in *. destruct (is_nl c); [|reflexivity].
  simpl in *. now rewrite (strip_tail_not_all_nl _ Hall).
Qed.

Lemma strip_tail_fixed s : tail_nl s = [] -> strip_tail s = s.
Proof. unfold strip_tail. intros ->. simpl. rewrite Nat.sub_0_r. apply firstn_all. Qed.




(** The diagnostic of the build-failure scenario: two newlines, the text,
    two newlines. *)
Definition step_3_failed_raw : string :=
  String nl (String nl (String.append "step 3 failed" (String nl (String nl EmptyString)))).


End LogStrip.

(** ** Python string helpers used by the descriptors *)
Module PyStr.

Local Open Scope string_scope.

Definition is_char (c d : ascii) : bool := Ascii.eqb c d.

(** [c in s] *)
Fixpoint contains (c : ascii) (s : string) : bool :=
  match s with
  | EmptyString => false
  | String d s' => is_char c d || contains c s'
  end.

(** [s.partition(c)]: the text before the first [c], and the text after it
    when there is one. *)
Fixpoint partition (c : ascii) (s : string) : string * option string :=
  match s with
  | EmptyString => (EmptyString, None)
  | String d s' =>
      if is_char c d then (EmptyString, Some s')
      else let '(a, b) := partition c s' in (String d a, b)
  end.

(** [s.rpartition(c)]: head up to and including the last [c], and the tail
    after it; the head is empty when [c] does not occur. *)
Fixpoint rsplit_keep (c : ascii) (s : string) : string * string :=
  match s with
  | EmptyString => (EmptyString, EmptyString)
  | String d s' =>
      if contains c s then let '(a, b) := rsplit_keep c s' in (String d a, b)
      else (EmptyString, s)
  end.

(** [os.path.split(p)[-1]]: what follows the last slash. *)
Definition basename (p : string) : string := snd (rsplit_keep "/" p).

Definition starts_with (p s : string) : bool := String.prefix p s.

Definition lower_char (c : ascii) : ascii :=
  let n := nat_of_ascii c in
  if ((65 <=? n) && (n <=? 90))%nat then ascii_of_nat (n + 32) else c.

Fixpoint lower (s : string) : string :=
  match s with
  | EmptyString => EmptyString
  | String c s' => String (lower_char c) (lower s')
  end.

Definition is_alpha (c : ascii) : bool :=
  let n := nat_of_ascii c in
  (((65 <=? n) && (n <=? 90)) || ((97 <=? n) && (n <=? 122)))%nat.

Definition is_digit (c : ascii) : bool :=
  let n := nat_of_ascii c in ((48 <=? n) && (n <=? 57))%nat.

Fixpoint all_chars (p : ascii -> bool) (s : string) : bool :=
  match s with
  | EmptyString => true
  | String c s' => p c && all_chars p s'
  end.

Definition hex_value (c : ascii) : option nat :=
  let n := nat_of_ascii c in
  if ((48 <=? n) && (n <=? 57))%nat then Some (n - 48)%nat
  else if ((65 <=? n) && (n <=? 70))%nat then Some (n - 55)%nat
  else if ((97 <=? n) && (n <=? 102))%nat then Some (n - 87)%nat
  else None.

(** [str.replace] of one character by another. *)
Fixpoint replace_char (c d : ascii) (s : string) : string :=
  match s with
  | EmptyString => EmptyString
  | String e s' => String (if is_char c e then d else e) (replace_char c d s')
  end.

End PyStr.

(** ** urllib.parse: the path of a URL and percent-decoding

    Strings are byte strings in UTF-8.  Modelled from the library's
    documented algorithm, for URLs without control characters and escapes
    that decode to valid UTF-8. *)
Module UrlLib.

Import PyStr.
Local Open Scope string_scope.

Definition scheme_char (c : ascii) : bool :=
  is_alpha c || is_digit c || is_char c "+" || is_char c "-" || is_char c ".".

(** Schemes whose last path segment may carry [;parameters]. *)
Definition uses_params : list string :=
  [""; "ftp"; "hdl"; "prospero"; "http"; "imap"; "https"; "shttp"; "rtsp";
   "rtspu"; "sip"; "sips"; "mms"; "sftp"; "tel"].

(** The scheme, when the text before the first colon is one, and the rest. *)
Definition split_scheme (url : string) : string * string :=
  match partition ":" url with
  | (String c pre, Some rest) =>
      if is_alpha c && all_chars scheme_char pre
      then (lower (String c pre), rest)
      else (EmptyString, url)
  | _ => (EmptyString, url)
  end.

(** Text up to the first of slash, question mark, hash; and what is left,
    delimiter included. *)
Fixpoint split_netloc (s : string) : string * string :=
  match s with
  | EmptyString => (EmptyString, EmptyString)
  | String c s' =>
      if is_char c "/" || is_char c "?" || is_char c "#" then (EmptyString, s)
      else let '(a, b) := split_netloc s' in (String c a, b)
  end.

Definition drop_netloc (url : string) : string :=
  match url with
  | String "/" (String "/" rest) => snd (split_netloc rest)
  | _ => url
  end.

(** The parameters of the last segment, cut off. *)
Definition split_params (url : string) : string :=
  let '(head, tail) := rsplit_keep "/" url in
  head ++ fst (partition ";" tail).

(** [urlparse(url).path] *)
Definition urlparse_path (url : string) : string :=
  let '(scheme, rest) := split_scheme url in
  let rest := drop_netloc rest in
  let rest := fst (partition "#" rest) in
  let rest := fst (partition "?" rest) in
  if bool_decide (scheme ∈ uses_params) && contains ";" rest
  then split_params rest else rest.

(** [unquote]: each percent sign followed by two hexadecimal digits becomes
    the byte they denote; any other percent sign stays. *)
Fixpoint unquote (s : string) : string :=
  match s with
  | EmptyString => EmptyString
  | String c s' =>
      if is_char c "%" then
        match s' with
        | String a (String b rest) =>
            match hex_value a, hex_value b with
            | Some x, Some y => String (ascii_of_nat (16 * x + y)) (unquote rest)
            | _, _ => String c (unquote s')
            end
        | _ => String c (unquote s')
        end
      else String c (unquote s')
  end.

(** [unquote_plus]: plus signs are spaces, then [unquote]. *)
Definition url_unquote_plus (s : string) : string :=
  unquote (replace_char "+" " " s).

End UrlLib.

(** ** str.format with keyword arguments

    The replacement fields of the URL template are plain names.  A field
    with a conversion, a format specification, an attribute or an index is
    outside the modelled fragment and reported as [OtherError]. *)
Module PyFormat.

Import PyStr.
Local Open Scope string_scope.

Fixpoint lookup_kw (kwargs : list (string * string)) (key : string) : option string :=
  match kwargs with
  | [] => None
  | (k, v) :: rest => if String.eqb k key then Some v else lookup_kw rest key
  end.

Definition bind_str (o : outcome string) (f : string -> string) : outcome string :=
  match o with
  | Returned s => Returned (f s)
  | Raised e => Raised e
  | Blocked => Blocked
  end.

Definition unsupported_field_char (c : ascii) : bool :=
  is_char c "!" || is_char c ":" || is_char c "." || is_char c "[" || is_char c "{".

(** The value a finished field name stands for: positional fields find no
    positional argument, unknown names are key errors. *)
Definition field_value (kwargs : list (string * string)) (field : string) : outcome string :=
  if all_chars is_digit field then Raised (OtherError "IndexError")
  else match lookup_kw kwargs field with
       | Some v => Returned v
       | None => Raised (KeyError field)
       end.

(** [template.format] with keyword arguments, left to right; [field] is the
    name being read inside braces, if any. *)
Fixpoint format_from (kwargs : list (string * string)) (field : option string)
    (template : string) : outcome string :=
  match template, field with
  | EmptyString, None => Returned EmptyString
  | EmptyString, Some _ => Raised (ValueError "expected '}' before end of string")
  | String c rest, None =>
      if is_char c "{" then
        match rest with
        | String "{" rest' => bind_str (format_from kwargs None rest') (String "{")
        | _ => format_from kwargs (Some EmptyString) rest
        end
      else if is_char c "}" then
        match rest with
        | String "}" rest' => bind_str (format_from kwargs None rest') (String "}")
        | _ => Raised (ValueError "Single '}' encountered in format string")
        end
      else bind_str (format_from kwargs None rest) (String c)
  | String c rest, Some name =>
      if is_char c "}" then
        match field_value kwargs name with
        | Returned v => bind_str (format_from kwargs None rest) (String.append v)
        | other => other
        end
      else if unsupported_field_char c then Raised (OtherError "unsupported replacement field")
      else format_from kwargs (Some (name ++ String c EmptyString)) rest
  end.

Definition format (template : string) (kwargs : list (string * string)) : outcome string :=
  format_from kwargs None template.

End PyFormat.

(** ** Package and Platform descriptors *)
Module Descriptors.

Import PyStr.
Local Open Scope string_scope.

(** [platform.machine()] and [platform.system()] of the host. *)
Record Host := { machine : string; system_name : string }.

Record Package := {
  name : string;
  version : string;
  download_url : string;
  dependencies : gmap string string
}.

(** [Package.resolved_download_url] *)
Definition resolved_download_url (host : Host) (self : Package) : outcome string :=
  let arch := machine host in
  PyFormat.format (download_url self)
    [("Arch", arch); ("Architecture", arch); ("Name", name self);
     ("System", system_name host); ("Version", version self)].

(** [Package.source_archive_name] *)
Definition source_archive_name (host : Host) (self : Package) : outcome string :=
  match resolved_download_url host self with
  | Returned url => Returned (basename (UrlLib.url_unquote_plus (UrlLib.urlparse_path url)))
  | Raised e => Raised e
  | Blocked => Blocked
  end.

(** [Package.from_yaml_config]: a record without Name, Version or URL is a
    key error; Dependencies default to the empty dictionary. *)
Definition from_yaml_config (config : gmap string string)
    (deps : option (gmap string string)) : outcome Package :=
  match config !! "Name", config !! "Version", config !! "URL" with
  | Some n, Some v, Some u =>
      Returned {| name := n; version := v; download_url := u;
                  dependencies := default ∅ deps |}
  | None, _, _ => Raised (KeyError "Name")
  | _, None, _ => Raised (KeyError "Version")
  | _, _, None => Raised (KeyError "URL")
  end.

Inductive PackageType := RPM | DEB.

Record PlatformInfo := {
  info_name : string;
  info_arch : string;
  info_source_docker_image : string;
  info_package_type : PackageType
}.

Inductive Platform :=
| amzn1_x86_64
| amzn2_x86_64
| el7_x86_64
| ubuntu_1604_x86_64
| ubuntu_1804_x86_64
| ubuntu_1810_x86_64
| ubuntu_1904_x86_64.

Definition value (p : Platform) : PlatformInfo :=
  match p with
  | amzn1_x86_64 => Build_PlatformInfo "amzn1" "x86_64" "amazonlinux:1" RPM
  | amzn2_x86_64 => Build_PlatformInfo "amzn2" "x86_64" "amazonlinux:2" RPM
  | el7_x86_64 => Build_PlatformInfo "el7" "x86_64" "centos:7" RPM
  | ubuntu_1604_x86_64 => Build_PlatformInfo "ubuntu-xenial" "amd64" "ubuntu:16.04" DEB
  | ubuntu_1804_x86_64 => Build_PlatformInfo "ubuntu-bionic" "amd64" "ubuntu:18.04" DEB
  | ubuntu_1810_x86_64 => Build_PlatformInfo "ubuntu-cosmic" "amd64" "ubuntu:18.10" DEB
  | ubuntu_1904_x86_64 => Build_PlatformInfo "ubuntu-disco" "amd64" "ubuntu:19.04" DEB
  end.

(** The member's own name, [platform.name] of the Enum. *)
Definition member_name (p : Platform) : string :=
  match p with
  | amzn1_x86_64 => "amzn1_x86_64"
  | amzn2_x86_64 => "amzn2_x86_64"
  | el7_x86_64 => "el7_x86_64"
  | ubuntu_1604_x86_64 => "ubuntu_1604_x86_64"
  | ubuntu_1804_x86_64 => "ubuntu_1804_x86_64"
  | ubuntu_1810_x86_64 => "ubuntu_1810_x86_64"
  | ubuntu_1904_x86_64 => "ubuntu_1904_x86_64"
  end.

Definition os_name (p : Platform) : string := info_name (value p).
Definition arch (p : Platform) : string := info_arch (value p).
Definition source_docker_image (p : Platform) : string := info_source_docker_image (value p).
Definition package_type (p : Platform) : PackageType := info_package_type (value p).
Definition dockerfile_template (p : Platform) : string := os_name p ++ ".dockerfile".

(** The manifest entry of the deduplication scenario. *)
Definition foo_package : Package :=
  {| name := "foo"; version := "1.0";
     download_url := "http://x/{Name}-{Version}.tar.gz"; dependencies := ∅ |}.

Definition linux_host : Host := {| machine := "x86_64"; system_name := "Linux" |}.


End Descriptors.

(** ** The file system the program reads and writes

    Paths are kept resolved, as the list of their components from the root;
    a Python path string is resolved where the program hands it to
    [os.path.join], [abspath] or a system call.  There are no symbolic
    links.  A file carries the device it lives on and its bytes; a hard link
    is a second entry with the same file. *)
Module FileSystem.

Import PyStr.

Abbreviation path := (list string) (only parsing).

Inductive node :=
| File (dev : Z) (data : list ascii)
| Dir (dev : Z).

(** [os.lstat(p).st_dev] *)
Definition st_dev (n : node) : Z :=
  match n with
  | File d _ => d
  | Dir d => d
  end.

Definition is_dir (n : node) : bool :=
  match n with
  | Dir _ => true
  | File _ _ => false
  end.

Abbreviation FS := (gmap (list string) node) (only parsing).

(** The components of a path string, separated by slashes. *)
Fixpoint split_slash (cur : string) (s : string) : list string :=
  match s with
  | EmptyString => [cur]
  | String c s' =>
      if is_char c "/" then cur :: split_slash EmptyString s'
      else split_slash (String.append cur (String c EmptyString)) s'
  end.

Definition enter (acc : list string) (component : string) : list string :=
  if String.eqb component "" || String.eqb component "." then acc
  else if String.eqb component ".." then removelast acc
  else acc ++ [component].

(** [os.path.join(base, s)] resolved: an absolute [s] starts again from the
    root; empty and dot components vanish, dot-dot steps up. *)
Definition path_join (base : list string) (s : string) : list string :=
  fold_left enter (split_slash EmptyString s)
    (if starts_with "/" s then [] else base).

(** The directory that holds [p] and the name of [p] in it. *)
Definition parent (p : list string) : list string := removelast p.

(** The entry named [name] in [dir], when [p] is one. *)
Fixpoint child_of (dir p : list string) : option string :=
  match dir, p with
  | [], [name] => Some name
  | d :: dir', c :: p' => if String.eqb d c then child_of dir' p' else None
  | _, _ => None
  end.

(** [os.scandir(dir)]: the entries of a directory with what they are. *)
Definition scandir (fs : gmap (list string) node) (dir : list string) : list (string * node) :=
  omap (fun '(p, n) => match child_of dir p with
                       | Some name => Some (name, n)
                       | None => None
                       end)
       (map_to_list fs).

Definition exists_ (fs : gmap (list string) node) (p : list string) : bool :=
  bool_decide (is_Some (fs !! p)).

(** A file-system call either gives the new file system or raises. *)
Definition lstat (fs : gmap (list string) node) (p : list string) : outcome node :=
  match fs !! p with
  | Some n => Returned n
  | None => Raised (FileNotFoundError p)
  end.

(** The directory a new entry [p] goes into, or the error of creating it. *)
Definition target_dir_dev (fs : gmap (list string) node) (p : list string) : outcome Z :=
  match p with
  | [] => Raised (FileExistsError p)
  | _ =>
      match fs !! parent p with
      | Some (Dir d) => Returned d
      | Some (File _ _) => Raised (NotADirectoryError p)
      | None => Raised (FileNotFoundError p)
      end
  end.

(** [os.mkdir(p)] *)
Definition mkdir (p : list string) (fs : gmap (list string) node)
    : outcome (gmap (list string) node) :=
  match fs !! p with
  | Some _ => Raised (FileExistsError p)
  | None =>
      match target_dir_dev fs p with
      | Returned d => Returned (<[p := Dir d]> fs)
      | Raised e => Raised e
      | Blocked => Blocked
      end
  end.

(** [os.link(src, dst)]: a second name for the file, on the same device. *)
Definition link (src dst : list string) (fs : gmap (list string) node)
    : outcome (gmap (list string) node) :=
  match fs !! src with
  | None => Raised (FileNotFoundError src)
  | Some (Dir _) => Raised (PermissionError src)
  | Some (File d data) =>
      match fs !! dst with
      | Some _ => Raised (FileExistsError dst)
      | None =>
          match target_dir_dev fs dst with
          | Returned d' =>
              if Z.eqb d d' then Returned (<[dst := File d data]> fs)
              else Raised (CrossDeviceError dst)
          | Raised e => Raised e
          | Blocked => Blocked
          end
      end
  end.

(** Writing [data] to the file [p], created or truncated: [open] for
    binary writing and the writes that follow. *)
Definition write_file (p : list string) (data : list ascii) (fs : gmap (list string) node)
    : outcome (gmap (list string) node) :=
  match fs !! p with
  | Some (Dir _) => Raised (IsADirectoryError p)
  | Some (File d _) => Returned (<[p := File d data]> fs)
  | None =>
      match target_dir_dev fs p with
      | Returned d => Returned (<[p := File d data]> fs)
      | Raised e => Raised e
      | Blocked => Blocked
      end
  end.

(** [shutil.copy2(src, dst)]: into [dst] when it is a directory, else onto
    it; the content is copied. *)
Definition copy2 (src dst : list string) (fs : gmap (list string) node)
    : outcome (gmap (list string) node) :=
  let dst' := match fs !! dst, last src with
              | Some (Dir _), Some base => dst ++ [base]
              | _, _ => dst
              end in
  match fs !! src with
  | None => Raised (FileNotFoundError src)
  | Some (Dir _) => Raised (IsADirectoryError src)
  | Some (File _ data) =>
      if bool_decide (src = dst') then Raised (OtherError "SameFileError")
      else write_file dst' data fs
  end.

(** The two values the program gives [copy_function]. *)
Inductive copy_function := use_link | use_copy2.

Definition apply_copy (f : copy_function) (src dst : list string)
    (fs : gmap (list string) node) : outcome (gmap (list string) node) :=
  match f with
  | use_link => link src dst fs
  | use_copy2 => copy2 src dst fs
  end.

End FileSystem.

(** ** The process: shared download states, requests, backend calls *)
Module Process.

Import Descriptors FileSystem.

(** [SourcePackageState] *)
Inductive SourcePackageState := InProgress | Downloaded | Failed.

#[global] Instance SourcePackageState_eq_dec : EqDecision SourcePackageState.
Proof. solve_decision. Defined.

(** [READ_BUFFER_SIZE = 1 << 20] *)
Definition READ_BUFFER_SIZE : Z := Z.shiftl 1 20.

(** What [int(req.getheader(...))] finds under Content-Length. *)
Inductive header :=
| HeaderInt (n : Z)
| HeaderMissing
| HeaderMalformed.

(** An open response: its Content-Length header and what the successive
    [readinto] calls deliver; past the end of the list a read gives nothing. *)
Record response := {
  content_length_header : header;
  reads : list (list ascii)
}.

Record Image := { image_id : string }.

(** What the program asks of the Docker client. *)
Inductive docker_call :=
| ImagesBuild (dockerfile path_ : list string) (rm : bool) (buildargs : gmap string string)
| ContainersRun (image : string) (dest_root : list string).

#[global] Instance docker_call_eq_dec : EqDecision docker_call.
Proof. solve_decision. Defined.

Definition is_run (c : docker_call) : bool :=
  match c with
  | ContainersRun _ _ => true
  | ImagesBuild _ _ _ _ => false
  end.

(** Everything outside the program: the host, the working directory, the
    network and the Docker daemon.  The answers may depend on what was asked
    before. *)
Record Env := {
  host : Host;
  cwd : list string;
  urlopen : list string -> string -> outcome response;
  images_build : list docker_call -> docker_call -> outcome (Image * string);
  containers_run : list docker_call -> docker_call -> outcome string
}.

(** The state of one process: the file system, the class attribute
    [PackageBuild.source_state], the URLs opened so far, the backend calls
    made so far and the normalised diagnostics logged by the handlers. *)
Record World := {
  fs : gmap (list string) node;
  source_state : gmap string SourcePackageState;
  requests : list string;
  docker_calls : list docker_call;
  diagnostics : list string
}.

Definition with_fs (w : World) (fs' : gmap (list string) node) : World :=
  {| fs := fs'; source_state := source_state w; requests := requests w;
     docker_calls := docker_calls w; diagnostics := diagnostics w |}.

Definition with_source_state (w : World) (st : gmap string SourcePackageState) : World :=
  {| fs := fs w; source_state := st; requests := requests w;
     docker_calls := docker_calls w; diagnostics := diagnostics w |}.

Definition with_request (w : World) (url : string) : World :=
  {| fs := fs w; source_state := source_state w; requests := requests w ++ [url];
     docker_calls := docker_calls w; diagnostics := diagnostics w |}.

Definition with_docker_call (w : World) (c : docker_call) : World :=
  {| fs := fs w; source_state := source_state w; requests := requests w;
     docker_calls := docker_calls w ++ [c]; diagnostics := diagnostics w |}.

Definition with_diagnostics (w : World) (lines : list string) : World :=
  {| fs := fs w; source_state := source_state w; requests := requests w;
     docker_calls := docker_calls w; diagnostics := diagnostics w ++ lines |}.

(** [PackageBuild]: one package on one platform. *)
Record PackageBuild := {
  package : Package;
  platform : Platform;
  build_root : list string;
  package_root : list string;
  package_dir : list string;
  build_dir : list string;
  remove_build_dir : bool;
  staged : bool;
  image : option Image
}.

Definition set_staged (self : PackageBuild) (b : bool) : PackageBuild :=
  {| package := package self; platform := platform self; build_root := build_root self;
     package_root := package_root self; package_dir := package_dir self;
     build_dir := build_dir self; remove_build_dir := remove_build_dir self;
     staged := b; image := image self |}.

Definition set_image (self : PackageBuild) (i : option Image) : PackageBuild :=
  {| package := package self; platform := platform self; build_root := build_root self;
     package_root := package_root self; package_dir := package_dir self;
     build_dir := build_dir self; remove_build_dir := remove_build_dir self;
     staged := staged self; image := i |}.

(** Computations that read and change a state and may raise; [io] are those
    on the world. *)
Definition M (S A : Type) : Type := S -> outcome A * S.

Abbreviation io := (M World) (only parsing).

Definition ret {S A} (a : A) : M S A := fun s => (Returned a, s).

Definition bind {S A B} (m : M S A) (k : A -> M S B) : M S B :=
  fun s =>
    match m s with
    | (Returned a, s') => k a s'
    | (Raised e, s') => (Raised e, s')
    | (Blocked, s') => (Blocked, s')
    end.

Definition lift {S A} (o : outcome A) : M S A := fun s => (o, s).

(** [for a in l: body(a)] *)
Fixpoint for_each {S A} (l : list A) (body : A -> M S unit) : M S unit :=
  match l with
  | [] => ret tt
  | a :: l' => bind (body a) (fun _ => for_each l' body)
  end.

(** A file-system call on the world's file system. *)
Definition fs_call (f : gmap (list string) node -> outcome (gmap (list string) node))
    : M World unit :=
  fun w =>
    match f (fs w) with
    | Returned fs' => (Returned tt, with_fs w fs')
    | Raised e => (Raised e, w)
    | Blocked => (Blocked, w)
    end.

Definition get_fs : M World (gmap (list string) node) := fun w => (Returned (fs w), w).

End Process.

(** ** Downloading the source archive *)
Module Download.

Import Descriptors FileSystem Process.

Notation "'let!' x ':=' m 'in' k" := (bind m (fun x => k))
  (at level 10, x name, m at level 100, k at level 200).

(** [PackageBuild.source_archive_path] *)
Definition source_archive_path (env : Env) (self : PackageBuild) : outcome (list string) :=
  match source_archive_name (host env) (package self) with
  | Returned archive => Returned (path_join (package_dir self) archive)
  | Raised e => Raised e
  | Blocked => Blocked
  end.

(** [int(req.getheader(...))] on the Content-Length header: a missing
    header is [int(None)], a type error. *)
Definition content_length_of (h : header) : outcome Z :=
  match h with
  | HeaderInt n => Returned n
  | HeaderMissing => Raised TypeError
  | HeaderMalformed => Raised (ValueError "invalid literal for int()")
  end.

(** The read loop: [written] is what has gone to the file so far.  The part
    of the buffer that a read fills is the chunk delivered; it is what both
    branches of the write put into the file. *)
Fixpoint read_loop (url : string) (content_length total_read : Z)
    (reads : list (list ascii)) (written : list ascii) : outcome unit * list ascii :=
  if total_read <? content_length then
    match reads with
    | [] => (Raised (TransferError url total_read content_length), written)
    | buffer :: reads' =>
        let n_read := Z.of_nat (length buffer) in
        if n_read =? 0 then
          (Raised (TransferError url total_read content_length), written)
        else
          let written' :=
            if n_read <? READ_BUFFER_SIZE
            then written ++ take (Z.to_nat n_read) buffer
            else written ++ buffer in
          read_loop url content_length (total_read + n_read) reads' written'
    end
  else (Returned tt, written).

(** The body of the [try]: make the package directory, open the URL, open
    the archive for writing, read the declared length and copy. *)
Definition transfer (env : Env) (self : PackageBuild) : M World unit :=
  let! fs0 := get_fs in
  let! _ := (if exists_ fs0 (package_dir self) then ret tt
           else fs_call (mkdir (package_dir self))) in
  let! url := lift (resolved_download_url (host env) (package self)) in
  let! req := (fun w => (urlopen env (requests w) url, with_request w url)) in
  let! archive := lift (source_archive_path env self) in
  let! _ := fs_call (write_file archive []) in
  let! content_length := lift (content_length_of (content_length_header req)) in
  fun w =>
    let '(r, written) := read_loop url content_length 0 (reads req) [] in
    match write_file archive written (fs w) with
    | Returned fs' => (r, with_fs w fs')
    | Raised e => (Raised e, w)
    | Blocked => (Blocked, w)
    end.

Definition set_state (self : PackageBuild) (st : SourcePackageState) (w : World) : World :=
  with_source_state w (<[name (package self) := st]> (source_state w)).

(** [PackageBuild.download_source_package], run by a thread that is alone:
    a download found in progress is waited for, and the wait never ends
    because no statement of the program notifies the condition. *)
Definition download_source_package (env : Env) (self : PackageBuild) : M World bool :=
  fun w =>
    match source_state w !! name (package self) with
    | Some Downloaded => (Returned false, w)
    | Some InProgress => (Blocked, w)
    | None | Some Failed =>
        match transfer env self (set_state self InProgress w) with
        | (Returned _, w') => (Returned true, set_state self Downloaded w')
        | (Raised e, w') => (Raised e, set_state self Failed w')
        | (Blocked, w') => (Blocked, w')
        end
    end.

End Download.

(** ** The build unit: staging, building, exporting *)
Module BuildUnit.

Import Descriptors FileSystem Process Download.

(** The state a method runs on: the object and the world. *)
Abbreviation unit_state := (PackageBuild * World)%type (only parsing).

Definition on_world {A} (m : M World A) : M (PackageBuild * World) A :=
  fun s =>
    match m (snd s) with
    | (r, w') => (r, (fst s, w'))
    end.

Definition get_self : M (PackageBuild * World) PackageBuild :=
  fun s => (Returned (fst s), s).

Definition update_self (f : PackageBuild -> PackageBuild) : M (PackageBuild * World) unit :=
  fun s => (Returned tt, (f (fst s), snd s)).

(** [PackageBuild.__init__]; [suffix] is the random part of the name that
    [mkdtemp] picks.  A name already taken is reported as the error
    [mkdtemp] ends with when it finds no free name. *)
Definition init (env : Env) (package : Package) (platform : Platform)
    (build_root package_root : list string) (remove_build_dir : bool)
    (suffix : string) : M World PackageBuild :=
  let prefix :=
    String.append (PyStr.replace_char "/" "-" (name package))
      (String.append "-"
         (String.append (PyStr.replace_char "/" "-" (version package))
            (String.append "-"
               (String.append (member_name platform)
                  (String.append "-" (arch platform)))))) in
  let build_dir := build_root ++ [String.append prefix suffix] in
  bind (fs_call (mkdir build_dir)) (fun _ =>
  ret {| package := package; platform := platform; build_root := build_root;
         package_root := package_root;
         package_dir := path_join package_root (name package);
         build_dir := build_dir; remove_build_dir := remove_build_dir;
         staged := false; image := None |}).

(** [PackageBuild.staged_archive] *)
Definition staged_archive (env : Env) (self : PackageBuild) : outcome (list string) :=
  match source_archive_name (host env) (package self) with
  | Returned archive => Returned (path_join (build_dir self) archive)
  | Raised e => Raised e
  | Blocked => Blocked
  end.

(** [PackageBuild.staged_dockerfile] *)
Definition staged_dockerfile (self : PackageBuild) : list string :=
  path_join (build_dir self) "Dockerfile".

(** [PackageBuild.buildargs] *)
Definition buildargs (env : Env) (self : PackageBuild) : outcome (gmap string string) :=
  match source_archive_name (host env) (package self) with
  | Returned archive =>
      Returned (list_to_map
        [("ARCH", arch (platform self)); ("OS_NAME", os_name (platform self));
         ("PACKAGE", name (package self)); ("REGION", "us-west-2"); ("REL", "0");
         ("SOURCE_ARCHIVE", archive); ("VERSION", version (package self))]%string)
  | Raised e => Raised e
  | Blocked => Blocked
  end.

(** The directory the program lists and copies: the package name, taken
    relative to the working directory. *)
Definition package_source (env : Env) (self : PackageBuild) : list string :=
  path_join (cwd env) (name (package self)).

(** The choice of [copy_function]: the devices of the directory named by the
    package name and of the build directory. *)
Definition choose_copy_function (env : Env) (self : PackageBuild) : M World copy_function :=
  let! fs0 := get_fs in
  let! package_stat := lift (lstat fs0 (path_join (cwd env) (name (package self)))) in
  let! build_stat := lift (lstat fs0 (build_dir self)) in
  ret (if st_dev package_stat =? st_dev build_stat then use_link else use_copy2).

Definition subdirs_of (entries : list (string * node)) : list string :=
  map fst (filter (fun e => is_dir (snd e) = true) entries).

Definition filenames_of (entries : list (string * node)) : list string :=
  map fst (filter (fun e => is_dir (snd e) = false) entries).

(** The loop over [walk(package_source)], top down: a directory is listed
    when it is reached, its files are copied, its subdirectories are made in
    the target, then each subdirectory is walked.  [fuel] bounds the depth. *)
Fixpoint walk_copy (fuel : nat) (copy : copy_function) (self : PackageBuild)
    (package_source source_dir : list string) : M World unit :=
  match fuel with
  | O => lift (Raised (OtherError "walk: deeper than the fuel"))
  | S fuel' =>
      let! fs0 := get_fs in
      let entries := scandir fs0 source_dir in
      let target_dir := build_dir self ++ drop (length package_source) source_dir in
      let! _ := for_each (filenames_of entries) (fun filename =>
                  fs_call (apply_copy copy (source_dir ++ [filename])
                                           (target_dir ++ [filename]))) in
      let! _ := for_each (subdirs_of entries) (fun subdir =>
                  fs_call (mkdir (target_dir ++ [subdir]))) in
      for_each (subdirs_of entries) (fun subdir =>
        walk_copy fuel' copy self package_source (source_dir ++ [subdir]))
  end.

(** Depth that no directory tree of the file system exceeds: one more than
    the length of its longest path. *)
Definition walk_fuel (fs : gmap (list string) node) : nat :=
  S (max_list (map (fun entry => length (fst entry)) (map_to_list fs))).

(** [PackageBuild.stage_files] *)
Definition stage_files (env : Env) : M (PackageBuild * World) unit :=
  let! self := get_self in
  let! _ := on_world (download_source_package env self) in
  let! copy := on_world (choose_copy_function env self) in
  let! fs0 := on_world get_fs in
  let! _ := on_world (walk_copy (walk_fuel fs0) copy self
                        (package_source env self) (package_source env self)) in
  let! archive := lift (source_archive_path env self) in
  let! staged_archive := lift (staged_archive env self) in
  let! _ := on_world (fs_call (apply_copy copy archive staged_archive)) in
  let! _ := on_world (fs_call (apply_copy copy
                        (path_join (cwd env) (dockerfile_template (platform self)))
                        (staged_dockerfile self))) in
  update_self (fun self => set_staged self true).

(** The lines a handler logs from one text: the payload of
    [LOG_STRIP_PATTERN], or the failed [assert m]. *)
Definition log_stripped (text : string) : M (PackageBuild * World) unit :=
  match LogStrip.log_strip text with
  | Some line => on_world (fun w => (Returned tt, with_diagnostics w [line]))
  | None => lift (Raised AssertionError)
  end.

Definition log_optional (text : option string) : M (PackageBuild * World) unit :=
  match text with
  | Some t => log_stripped t
  | None => ret tt
  end.

(** A payload of a container error is logged when it is there and not
    empty. *)
Definition log_payload (text : option string) : M (PackageBuild * World) unit :=
  match text with
  | Some EmptyString | None => ret tt
  | Some t => log_stripped t
  end.

(** The handler of [BuildError]: every entry's stream text and error detail,
    normalised, then the error again.  Other errors pass through. *)
Definition on_build_error (e : exn) : M (PackageBuild * World) unit :=
  match e with
  | BuildError build_log =>
      let! _ := for_each build_log (fun log_entry =>
                  let! _ := log_optional (fst log_entry) in
                  log_optional (snd log_entry)) in
      lift (Raised e)
  | _ => lift (Raised e)
  end.

(** [PackageBuild.build] *)
Definition build (env : Env) : M (PackageBuild * World) unit :=
  let! self := get_self in
  if negb (staged self) then
    lift (Raised (ValueError "Files have not been staged for building"))
  else
    let! args := lift (buildargs env self) in
    let call := ImagesBuild (staged_dockerfile self) (build_dir self) true args in
    fun s =>
      let w := snd s in
      let s' := (fst s, with_docker_call w call) in
      match images_build env (docker_calls w) call with
      | Returned (img, build_logs) => (Returned tt, (set_image (fst s') (Some img), snd s'))
      | Raised e => on_build_error e s'
      | Blocked => (Blocked, s')
      end.

(** The handler of [ContainerError]. *)
Definition on_container_error (e : exn) : M (PackageBuild * World) unit :=
  match e with
  | ContainerError stdout stderr =>
      let! _ := log_payload stdout in
      let! _ := log_payload stderr in
      lift (Raised e)
  | _ => lift (Raised e)
  end.

(** [PackageBuild.export] *)
Definition export (env : Env) (dest_root : list string) : M (PackageBuild * World) unit :=
  let! self := get_self in
  match image self with
  | None => lift (Raised (ValueError "Image has not been built"))
  | Some img =>
      let call := ContainersRun (image_id img) dest_root in
      fun s =>
        let w := snd s in
        let s' := (fst s, with_docker_call w call) in
        match containers_run env (docker_calls w) call with
        | Returned logs => (Returned tt, s')
        | Raised e => on_container_error e s'
        | Blocked => (Blocked, s')
        end
  end.

(** The methods a caller may invoke on a unit, and a caller that invokes
    them in any order, catching whatever is raised and going on. *)
Inductive method :=
| call_stage_files
| call_build
| call_export (dest_root : list string).

Definition invoke (env : Env) (m : method) : M (PackageBuild * World) unit :=
  match m with
  | call_stage_files => stage_files env
  | call_build => build env
  | call_export dest_root => export env dest_root
  end.

(** The results of the calls in order and the state after the last one; a
    call that never returns is the last one made. *)
Fixpoint invoke_all (env : Env) (ms : list method) (s : PackageBuild * World)
    : list (outcome unit) * (PackageBuild * World) :=
  match ms with
  | [] => ([], s)
  | m :: ms' =>
      match invoke env m s with
      | (Blocked, s') => ([Blocked], s')
      | (r, s') => let '(rs, s'') := invoke_all env ms' s' in (r :: rs, s'')
      end
  end.

End BuildUnit.

(** ** The download coordinator under threads

    Several threads, each inside one call of [download_source_package] on
    its own build unit, share the world, the lock of [download_cond] and the
    threads parked on it.  A step is one thread moving to its next program
    point. *)
Module Coordinator.

Import Descriptors FileSystem Process Download.

(** Program points of [download_source_package]. *)
Inductive pc :=
| AtLoopTop
| HoldingLock
| Checked (state : option SourcePackageState)
| Waiting
| Woken
| Owner
| Transferred (r : outcome unit)
| Finishing (r : outcome unit)
| Done (r : outcome bool).

Record thread := { self : PackageBuild; at_pc : pc }.

Definition moved (t : thread) (p : pc) : thread := {| self := self t; at_pc := p |}.

Definition package_name (t : thread) : string := name (package (self t)).

(** One run of the body of the [try], by thread [i] for package [pkg]. *)
Record transfer_event := { by_thread : nat; pkg : string; succeeded : bool }.

(** [lock] is the owner of the lock of [download_cond], [waiters] the
    threads parked in [wait]; only [notify] and [notify_all] take a thread
    out of [waiters]. *)
Record state := {
  threads : list thread;
  lock : option nat;
  waiters : list nat;
  world : World;
  history : list transfer_event
}.

(** The condition variable's operations.  The program calls the first
    only. *)
Definition cond_wait (i : nat) (ws : list nat) : list nat := ws ++ [i].
Definition cond_notify_all (ws : list nat) : list nat := [].

Definition returned (r : outcome unit) : bool :=
  match r with
  | Returned _ => true
  | _ => false
  end.

Definition update (s : state) (i : nat) (t : thread) (p : pc) (lock' : option nat)
    (waiters' : list nat) (world' : World) (history' : list transfer_event) : state :=
  {| threads := <[i := moved t p]> (threads s); lock := lock'; waiters := waiters';
     world := world'; history := history' |}.

(** The next program point of thread [i], when it can move. *)
Definition step_thread (env : Env) (i : nat) (s : state) : option state :=
  match threads s !! i with
  | None => None
  | Some t =>
      match at_pc t with
      | AtLoopTop =>
          match lock s with
          | None => Some (update s i t HoldingLock (Some i) (waiters s) (world s) (history s))
          | Some _ => None
          end
      | HoldingLock =>
          Some (update s i t (Checked (source_state (world s) !! package_name t))
                  (lock s) (waiters s) (world s) (history s))
      | Checked None | Checked (Some Failed) =>
          Some (update s i t Owner None (waiters s)
                  (set_state (self t) InProgress (world s)) (history s))
      | Checked (Some Downloaded) =>
          Some (update s i t (Done (Returned false)) None (waiters s) (world s) (history s))
      | Checked (Some InProgress) =>
          Some (update s i t Waiting None (cond_wait i (waiters s)) (world s) (history s))
      | Waiting =>
          match lock s with
          | None =>
              if bool_decide (i ∈ waiters s) then None
              else Some (update s i t Woken (Some i) (waiters s) (world s) (history s))
          | Some _ => None
          end
      | Woken => Some (update s i t AtLoopTop None (waiters s) (world s) (history s))
      | Owner =>
          let '(r, w') := transfer env (self t) (world s) in
          Some (update s i t (Transferred r) (lock s) (waiters s) w'
                  (history s ++ [{| by_thread := i; pkg := package_name t;
                                    succeeded := returned r |}]))
      | Transferred r =>
          match lock s with
          | None => Some (update s i t (Finishing r) (Some i) (waiters s) (world s) (history s))
          | Some _ => None
          end
      | Finishing (Returned _) =>
          Some (update s i t (Done (Returned true)) None (waiters s)
                  (set_state (self t) Downloaded (world s)) (history s))
      | Finishing (Raised e) =>
          Some (update s i t (Done (Raised e)) None (waiters s)
                  (set_state (self t) Failed (world s)) (history s))
      | Finishing Blocked => None
      | Done _ => None
      end
  end.

Definition step (env : Env) (s s' : state) : Prop :=
  exists i, step_thread env i s = Some s'.

(** Running the threads named by a schedule, one step each. *)
Fixpoint run_schedule (env : Env) (schedule : list nat) (s : state) : option state :=
  match schedule with
  | [] => Some s
  | i :: rest =>
      match step_thread env i s with
      | Some s' => run_schedule env rest s'
      | None => None
      end
  end.

(** Every thread at the top of the loop, nobody in the lock or parked. *)
Definition initial (units : list PackageBuild) (w : World) : state :=
  {| threads := map (fun u => {| self := u; at_pc := AtLoopTop |}) units;
     lock := None; waiters := []; world := w; history := [] |}.

Inductive reachable (env : Env) (units : list PackageBuild) (w : World) : state -> Prop :=
| reachable_initial : reachable env units w (initial units w)
| reachable_step s s' :
    reachable env units w s -> step env s s' -> reachable env units w s'.

(** Ownership of a download: from the claim to the final write. *)
Definition is_owner (p : pc) : bool :=
  match p with
  | Owner | Transferred _ | Finishing _ => true
  | _ => false
  end.

Definition holds_lock (p : pc) : bool :=
  match p with
  | HoldingLock | Checked _ | Woken | Finishing _ => true
  | _ => false
  end.

(** How many times the transfer for [n] has run, with the given result. *)
Definition transfers (n : string) (ok : bool) (h : list transfer_event) : nat :=
  length (filter (fun e => pkg e = n /\ succeeded e = ok) h).

(** The transfers thread [i] has run. *)
Definition ran (i : nat) (ok : bool) (h : list transfer_event) : Prop :=
  exists e, e ∈ h /\ by_thread e = i /\ succeeded e = ok.

Definition never_ran (i : nat) (h : list transfer_event) : Prop :=
  forall e, e ∈ h -> by_thread e <> i.

Definition post_success (p : pc) : bool :=
  match p with
  | Transferred (Returned _) | Finishing (Returned _) => true
  | _ => false
  end.

(** The steps, one constructor per program point. *)
Inductive transition (env : Env) (i : nat) (t : thread) (s : state) : state -> Prop :=
| tr_acquire :
    at_pc t = AtLoopTop -> lock s = None ->
    transition env i t s (update s i t HoldingLock (Some i) (waiters s) (world s) (history s))
| tr_read :
    at_pc t = HoldingLock ->
    transition env i t s
      (update s i t (Checked (source_state (world s) !! package_name t))
         (lock s) (waiters s) (world s) (history s))
| tr_claim st :
    at_pc t = Checked st -> st = None \/ st = Some Failed ->
    transition env i t s
      (update s i t Owner None (waiters s)
         (set_state (self t) InProgress (world s)) (history s))
| tr_skip :
    at_pc t = Checked (Some Downloaded) ->
    transition env i t s
      (update s i t (Done (Returned false)) None (waiters s) (world s) (history s))
| tr_wait :
    at_pc t = Checked (Some InProgress) ->
    transition env i t s
      (update s i t Waiting None (cond_wait i (waiters s)) (world s) (history s))
| tr_wake :
    at_pc t = Waiting -> lock s = None -> i ∉ waiters s ->
    transition env i t s (update s i t Woken (Some i) (waiters s) (world s) (history s))
| tr_leave :
    at_pc t = Woken ->
    transition env i t s (update s i t AtLoopTop None (waiters s) (world s) (history s))
| tr_transfer r w' :
    at_pc t = Owner -> transfer env (self t) (world s) = (r, w') ->
    transition env i t s
      (update s i t (Transferred r) (lock s) (waiters s) w'
         (history s ++ [{| by_thread := i; pkg := package_name t;
                           succeeded := returned r |}]))
| tr_reacquire r :
    at_pc t = Transferred r -> lock s = None ->
    transition env i t s
      (update s i t (Finishing r) (Some i) (waiters s) (world s) (history s))
| tr_succeed u :
    at_pc t = Finishing (Returned u) ->
    transition env i t s
      (update s i t (Done (Returned true)) None (waiters s)
         (set_state (self t) Downloaded (world s)) (history s))
| tr_fail e :
    at_pc t = Finishing (Raised e) ->
    transition env i t s
      (update s i t (Done (Raised e)) None (waiters s)
         (set_state (self t) Failed (world s)) (history s)).

Lemma step_thread_transition env i s s' :
  step_thread env i s = Some s' ->
  exists t, threads s !! i = Some t /\ transition env i t s s'.
Proof.
  unfold step_thread. destruct (threads s !! i) as [t|] eqn:Hi; [|discriminate].
  intros H. exists t. split; [reflexivity|].
  destruct (at_pc t) as [| |[[]|]| | | |r|[u|e|]|r] eqn:Hpc; try discriminate.
  - destruct (lock s) eqn:Hl; [discriminate|]. inversion H. now apply tr_acquire.
  - inversion H. now apply tr_read.
  - inversion H. now apply tr_wait.
  - inversion H. now apply tr_skip.
  - inversion H. eapply tr_claim; eauto.
  - inversion H. eapply tr_claim; eauto.
  - destruct (lock s) eqn:Hl; [discriminate|]. case_bool_decide; [discriminate|].
    inversion H. now apply tr_wake.
  - inversion H. now apply tr_leave.
  - destruct (transfer env (self t) (world s)) as [r w'] eqn:Ht.
    inversion H. now apply tr_transfer.
  - destruct (lock s) eqn:Hl; [discriminate|]. inversion H. now apply tr_reacquire.
  - inversion H. eapply tr_succeed, Hpc.
  - inversion H. eapply tr_fail, Hpc.
Qed.

Lemma transition_step_thread env i t s s' :
  threads s !! i = Some t -> transition env i t s s' -> step_thread env i s = Some s'.
Proof.
  intros Hi Htr. unfold step_thread. rewrite Hi.
  destruct Htr as [Hpc Hl|Hpc|st Hpc Hst|Hpc|Hpc|Hpc Hl Hw|Hpc|r w' Hpc Ht|r Hpc Hl|u Hpc|e Hpc];
    rewrite Hpc; try rewrite Hl; try reflexivity.
  - destruct Hst as [-> | ->]; reflexivity.
  - now rewrite bool_decide_eq_false_2.
  - now rewrite Ht.
Qed.

Lemma source_state_set_state u st w n :
  source_state (set_state u st w) !! n
  = if decide (name (package u) = n) then Some st else source_state w !! n.
Proof. unfold set_state. simpl. apply lookup_insert. Qed.

Lemma fs_call_source_state f w r w' :
  fs_call f w = (r, w') -> source_state w' = source_state w.
Proof. unfold fs_call. destruct (f (fs w)); intros [= <- <-]; reflexivity. Qed.

Lemma transfer_source_state env u w r w' :
  transfer env u w = (r, w') -> source_state w' = source_state w.
Proof.
  unfold transfer, bind, get_fs, lift, ret, fs_call. intros H.
  repeat (case_match; simplify_eq); reflexivity.
Qed.

Definition thread_history_ok (i : nat) (t : thread) (h : list transfer_event) : Prop :=
  match at_pc t with
  | Transferred r | Finishing r => ran i (returned r) h
  | Done (Returned true) => ran i true h
  | Done (Returned false) => never_ran i h
  | Done (Raised _) => ran i false h
  | Done Blocked => False
  | _ => never_ran i h
  end.

Record invariant (s : state) : Prop := {
  inv_lock : forall i t,
    threads s !! i = Some t -> holds_lock (at_pc t) = true -> lock s = Some i;
  inv_checked : forall i t st,
    threads s !! i = Some t -> at_pc t = Checked st ->
    st = source_state (world s) !! package_name t;
  inv_owner : forall i t,
    threads s !! i = Some t -> is_owner (at_pc t) = true ->
    source_state (world s) !! package_name t = Some InProgress;
  inv_unique : forall i j ti tj,
    threads s !! i = Some ti -> threads s !! j = Some tj ->
    package_name ti = package_name tj ->
    is_owner (at_pc ti) = true -> is_owner (at_pc tj) = true -> i = j;
  inv_parked : forall i t,
    threads s !! i = Some t -> at_pc t = Waiting -> i ∈ waiters s;
  inv_ok_once : forall n, (transfers n true (history s) <= 1)%nat;
  inv_ok_state : forall n,
    transfers n true (history s) = 1%nat ->
    source_state (world s) !! n = Some Downloaded
    \/ exists i t, threads s !! i = Some t /\ package_name t = n
                   /\ post_success (at_pc t) = true;
  inv_history : forall i t, threads s !! i = Some t -> thread_history_ok i t (history s)
}.

Lemma lookup_update s i t p l ws w h j tj :
  threads s !! i = Some t ->
  threads (update s i t p l ws w h) !! j = Some tj ->
  (j = i /\ tj = moved t p) \/ (j <> i /\ threads s !! j = Some tj).
Proof.
  intros Hi H. simpl in H. apply list_lookup_insert_Some in H.
  destruct H as [(-> & <- & _)|[Hne H]]; [left|right]; auto.
Qed.

Lemma lookup_update_same s i t p l ws w h :
  threads s !! i = Some t ->
  threads (update s i t p l ws w h) !! i = Some (moved t p).
Proof.
  intros Hi. simpl. apply list_lookup_insert_eq. eapply lookup_lt_Some, Hi.
Qed.

Lemma lookup_update_other s i t p l ws w h j :
  j <> i -> threads (update s i t p l ws w h) !! j = threads s !! j.
Proof. intros Hne. simpl. now apply list_lookup_insert_ne. Qed.

Lemma transfers_app n ok h e :
  transfers n ok (h ++ [e])
  = (transfers n ok h + if decide (pkg e = n /\ succeeded e = ok) then 1 else 0)%nat.
Proof.
  unfold transfers. rewrite filter_app, length_app. f_equal.
  destruct (decide _) as [H|H].
  - now rewrite filter_cons_True.
  - now rewrite filter_cons_False.
Qed.

Lemma owner_post_success p : post_success p = true -> is_owner p = true.
Proof. destruct p as [| | | | | |[]|[]|]; simpl; congruence. Qed.

Ltac proj := cbn [world update threads lock waiters history moved at_pc self] in *.

Section Preservation.
Context (env : Env) (s s' : state) (i : nat) (t : thread).
Hypothesis Hinv : invariant s.
Hypothesis Hi : threads s !! i = Some t.
Hypothesis Htr : transition env i t s s'.

Lemma step_inv_lock j tj :
  threads s' !! j = Some tj -> holds_lock (at_pc tj) = true -> lock s' = Some j.
Proof.
  intros Hj Hh.
  destruct Htr; apply (lookup_update _ _ _ _ _ _ _ _ _ _ Hi) in Hj;
    destruct Hj as [[-> ->]|[Hne Hj]]; simpl in *; try discriminate; try reflexivity;
    try (pose proof (inv_lock _ Hinv _ _ Hj Hh); congruence);
    try (assert (holds_lock (at_pc t) = true) as Ht by (rewrite H; reflexivity);
         pose proof (inv_lock _ Hinv _ _ Hi Ht);
         try pose proof (inv_lock _ Hinv _ _ Hj Hh); congruence).
Qed.

Lemma step_world_source_state n :
  source_state (world s') !! n = source_state (world s) !! n
  \/ (holds_lock (at_pc t) = true /\ package_name t = n).
Proof.
  destruct Htr; cbn [world update]; try (left; reflexivity).
  - destruct (decide (package_name t = n)) as [Hn|Hn].
    + right. now rewrite H.
    + left. rewrite source_state_set_state. now rewrite decide_False.
  - left. now rewrite (transfer_source_state _ _ _ _ _ H0).
  - destruct (decide (package_name t = n)) as [Hn|Hn].
    + right. now rewrite H.
    + left. rewrite source_state_set_state. now rewrite decide_False.
  - destruct (decide (package_name t = n)) as [Hn|Hn].
    + right. now rewrite H.
    + left. rewrite source_state_set_state. now rewrite decide_False.
Qed.

Lemma step_inv_checked j tj st :
  threads s' !! j = Some tj -> at_pc tj = Checked st ->
  st = source_state (world s') !! package_name tj.
Proof.
  intros Hj Hc.
  assert (j <> i -> threads s !! j = Some tj ->
          st = source_state (world s') !! package_name tj) as Hother.
  { intros Hne Hj'.
    destruct (step_world_source_state (package_name tj)) as [->|[Hl _]].
    - now apply (inv_checked _ Hinv j).
    - pose proof (inv_lock _ Hinv _ _ Hi Hl).
      assert (holds_lock (at_pc tj) = true) as Hl' by now rewrite Hc.
      pose proof (inv_lock _ Hinv _ _ Hj' Hl'). congruence. }
  destruct Htr; apply (lookup_update _ _ _ _ _ _ _ _ _ _ Hi) in Hj;
    destruct Hj as [[-> ->]|[Hne Hj]]; proj; try discriminate; eauto.
  injection Hc as <-. reflexivity.
Qed.

Lemma step_inv_owner j tj :
  threads s' !! j = Some tj -> is_owner (at_pc tj) = true ->
  source_state (world s') !! package_name tj = Some InProgress.
Proof.
  intros Hj Ho.
  assert (is_owner (at_pc t) = true ->
          source_state (world s) !! package_name t = Some InProgress) as Hmine
    by apply (inv_owner _ Hinv _ _ Hi).
  assert (j <> i -> threads s !! j = Some tj ->
          source_state (world s) !! package_name tj = Some InProgress) as Hother
    by (intros _ Hj'; now apply (inv_owner _ Hinv j)).
  assert (j <> i -> threads s !! j = Some tj -> is_owner (at_pc t) = true ->
          package_name t <> package_name tj) as Hdiff.
  { intros Hne Hj' Hot Hn. apply Hne. symmetry.
    now apply (inv_unique _ Hinv i j t tj). }
  destruct Htr; apply (lookup_update _ _ _ _ _ _ _ _ _ _ Hi) in Hj;
    destruct Hj as [[-> ->]|[Hne Hj]];
    cbn [world update moved at_pc self is_owner] in *; try discriminate;
    try (rewrite ?source_state_set_state; try case_decide; auto; fail).
  all: try (rewrite (transfer_source_state _ _ _ _ _ H0)).
  all: try (rewrite source_state_set_state).
  - apply Hmine. now rewrite H.
  - auto.
  - apply Hmine. now rewrite H.
  - rewrite decide_False; [auto|]. apply Hdiff; auto. now rewrite H.
  - rewrite decide_False; [auto|]. apply Hdiff; auto. now rewrite H.
Qed.

Lemma step_inv_unique j k tj tk :
  threads s' !! j = Some tj -> threads s' !! k = Some tk ->
  package_name tj = package_name tk ->
  is_owner (at_pc tj) = true -> is_owner (at_pc tk) = true -> j = k.
Proof.
  intros Hj Hk Hn Hoj Hok.
  assert (forall k tk, k <> i -> threads s !! k = Some tk ->
            package_name t = package_name tk -> is_owner (at_pc tk) = true ->
            forall st, at_pc t = Checked st -> st = None \/ st = Some Failed -> False)
    as Hclaim.
  { intros k0 tk0 Hne Hk0 Hn0 Ho0 st Hc Hst.
    pose proof (inv_checked _ Hinv _ _ _ Hi Hc) as Hst'.
    pose proof (inv_owner _ Hinv _ _ Hk0 Ho0) as Hin.
    rewrite <- Hn0, <- Hst' in Hin. destruct Hst; congruence. }
  assert (forall k tk, k <> i -> threads s !! k = Some tk ->
            package_name t = package_name tk -> is_owner (at_pc tk) = true ->
            is_owner (at_pc t) = true -> False) as Hold.
  { intros k0 tk0 Hne Hk0 Hn0 Ho0 Hot. apply Hne. symmetry.
    now apply (inv_unique _ Hinv i k0 t tk0). }
  destruct Htr as [Hpc Hl|Hpc|st Hpc Hst|Hpc|Hpc|Hpc Hl Hw|Hpc|r w' Hpc Ht|r Hpc Hl|u Hpc|e Hpc];
    apply (lookup_update _ _ _ _ _ _ _ _ _ _ Hi) in Hj;
    apply (lookup_update _ _ _ _ _ _ _ _ _ _ Hi) in Hk;
    destruct Hj as [[-> ->]|[Hnej Hj]]; destruct Hk as [[-> ->]|[Hnek Hk]];
    cbn [moved at_pc is_owner] in *; try discriminate; try reflexivity;
    try (now apply (inv_unique _ Hinv j k tj tk)).
  all: exfalso.
  all: match goal with
       | Hne : ?x <> i, Hx : threads s !! ?x = Some ?tx,
         Ho : is_owner (at_pc ?tx) = true |- _ =>
           first
             [ apply (Hclaim x tx Hne Hx) with (st := st);
               [first [exact Hn|exact (eq_sym Hn)]|exact Ho|exact Hpc|exact Hst]
             | apply (Hold x tx Hne Hx);
               [first [exact Hn|exact (eq_sym Hn)]|exact Ho|rewrite Hpc; reflexivity] ]
       end.
Qed.

Lemma step_inv_parked j tj :
  threads s' !! j = Some tj -> at_pc tj = Waiting -> j ∈ waiters s'.
Proof.
  intros Hj Hw.
  destruct Htr; apply (lookup_update _ _ _ _ _ _ _ _ _ _ Hi) in Hj;
    destruct Hj as [[-> ->]|[Hne Hj]];
    cbn [moved at_pc waiters update] in *; try discriminate;
    try (now apply (inv_parked _ Hinv j tj));
    unfold cond_wait; rewrite elem_of_app; [right|left].
  - now apply list_elem_of_singleton.
  - now apply (inv_parked _ Hinv j tj).
Qed.


Lemma step_history :
  history s' = history s
  \/ (exists r w', at_pc t = Owner /\ transfer env (self t) (world s) = (r, w')
        /\ s' = update s i t (Transferred r) (lock s) (waiters s) w'
                  (history s ++ [{| by_thread := i; pkg := package_name t;
                                    succeeded := returned r |}])).
Proof.
  destruct Htr; try (left; reflexivity). right. eauto.
Qed.

Lemma not_succeeded_at_owner n :
  at_pc t = Owner -> package_name t = n -> transfers n true (history s) = 0%nat.
Proof.
  intros Hpc Hn.
  pose proof (inv_ok_once _ Hinv n) as Hle.
  destruct (decide (transfers n true (history s) = 1%nat)) as [H1|H1]; [|lia].
  exfalso.
  assert (is_owner (at_pc t) = true) as Hot by now rewrite Hpc.
  destruct (inv_ok_state _ Hinv n H1) as [Hd|(k & tk & Hk & Hnk & Hps)].
  - pose proof (inv_owner _ Hinv _ _ Hi Hot). congruence.
  - assert (i = k) as <-.
    { apply (inv_unique _ Hinv i k t tk); auto; [congruence|].
      now apply owner_post_success. }
    assert (tk = t) as -> by congruence.
    rewrite Hpc in Hps. discriminate.
Qed.

Lemma step_inv_ok_once n : (transfers n true (history s') <= 1)%nat.
Proof.
  destruct step_history as [->|(r & w' & Hpc & Ht & ->)];
    [apply (inv_ok_once _ Hinv)|].
  cbn [history update]. rewrite transfers_app. cbn [pkg succeeded].
  case_decide as Hd.
  - destruct Hd as [Hn _]. rewrite (not_succeeded_at_owner n Hpc Hn). lia.
  - pose proof (inv_ok_once _ Hinv n). lia.
Qed.

Lemma step_inv_ok_state n :
  transfers n true (history s') = 1%nat ->
  source_state (world s') !! n = Some Downloaded
  \/ exists k tk, threads s' !! k = Some tk /\ package_name tk = n
                   /\ post_success (at_pc tk) = true.
Proof.
  intros H1.
  assert (forall k tk, k <> i -> threads s !! k = Some tk -> package_name tk = n ->
            post_success (at_pc tk) = true ->
            exists k tk, threads s' !! k = Some tk /\ package_name tk = n
                         /\ post_success (at_pc tk) = true) as Hkeep.
  { intros k tk Hne Hk Hn Hps. exists k, tk. repeat split; auto.
    destruct Htr; now rewrite lookup_update_other. }
  assert (forall p, post_success p = true ->
            exists k tk, threads (update s i t p (lock s') (waiters s') (world s') (history s'))
                           !! k = Some tk
                         /\ package_name tk = package_name t
                         /\ post_success (at_pc tk) = true) as Hself.
  { intros p Hp. exists i, (moved t p). split; [|split; [reflexivity|exact Hp]].
    now apply lookup_update_same. }
  destruct Htr as [Hpc Hl|Hpc|st Hpc Hst|Hpc|Hpc|Hpc Hl Hw|Hpc|r w' Hpc Ht|r Hpc Hl|u Hpc|e Hpc].
  8: { (* the transfer itself *)
    cbn [history update] in H1. rewrite transfers_app in H1. cbn [pkg succeeded] in H1.
    case_decide as Hd.
    - right. destruct Hd as [<- Hr]. apply Hself. destruct r; try discriminate. reflexivity.
    - rewrite Nat.add_0_r in H1.
      destruct (inv_ok_state _ Hinv n H1) as [Hdl|(k & tk & Hk & Hn & Hps)].
      + left. cbn [world update]. now rewrite (transfer_source_state _ _ _ _ _ Ht).
      + right. apply (Hkeep k tk); auto. intros ->.
        assert (tk = t) as -> by congruence. rewrite Hpc in Hps. discriminate. }
  all: cbn [history update] in H1;
    destruct (inv_ok_state _ Hinv n H1) as [Hdl|(k & tk & Hk & Hn & Hps)].
  all: try (left; exact Hdl).
  all: try (destruct (decide (k = i)) as [->|Hne];
            [assert (tk = t) as -> by congruence; rewrite Hpc in Hps; try discriminate
            |right; apply (Hkeep k tk); auto]).
  - (* claim, Downloaded *)
    left. cbn [world update]. rewrite source_state_set_state. case_decide as Hn; [|exact Hdl].
    exfalso. pose proof (inv_checked _ Hinv _ _ _ Hi Hpc) as Hst'.
    unfold package_name in Hst'. rewrite Hn, Hdl in Hst'. destruct Hst; congruence.
  - (* reacquire, own success *)
    right. subst n. apply Hself. exact Hps.
  - (* succeed, Downloaded *)
    left. cbn [world update]. rewrite source_state_set_state. case_decide; [reflexivity|exact Hdl].
  - (* succeed, own success *)
    left. cbn [world update]. rewrite source_state_set_state.
    rewrite decide_True; [reflexivity|exact Hn].
  - (* fail, Downloaded *)
    left. cbn [world update]. rewrite source_state_set_state. case_decide as Hn; [|exact Hdl].
    exfalso. assert (is_owner (at_pc t) = true) as Hot by now rewrite Hpc.
    pose proof (inv_owner _ Hinv _ _ Hi Hot) as Hin.
    unfold package_name in Hin. congruence.
Qed.

Lemma ran_app j ok h e : ran j ok h -> ran j ok (h ++ [e]).
Proof.
  intros (x & Hx & Hby & Hok). exists x. repeat split; auto.
  apply elem_of_app. now left.
Qed.

Lemma step_inv_history j tj :
  threads s' !! j = Some tj -> thread_history_ok j tj (history s').
Proof.
  intros Hj.
  pose proof (inv_history _ Hinv _ _ Hi) as Hmine.
  unfold thread_history_ok in *.
  destruct Htr as [Hpc Hl|Hpc|st Hpc Hst|Hpc|Hpc|Hpc Hl Hw|Hpc|r w' Hpc Ht|r Hpc Hl|u Hpc|e Hpc];
    apply (lookup_update _ _ _ _ _ _ _ _ _ _ Hi) in Hj;
    destruct Hj as [[-> ->]|[Hne Hj]];
    cbn [moved at_pc history update] in *;
    try (now apply (inv_history _ Hinv j tj));
    try (rewrite Hpc in Hmine; exact Hmine).
  - (* the transfer, by this thread *)
    exists {| by_thread := i; pkg := package_name t; succeeded := returned r |}.
    repeat split. apply elem_of_app. right. now apply list_elem_of_singleton.
  - (* the transfer, seen by another thread *)
    pose proof (inv_history _ Hinv _ _ Hj) as Hold. unfold thread_history_ok in Hold.
    assert (never_ran j (history s) ->
            never_ran j (history s ++ [{| by_thread := i; pkg := package_name t;
                                          succeeded := returned r |}])) as Hnever.
    { intros Hn x [Hx|Hx%list_elem_of_singleton]%elem_of_app; [now apply Hn|].
      subst x. simpl. congruence. }
    destruct (at_pc tj) as [| | | | | | | |[[]| |]]; auto using ran_app.
Qed.

End Preservation.

Lemma invariant_initial units w : invariant (initial units w).
Proof.
  assert (forall i t, threads (initial units w) !! i = Some t -> at_pc t = AtLoopTop) as Htop.
  { intros i t. unfold initial. simpl. rewrite list_lookup_fmap.
    destruct (units !! i); simpl; [|discriminate]. now intros [= <-]. }
  split; try (intros; match goal with
                      | H : threads (initial _ _) !! _ = Some ?t |- _ =>
                          pose proof (Htop _ _ H) as Hpc; try rewrite Hpc in *
                      end; simpl in *; try discriminate).
  - intros. simpl. unfold transfers. simpl. lia.
  - intros n H. unfold transfers in H. simpl in H. discriminate.
  - unfold thread_history_ok. rewrite Hpc. intros e He. simpl in He.
    now apply elem_of_nil in He.
Qed.

Lemma invariant_step env s s' : invariant s -> step env s s' -> invariant s'.
Proof.
  intros Hinv [i (t & Hi & Htr)%step_thread_transition].
  split.
  - eapply step_inv_lock; eauto.
  - eapply step_inv_checked; eauto.
  - eapply step_inv_owner; eauto.
  - eapply step_inv_unique; eauto.
  - eapply step_inv_parked; eauto.
  - eapply step_inv_ok_once; eauto.
  - eapply step_inv_ok_state; eauto.
  - eapply step_inv_history; eauto.
Qed.

Lemma invariant_reachable env units w s : reachable env units w s -> invariant s.
Proof.
  induction 1 as [|s s' _ IH Hstep]; [apply invariant_initial|].
  eapply invariant_step; eauto.
Qed.

End Coordinator.

(** ** Concrete hosts, file systems and units used to run the model *)
Module Scenario.

Import Descriptors FileSystem Process Download BuildUnit Coordinator.
Local Open Scope string_scope.

Definition bytes (s : string) : list ascii := list_ascii_of_string s.

Definition backend_ok (calls : list docker_call) (c : docker_call) : outcome (Image * string) :=
  Returned ({| image_id := "sha256:1f" |}, "Successfully built").

Definition run_ok (calls : list docker_call) (c : docker_call) : outcome string :=
  Returned "exported".

(** A server that declares three bytes and sends them. *)
Definition env_ok : Env :=
  {| host := linux_host; cwd := ["work"];
     urlopen := fun _ _ =>
       Returned {| content_length_header := HeaderInt 3; reads := [bytes "abc"] |};
     images_build := backend_ok; containers_run := run_ok |}.

(** A server that declares 1000 bytes, sends 999 and closes. *)
Definition env_short : Env :=
  {| host := linux_host; cwd := ["work"];
     urlopen := fun _ _ =>
       Returned {| content_length_header := HeaderInt 1000;
                   reads := [repeat "x"%char 999] |};
     images_build := backend_ok; containers_run := run_ok |}.

(** The working directory: the three roots on device 1, the directory
    named after the package on device 2, with a file and a subdirectory, a
    leftover file under the package root, and the recipes. *)
Definition fs0 : gmap (list string) node :=
  list_to_map
    [([], Dir 1); (["work"], Dir 1);
     (["work"; "packages"], Dir 1); (["work"; "builds"], Dir 1);
     (["work"; "dist"], Dir 1);
     (["work"; "packages"; "foo"], Dir 1);
     (["work"; "packages"; "foo"; "notes.txt"], File 1 (bytes "kept from an earlier run"));
     (["work"; "foo"], Dir 2);
     (["work"; "foo"; "foo.spec"], File 2 (bytes "Name: foo"));
     (["work"; "foo"; "patches"], Dir 2);
     (["work"; "foo"; "patches"; "fix.patch"], File 2 (bytes "--- a"));
     (["work"; "amzn1.dockerfile"], File 1 (bytes "FROM amazonlinux:1"));
     (["work"; "amzn2.dockerfile"], File 1 (bytes "FROM amazonlinux:2"))].

Definition w0 : World :=
  {| fs := fs0; source_state := ∅; requests := []; docker_calls := []; diagnostics := [] |}.

(** A unit as [main] makes it, with the name [mkdtemp] would have picked. *)
Definition unit_for (p : Platform) (suffix : string) : PackageBuild :=
  {| package := foo_package; platform := p;
     build_root := ["work"; "builds"]; package_root := ["work"; "packages"];
     package_dir := ["work"; "packages"; "foo"];
     build_dir := ["work"; "builds";
                   String.append "foo-1.0-"
                     (String.append (member_name p)
                        (String.append "-" (String.append (arch p) suffix)))];
     remove_build_dir := false; staged := false; image := None |}.

Definition unit1 : PackageBuild := unit_for amzn1_x86_64 "k3x9".
Definition unit2 : PackageBuild := unit_for amzn2_x86_64 "q7da".

(** The world once both units are constructed. *)
Definition w1 : World :=
  with_fs w0 (<[build_dir unit2 := Dir 1]> (<[build_dir unit1 := Dir 1]> fs0)).

(** Two threads, one per platform, both asking for package foo.  Thread 0
    claims the download; thread 1 finds it in progress and waits; thread 0
    transfers and records the result. *)
Definition two_threads : state := initial [unit1; unit2] w1.

Definition owner_then_waiter : list nat := [0; 0; 0; 1; 1; 1; 0; 0; 0]%nat.

(** The state a schedule leads to (the start when it cannot be run). *)
Definition state_after (env : Env) (schedule : list nat) : state :=
  default two_threads (run_schedule env schedule two_threads).

(** Thread 1 has read the entry of foo, which thread 0 put in progress. *)
Definition waiter_has_checked : state := state_after env_ok [0; 0; 0; 1; 1]%nat.

(** Thread 0 has finished, with the server that sends everything and with
    the one that stops short. *)
Definition download_done : state := state_after env_ok owner_then_waiter.
Definition download_failed : state := state_after env_short owner_then_waiter.

End Scenario.

(** ** Properties of the download coordinator *)
Module CoordinatorFacts.

Import Descriptors FileSystem Process Download Coordinator.

(** The scenario's unit is the one the constructor makes. *)
Lemma init_agrees_with_scenario :
  fst (BuildUnit.init Scenario.env_ok foo_package amzn1_x86_64 ["work"; "builds"]%string
         ["work"; "packages"]%string false "k3x9" Scenario.w0)
  = Returned Scenario.unit1.
Proof. vm_compute. reflexivity. Qed.

(** All the transfers for a package, whatever their result. *)
Definition transfers_of (n : string) (h : list transfer_event) : nat :=
  length (filter (fun e => pkg e = n) h).

Lemma transfers_of_split n h :
  transfers_of n h = (transfers n true h + transfers n false h)%nat.
Proof.
  unfold transfers_of, transfers. induction h as [|e h IH]; [reflexivity|].
  destruct (decide (pkg e = n)) as [Hn|Hn].
  - rewrite (filter_cons_True (fun e => pkg e = n)) by exact Hn. simpl length. rewrite IH.
    destruct (succeeded e) eqn:Hs.
    + rewrite (filter_cons_True (fun e => pkg e = n /\ succeeded e = true)) by auto.
      rewrite (filter_cons_False (fun e => pkg e = n /\ succeeded e = false))
        by (intros [_ ?]; congruence).
      simpl. lia.
    + rewrite (filter_cons_False (fun e => pkg e = n /\ succeeded e = true))
        by (intros [_ ?]; congruence).
      rewrite (filter_cons_True (fun e => pkg e = n /\ succeeded e = false)) by auto.
      simpl. lia.
  - rewrite (filter_cons_False (fun e => pkg e = n)) by exact Hn.
    rewrite !filter_cons_False by (intros [? _]; congruence).
    exact IH.
Qed.

Lemma run_schedule_reachable env units w schedule s s' :
  reachable env units w s -> run_schedule env schedule s = Some s' ->
  reachable env units w s'.
Proof.
  revert s. induction schedule as [|i rest IH]; simpl; intros s Hr H.
  - now injection H as <-.
  - destruct (step_thread env i s) as [s1|] eqn:Hs; [|discriminate].
    apply (IH s1); [|exact H]. eapply reachable_step; [exact Hr|]. now exists i.
Qed.

Definition runs (env : Env) (schedule : list nat) : bool :=
  match run_schedule env schedule Scenario.two_threads with
  | Some _ => true
  | None => false
  end.

Lemma state_after_reachable env schedule :
  runs env schedule = true ->
  reachable env [Scenario.unit1; Scenario.unit2] Scenario.w1
    (Scenario.state_after env schedule).
Proof.
  unfold runs, Scenario.state_after. intros H.
  destruct (run_schedule env schedule Scenario.two_threads) as [s|] eqn:Hs; [|discriminate].
  apply (run_schedule_reachable _ _ _ schedule Scenario.two_threads); [|exact Hs].
  apply reachable_initial.
Qed.

(** C3: in every reachable state two threads that own the download of the
    same package name are the same thread, whatever their platforms; an owner's
    package is recorded as in progress; the transfer of a package succeeds at
    most once; and in a run where no transfer of the package failed, its
    transfer ran at most once. *)
Theorem at_most_one_owner_and_one_transfer env units w s :
  reachable env units w s ->
  (forall i j ti tj,
      threads s !! i = Some ti -> threads s !! j = Some tj ->
      package_name ti = package_name tj ->
      is_owner (at_pc ti) = true -> is_owner (at_pc tj) = true -> i = j)
  /\ (forall i t,
         threads s !! i = Some t -> is_owner (at_pc t) = true ->
         source_state (world s) !! package_name t = Some InProgress)
  /\ (forall n, (transfers n true (history s) <= 1)%nat)
  /\ (forall n, transfers n false (history s) = 0%nat ->
                (transfers_of n (history s) <= 1)%nat).
Proof.
  intros Hinv%invariant_reachable. repeat split.
  - apply (inv_unique _ Hinv).
  - apply (inv_owner _ Hinv).
  - apply (inv_ok_once _ Hinv).
  - intros n Hf. rewrite transfers_of_split, Hf.
    pose proof (inv_ok_once _ Hinv n). lia.
Qed.

Lemma at_most_one_owner_and_one_transfer_witness :
  (transfers "foo" true (history Scenario.download_done) <= 1)%nat
  /\ (transfers_of "foo" (history Scenario.download_done) <= 1)%nat.
Proof.
  assert (reachable Scenario.env_ok [Scenario.unit1; Scenario.unit2] Scenario.w1
            Scenario.download_done) as Hr
    by (apply state_after_reachable; vm_compute; reflexivity).
  destruct (at_most_one_owner_and_one_transfer _ _ _ _ Hr) as (_ & _ & Hok & Hall).
  split; [apply Hok|apply Hall]. vm_compute. reflexivity.
Defined.

(** C2: a thread that has read the entry of its package holds the lock and
    has read the current entry; from there it claims the download when the
    entry is absent or failed, returns false without a transfer when it is
    downloaded, and parks on the condition when it is in progress; the owner
    runs the transfer; a parked thread cannot move while it is parked, and once
    taken out of the waiters it takes the lock again and goes back to the top
    of the loop; and a call that returns a boolean returns true exactly when
    its thread ran a transfer. *)
Theorem acquisition_decides_under_the_lock env units w s i t :
  reachable env units w s -> threads s !! i = Some t ->
  (forall st, at_pc t = Checked st ->
      lock s = Some i
      /\ st = source_state (world s) !! package_name t
      /\ step_thread env i s
         = Some match st with
                | None | Some Failed =>
                    update s i t Owner None (waiters s)
                      (set_state (self t) InProgress (world s)) (history s)
                | Some Downloaded =>
                    update s i t (Done (Returned false)) None (waiters s)
                      (world s) (history s)
                | Some InProgress =>
                    update s i t Waiting None (waiters s ++ [i]) (world s) (history s)
                end)
  /\ (at_pc t = Owner ->
      never_ran i (history s)
      /\ step_thread env i s
         = Some (let '(r, w') := transfer env (self t) (world s) in
                 update s i t (Transferred r) (lock s) (waiters s) w'
                   (history s ++ [{| by_thread := i; pkg := package_name t;
                                     succeeded := returned r |}])))
  /\ (at_pc t = Waiting -> i ∈ waiters s /\ step_thread env i s = None)
  /\ (forall s0 t0,
         threads s0 !! i = Some t0 -> at_pc t0 = Waiting ->
         i ∉ waiters s0 -> lock s0 = None ->
         step_thread env i s0
         = Some (update s0 i t0 Woken (Some i) (waiters s0) (world s0) (history s0)))
  /\ (forall s0 t0,
         threads s0 !! i = Some t0 -> at_pc t0 = Woken ->
         step_thread env i s0
         = Some (update s0 i t0 AtLoopTop None (waiters s0) (world s0) (history s0)))
  /\ (forall b, at_pc t = Done (Returned b) ->
         (b = true <-> exists ok, ran i ok (history s))).
Proof.
  intros Hinv%invariant_reachable Hi.
  pose proof (inv_history _ Hinv _ _ Hi) as Hh. unfold thread_history_ok in Hh.
  repeat split.
  - apply (inv_lock _ Hinv _ _ Hi). now rewrite H.
  - now apply (inv_checked _ Hinv i).
  - unfold step_thread. rewrite Hi, H. now destruct st as [[]|].
  - now rewrite H in Hh.
  - unfold step_thread. rewrite Hi, H.
    now destruct (transfer env (self t) (world s)).
  - now apply (inv_parked _ Hinv i t).
  - unfold step_thread. rewrite Hi, H.
    destruct (lock s); [reflexivity|].
    rewrite bool_decide_eq_true_2; [reflexivity|]. now apply (inv_parked _ Hinv i t).
  - intros s0 t0 H0 Hpc Hw Hl. unfold step_thread. rewrite H0, Hpc, Hl.
    now rewrite bool_decide_eq_false_2.
  - intros s0 t0 H0 Hpc. unfold step_thread. now rewrite H0, Hpc.
  - intros ->. rewrite H in Hh. now exists true.
  - intros [ok (e & He & Hby & _)]. rewrite H in Hh.
    destruct b; [reflexivity|]. exfalso. now apply (Hh e He).
Qed.

Lemma acquisition_decides_under_the_lock_witness :
  lock Scenario.waiter_has_checked = Some 1%nat
  /\ Some InProgress = source_state (world Scenario.waiter_has_checked) !! "foo"%string
  /\ (from_option (fun s => map at_pc (threads s)) []
        (step_thread Scenario.env_ok 1 Scenario.waiter_has_checked)
      = [Owner; Waiting]).
Proof.
  assert (reachable Scenario.env_ok [Scenario.unit1; Scenario.unit2] Scenario.w1
            Scenario.waiter_has_checked) as Hr
    by (apply state_after_reachable; vm_compute; reflexivity).
  assert (threads Scenario.waiter_has_checked !! 1%nat
          = Some {| self := Scenario.unit2; at_pc := Checked (Some InProgress) |}) as Hi
    by (vm_compute; reflexivity).
  destruct (acquisition_decides_under_the_lock _ _ _ _ _ _ Hr Hi) as (Hc & _).
  destruct (Hc (Some InProgress) eq_refl) as (Hl & Hst & Hstep).
  split; [exact Hl|]. split; [exact Hst|].
  rewrite Hstep. vm_compute. reflexivity.
Defined.

(** A parked thread stays parked: no step takes a thread out of the
    waiters, so no step moves a waiting thread. *)
Lemma parked_thread_stays_parked env units w s s' i t :
  reachable env units w s -> step env s s' ->
  threads s !! i = Some t -> at_pc t = Waiting ->
  threads s' !! i = Some t /\ i ∈ waiters s'.
Proof.
  intros Hinv%invariant_reachable [j Hstep] Hi Hpc.
  pose proof (inv_parked _ Hinv _ _ Hi Hpc) as Hin.
  destruct (step_thread_transition _ _ _ _ Hstep) as (tj & Hj & Htr).
  assert (j <> i) as Hne.
  { intros ->. assert (tj = t) as -> by congruence.
    destruct Htr; congruence. }
  destruct Htr; (split; [rewrite lookup_update_other by auto; exact Hi|]);
    cbn [waiters update]; try exact Hin.
  unfold cond_wait. apply elem_of_app. now left.
Qed.

(** C1, the failing run: thread 0 owns the download of foo and thread 1
    waits for it.  When thread 0 has stored the result, Downloaded after a
    complete transfer or Failed after a short one, and has returned true or
    raised, thread 1 is still parked among the waiters and no thread can take
    a step: nothing woke it. *)
Theorem waiter_is_never_woken :
  (map at_pc (threads Scenario.download_done) = [Done (Returned true); Waiting]
   /\ source_state (world Scenario.download_done) !! "foo"%string = Some Downloaded
   /\ waiters Scenario.download_done = [1%nat]
   /\ (forall i, step_thread Scenario.env_ok i Scenario.download_done = None))
  /\ (map at_pc (threads Scenario.download_failed)
      = [Done (Raised (TransferError "http://x/foo-1.0.tar.gz" 999 1000)); Waiting]
      /\ source_state (world Scenario.download_failed) !! "foo"%string = Some Failed
      /\ waiters Scenario.download_failed = [1%nat]
      /\ (forall i, step_thread Scenario.env_short i Scenario.download_failed = None)).
Proof.
  split; (split; [vm_compute; reflexivity|]); (split; [vm_compute; reflexivity|]);
    (split; [vm_compute; reflexivity|]);
    intros [|[|i]]; vm_compute; reflexivity.
Qed.

End CoordinatorFacts.

(** ** Properties of the transfer *)
Module TransferFacts.

Import Descriptors FileSystem Process Download.

(** The bytes a list of reads delivers. *)
Definition bytes_in (chunks : list (list ascii)) : Z := Z.of_nat (length (concat chunks)).

Lemma take_whole_buffer (buffer : list ascii) :
  take (Z.to_nat (Z.of_nat (length buffer))) buffer = buffer.
Proof. rewrite Nat2Z.id. apply firstn_all. Qed.





Lemma write_file_lookup p data fs fs' :
  write_file p data fs = Returned fs' ->
  exists d, fs' !! p = Some (File d data).
Proof.
  unfold write_file. destruct (fs !! p) as [[d old|d]|]; try discriminate.
  - intros [= <-]. exists d. apply lookup_insert_eq.
  - destruct (target_dir_dev fs p) as [d| |]; try discriminate.
    intros [= <-]. exists d. apply lookup_insert_eq.
Qed.




End TransferFacts.

(** ** Properties of the build unit *)
Module BuildUnitFacts.

Import Descriptors FileSystem Process Download BuildUnit.

(** Where the recipe of the unit's platform is read from. *)
Definition recipe_path (env : Env) (self : PackageBuild) : list string :=
  path_join (cwd env) (dockerfile_template (platform self)).

(** The steps of a staging that returned, in order, with the worlds
    between them. *)
Definition staging_steps (env : Env) (self : PackageBuild) (w w' : World)
    (copy : copy_function) (after_download after_walk : World) : Prop :=
  exists downloaded archive archive_target after_archive,
    download_source_package env self w = (Returned downloaded, after_download)
    /\ choose_copy_function env self after_download = (Returned copy, after_download)
    /\ walk_copy (walk_fuel (fs after_download)) copy self
         (package_source env self) (package_source env self) after_download
       = (Returned tt, after_walk)
    /\ source_archive_path env self = Returned archive
    /\ staged_archive env self = Returned archive_target
    /\ fs_call (apply_copy copy archive archive_target) after_walk
       = (Returned tt, after_archive)
    /\ fs_call (apply_copy copy (recipe_path env self) (staged_dockerfile self))
         after_archive
       = (Returned tt, w').

(** The step at which a staging raised [e]: the download, the choice of
    the copy function, the walk, the paths of the archive, its copy, or the
    copy of the recipe; all the steps before it returned. *)
Definition staging_raises (env : Env) (self : PackageBuild) (w : World) (e : exn)
    (w' : World) : Prop :=
  download_source_package env self w = (Raised e, w')
  \/ exists downloaded after_download,
       download_source_package env self w = (Returned downloaded, after_download)
       /\ (choose_copy_function env self after_download = (Raised e, w')
           \/ exists copy,
                choose_copy_function env self after_download
                = (Returned copy, after_download)
                /\ (walk_copy (walk_fuel (fs after_download)) copy self
                      (package_source env self) (package_source env self) after_download
                    = (Raised e, w')
                    \/ exists after_walk,
                         walk_copy (walk_fuel (fs after_download)) copy self
                           (package_source env self) (package_source env self)
                           after_download
                         = (Returned tt, after_walk)
                         /\ ((source_archive_path env self = Raised e /\ w' = after_walk)
                             \/ exists archive,
                                  source_archive_path env self = Returned archive
                                  /\ ((staged_archive env self = Raised e
                                       /\ w' = after_walk)
                                      \/ exists archive_target,
                                           staged_archive env self = Returned archive_target
                                           /\ (fs_call (apply_copy copy archive archive_target)
                                                 after_walk
                                               = (Raised e, w')
                                               \/ exists after_archive,
                                                    fs_call (apply_copy copy archive
                                                               archive_target) after_walk
                                                    = (Returned tt, after_archive)
                                                    /\ fs_call
                                                         (apply_copy copy
                                                            (recipe_path env self)
                                                            (staged_dockerfile self))
                                                         after_archive
                                                       = (Raised e, w')))))).

Lemma choose_copy_function_reads env self w r w' :
  choose_copy_function env self w = (r, w') -> w' = w.
Proof.
  unfold choose_copy_function, bind, get_fs, lift, ret.
  intros H. repeat (case_match; simplify_eq); reflexivity.
Qed.

Ltac stop :=
  cbv beta iota zeta delta [fst snd]; intros H; right; simplify_eq;
  split; [discriminate|]; split; [reflexivity|];
  intros e' He'; simplify_eq; unfold staging_raises; eauto 20.

Lemma stage_files_cases env self w r self' w' :
  stage_files env (self, w) = (r, (self', w')) ->
  (r = Returned tt /\ self' = set_staged self true
   /\ exists copy after_download after_walk,
        staging_steps env self w w' copy after_download after_walk)
  \/ (r <> Returned tt /\ self' = self
      /\ forall e, r = Raised e -> staging_raises env self w e w').
Proof.
  unfold stage_files, bind, on_world, get_self, update_self, lift, ret, get_fs.
  cbv beta iota zeta delta [fst snd].
  destruct (download_source_package env self w) as [[b| |] w1] eqn:Hd; [|stop..].
  destruct (choose_copy_function env self w1) as [[copy| |] w1'] eqn:Hc;
    pose proof (choose_copy_function_reads _ _ _ _ _ Hc) as ->; [|stop..].
  cbv beta iota zeta delta [fst snd].
  destruct (walk_copy _ copy self _ _ w1) as [[[]| |] w2] eqn:Hw; [|stop..].
  destruct (source_archive_path env self) as [archive| |] eqn:Ha; [|stop..].
  destruct (staged_archive env self) as [target| |] eqn:Hs; [|stop..].
  cbv beta iota zeta delta [fst snd].
  destruct (fs_call (apply_copy copy archive target) w2) as [[[]| |] w3] eqn:H3; [|stop..].
  cbv beta iota zeta delta [fst snd].
  destruct (fs_call (apply_copy copy _ (staged_dockerfile self)) w3) as [[[]| |] w4] eqn:H4;
    [|stop..].
  cbv beta iota zeta delta [fst snd]. intros H. left. simplify_eq. repeat split.
  exists copy, w1, w2, b, archive, target, w3. repeat split; assumption.
Qed.


(** *** What a computation leaves alone *)
Section Frames.
Context {S : Type} (P : S -> S -> Prop).
Hypothesis P_refl : forall s, P s s.
Hypothesis P_trans : forall s1 s2 s3, P s1 s2 -> P s2 s3 -> P s1 s3.

(** Every run of [m] relates the state before to the state after. *)
Definition keeps {A} (m : M S A) : Prop :=
  forall s r s', m s = (r, s') -> P s s'.

Lemma keeps_ret {A} (a : A) : keeps (ret a).
Proof. intros s r s' [= <- <-]. apply P_refl. Qed.

Lemma keeps_lift {A} (o : outcome A) : keeps (lift o).
Proof. intros s r s' [= <- <-]. apply P_refl. Qed.

Lemma keeps_bind {A B} (m : M S A) (k : A -> M S B) :
  keeps m -> (forall a, keeps (k a)) -> keeps (bind m k).
Proof.
  intros Hm Hk s r s'. unfold bind.
  destruct (m s) as [[a|e|] s1] eqn:H1.
  - intros H2. eapply P_trans; [eapply Hm, H1|eapply Hk, H2].
  - intros [= <- <-]. eapply Hm, H1.
  - intros [= <- <-]. eapply Hm, H1.
Qed.

Lemma keeps_for_each {A} (l : list A) (body : A -> M S unit) :
  (forall a, keeps (body a)) -> keeps (for_each l body).
Proof.
  intros Hb. induction l as [|a l IH]; cbn [for_each].
  - apply keeps_ret.
  - apply keeps_bind; [apply Hb|intros _; exact IH].
Qed.
End Frames.

(** Staging and downloading never talk to the Docker client. *)
Definition same_backend (w w' : World) : Prop :=
  docker_calls w' = docker_calls w /\ diagnostics w' = diagnostics w.

Lemma same_backend_refl w : same_backend w w.
Proof. now split. Qed.

Lemma same_backend_trans w1 w2 w3 :
  same_backend w1 w2 -> same_backend w2 w3 -> same_backend w1 w3.
Proof. intros [? ?] [? ?]. split; congruence. Qed.


Lemma keeps_fs_call f : keeps same_backend (fs_call f).
Proof.
  intros w r w'. unfold fs_call. destruct (f (fs w)); intros [= <- <-]; now split.
Qed.

Lemma keeps_get_fs : keeps same_backend get_fs.
Proof. intros w r w' [= <- <-]. now split. Qed.

Ltac frames :=
  repeat first
    [ apply (keeps_bind same_backend same_backend_trans); [|intros ?]
    | apply (keeps_for_each same_backend same_backend_refl same_backend_trans); intros ?
    | apply (keeps_ret same_backend same_backend_refl)
    | apply (keeps_lift same_backend same_backend_refl)
    | apply keeps_fs_call
    | apply keeps_get_fs
    | match goal with
      | |- keeps _ (if ?c then _ else _) => destruct c
      end ].

Lemma keeps_transfer env self : keeps same_backend (transfer env self).
Proof.
  unfold transfer. frames.
  - intros w r w' [= <- <-]. now split.
  - intros w r w'. destruct (read_loop _ _ _ _ _) as [r0 written].
    destruct (write_file _ _ _); intros [= <- <-]; now split.
Qed.

Lemma keeps_download env self : keeps same_backend (download_source_package env self).
Proof.
  intros w r w'. unfold download_source_package.
  destruct (source_state w !! _) as [[]|]; try (intros [= <- <-]; now split).
  all: destruct (transfer env self _) as [[[]| |] w1] eqn:Ht;
    intros [= <- <-]; apply keeps_transfer in Ht; destruct Ht; now split.
Qed.

Lemma keeps_walk_copy fuel copy self src dir :
  keeps same_backend (walk_copy fuel copy self src dir).
Proof.
  revert dir. induction fuel as [|fuel IH]; intros dir; cbn [walk_copy]; frames.
  apply IH.
Qed.

Lemma keeps_choose env self : keeps same_backend (choose_copy_function env self).
Proof. unfold choose_copy_function. frames. Qed.

(** On the state of a unit: the backend's record and the object's image. *)
Definition unit_frame (s s' : PackageBuild * World) : Prop :=
  same_backend (snd s) (snd s') /\ image (fst s') = image (fst s).

Lemma unit_frame_refl s : unit_frame s s.
Proof. split; [apply same_backend_refl|reflexivity]. Qed.

Lemma unit_frame_trans s1 s2 s3 : unit_frame s1 s2 -> unit_frame s2 s3 -> unit_frame s1 s3.
Proof.
  intros [H1 I1] [H2 I2]. split; [eapply same_backend_trans; eauto|congruence].
Qed.

Lemma keeps_on_world {A} (m : M World A) :
  keeps same_backend m -> keeps unit_frame (on_world m).
Proof.
  intros Hm [self w] r [self' w']. unfold on_world. cbn [fst snd].
  destruct (m w) as [r0 w0] eqn:H. intros [= <- <- <-].
  split; [eapply Hm, H|reflexivity].
Qed.

Lemma keeps_stage_files env : keeps unit_frame (stage_files env).
Proof.
  unfold stage_files.
  repeat first
    [ apply (keeps_bind unit_frame unit_frame_trans); [|intros ?]
    | apply (keeps_lift unit_frame unit_frame_refl)
    | apply keeps_on_world ].
  - intros s r s' [= <- <-]. apply unit_frame_refl.
  - apply keeps_download.
  - apply keeps_choose.
  - apply keeps_get_fs.
  - apply keeps_walk_copy.
  - apply keeps_fs_call.
  - apply keeps_fs_call.
  - intros s r s' [= <- <-]. split; [apply same_backend_refl|reflexivity].
Qed.

(** *** The handlers only log *)

Lemma log_strip_total text : exists line, LogStrip.log_strip text = Some line.
Proof.
  unfold LogStrip.log_strip. rewrite LogStrip.log_strip_chars_normalized. now eexists.
Qed.

(** The world with more diagnostics and nothing else changed. *)
Definition logged (s s' : PackageBuild * World) : Prop :=
  fst s' = fst s /\ fs (snd s') = fs (snd s)
  /\ source_state (snd s') = source_state (snd s)
  /\ requests (snd s') = requests (snd s)
  /\ docker_calls (snd s') = docker_calls (snd s).

Lemma logged_refl s : logged s s.
Proof. now repeat split. Qed.

Lemma logged_trans s1 s2 s3 : logged s1 s2 -> logged s2 s3 -> logged s1 s3.
Proof.
  intros (A1 & B1 & C1 & D1 & E1) (A2 & B2 & C2 & D2 & E2).
  repeat split; congruence.
Qed.

Lemma log_stripped_returns text s :
  exists s', log_stripped text s = (Returned tt, s') /\ logged s s'.
Proof.
  unfold log_stripped. destruct (log_strip_total text) as [line ->].
  unfold on_world. cbn [fst snd]. eexists. split; [reflexivity|]. now repeat split.
Qed.

Lemma log_optional_returns text s :
  exists s', log_optional text s = (Returned tt, s') /\ logged s s'.
Proof.
  destruct text as [t|]; [apply log_stripped_returns|].
  exists s. split; [reflexivity|apply logged_refl].
Qed.

Lemma log_payload_returns text s :
  exists s', log_payload text s = (Returned tt, s') /\ logged s s'.
Proof.
  destruct text as [[|c t]|]; try apply log_stripped_returns;
    exists s; (split; [reflexivity|apply logged_refl]).
Qed.

Lemma log_entries_return (build_log : list (option string * option string)) s :
  exists s',
    for_each build_log (fun log_entry =>
      bind (log_optional (fst log_entry)) (fun _ => log_optional (snd log_entry))) s
    = (Returned tt, s')
    /\ logged s s'.
Proof.
  revert s. induction build_log as [|entry rest IH]; intros s.
  - exists s. split; [reflexivity|apply logged_refl].
  - cbn [for_each]. unfold bind at 1. unfold bind at 1.
    destruct (log_optional_returns (fst entry) s) as (s1 & -> & H1).
    destruct (log_optional_returns (snd entry) s1) as (s2 & -> & H2).
    destruct (IH s2) as (s3 & -> & H3).
    exists s3. split; [reflexivity|].
    eapply logged_trans; [|exact H3]. eapply logged_trans; eauto.
Qed.

Lemma on_build_error_raises e s :
  exists s', on_build_error e s = (Raised e, s') /\ logged s s'.
Proof.
  assert (forall s, exists s', lift (S := PackageBuild * World) (A := unit) (Raised e) s
                               = (Raised e, s') /\ logged s s') as Hlift
    by (intros s0; exists s0; split; [reflexivity|apply logged_refl]).
  destruct e; try apply Hlift.
  unfold on_build_error. unfold bind at 1.
  destruct (log_entries_return build_log s) as (s1 & -> & Hs1).
  exists s1. split; [reflexivity|exact Hs1].
Qed.

Lemma on_container_error_raises e s :
  exists s', on_container_error e s = (Raised e, s') /\ logged s s'.
Proof.
  assert (forall s, exists s', lift (S := PackageBuild * World) (A := unit) (Raised e) s
                               = (Raised e, s') /\ logged s s') as Hlift
    by (intros s0; exists s0; split; [reflexivity|apply logged_refl]).
  destruct e; try apply Hlift.
  unfold on_container_error. unfold bind at 1.
  destruct (log_payload_returns stdout s) as (s1 & -> & H1).
  unfold bind at 1.
  destruct (log_payload_returns stderr s1) as (s2 & -> & H2).
  exists s2. split; [reflexivity|]. eapply logged_trans; eauto.
Qed.

(** *** What build and export do *)

Definition build_call (self : PackageBuild) (args : gmap string string) : docker_call :=
  ImagesBuild (staged_dockerfile self) (build_dir self) true args.

Lemma build_not_staged env self w :
  staged self = false ->
  build env (self, w)
  = (Raised (ValueError "Files have not been staged for building"), (self, w)).
Proof. intros H. unfold build, bind, get_self. cbn [fst snd]. now rewrite H. Qed.

Lemma build_staged env self w args :
  staged self = true -> buildargs env self = Returned args ->
  exists r self' w',
    build env (self, w) = (r, (self', w'))
    /\ docker_calls w' = docker_calls w ++ [build_call self args]
    /\ match images_build env (docker_calls w) (build_call self args) with
       | Returned (img, _) => r = Returned tt /\ self' = set_image self (Some img)
       | Raised e => r = Raised e /\ self' = self
       | Blocked => r = Blocked /\ self' = self
       end.
Proof.
  intros Hs Ha. unfold build, bind, get_self, lift. cbn [fst snd].
  rewrite Hs, Ha. cbn [negb fst snd]. fold (build_call self args).
  destruct (images_build env (docker_calls w) (build_call self args)) as [[img logs]|e|].
  - do 3 eexists. split; [reflexivity|]. now split.
  - destruct (on_build_error_raises e (self, with_docker_call w (build_call self args)))
      as ([self' w'] & -> & Hself & _ & _ & _ & Hcalls).
    cbn [fst snd] in *. do 3 eexists. split; [reflexivity|]. subst self'.
    split; [exact Hcalls|now split].
  - do 3 eexists. split; [reflexivity|]. now split.
Qed.

Lemma build_without_args env self w :
  staged self = true -> (forall args, buildargs env self <> Returned args) ->
  exists r, build env (self, w) = (r, (self, w)) /\ r <> Returned tt.
Proof.
  intros Hs Ha. unfold build, bind, get_self, lift. cbn [fst snd].
  rewrite Hs. cbn [negb].
  destruct (buildargs env self) as [args|e|]; [now destruct (Ha args)|..];
    eexists; (split; [reflexivity|discriminate]).
Qed.

Lemma export_without_image env dest_root self w :
  image self = None ->
  export env dest_root (self, w) = (Raised (ValueError "Image has not been built"), (self, w)).
Proof. intros H. unfold export, bind, get_self. cbn [fst snd]. now rewrite H. Qed.

Lemma export_with_image env dest_root self w img :
  image self = Some img ->
  exists r w',
    export env dest_root (self, w) = (r, (self, w'))
    /\ docker_calls w' = docker_calls w ++ [ContainersRun (image_id img) dest_root]
    /\ match containers_run env (docker_calls w) (ContainersRun (image_id img) dest_root) with
       | Returned _ => r = Returned tt
       | Raised e => r = Raised e
       | Blocked => r = Blocked
       end.
Proof.
  intros Hi. unfold export, bind, get_self. cbn [fst snd]. rewrite Hi. cbn [fst snd].
  destruct (containers_run env (docker_calls w) _) as [logs|e|].
  - do 2 eexists. split; [reflexivity|]. now split.
  - destruct (on_container_error_raises e
                (self, with_docker_call w (ContainersRun (image_id img) dest_root)))
      as ([self' w'] & -> & Hself & _ & _ & _ & Hcalls).
    cbn [fst snd] in *. subst self'. do 2 eexists. split; [reflexivity|]. now split.
  - do 2 eexists. split; [reflexivity|]. now split.
Qed.

(** What one call may change of the flags and of the containers run. *)
Lemma invoke_effect env m s r s' :
  invoke env m s = (r, s') ->
  (staged (fst s') = staged (fst s)
   \/ (m = call_stage_files /\ r = Returned tt /\ staged (fst s') = true))
  /\ (image (fst s') = image (fst s)
      \/ (m = call_build /\ r = Returned tt /\ staged (fst s) = true
          /\ exists args img logs,
               buildargs env (fst s) = Returned args
               /\ images_build env (docker_calls (snd s)) (build_call (fst s) args)
                  = Returned (img, logs)
               /\ image (fst s') = Some img))
  /\ (filter (fun c => is_run c = true) (docker_calls (snd s'))
      = filter (fun c => is_run c = true) (docker_calls (snd s))
      \/ (exists dest_root img,
            m = call_export dest_root /\ image (fst s) = Some img
            /\ docker_calls (snd s')
               = docker_calls (snd s) ++ [ContainersRun (image_id img) dest_root])).
Proof.
  destruct s as [self w], s' as [self' w']. cbn [fst snd].
  destruct m as [| |dest_root]; cbn [invoke]; intros H.
  - pose proof (keeps_stage_files env _ _ _ H) as [[Hcalls _] Himg]. cbn [fst snd] in *.
    split; [|split; [now left|left; now rewrite Hcalls]].
    destruct (stage_files_cases _ _ _ _ _ _ H) as [(-> & -> & _)|(_ & -> & _)];
      [right|left]; auto.
  - destruct (staged self) eqn:Hs.
    + destruct (buildargs env self) as [args|e|] eqn:Ha.
      * destruct (build_staged env self w args Hs Ha) as (r0 & self0 & w0 & H0 & Hcalls & Hres).
        rewrite H0 in H. injection H as -> -> ->.
        assert (filter (fun c => is_run c = true) (docker_calls w')
                = filter (fun c => is_run c = true) (docker_calls w)) as Hruns.
        { rewrite Hcalls, filter_app. rewrite filter_cons_False by (simpl; discriminate).
          rewrite filter_nil. apply app_nil_r. }
        destruct (images_build env (docker_calls w) (build_call self args))
          as [[img logs]|e|] eqn:Hb; destruct Hres as [-> ->].
        -- split; [now left|]. split; [|now left].
           right. repeat split; auto. exists args, img, logs. now repeat split.
        -- repeat split; now left.
        -- repeat split; now left.
      * destruct (build_without_args env self w Hs) as (r0 & H0 & _); [congruence|].
        rewrite H0 in H. injection H as -> -> ->. repeat split; now left.
      * destruct (build_without_args env self w Hs) as (r0 & H0 & _); [congruence|].
        rewrite H0 in H. injection H as -> -> ->. repeat split; now left.
    + rewrite (build_not_staged env self w Hs) in H. injection H as <- <- <-.
      repeat split; now left.
  - destruct (image self) as [img|] eqn:Hi.
    + destruct (export_with_image env dest_root self w img Hi) as (r0 & w0 & H0 & Hcalls & _).
      rewrite H0 in H. injection H as -> -> ->.
      split; [now left|]. split; [now left|]. right. exists dest_root, img. now repeat split.
    + rewrite (export_without_image env dest_root self w Hi) in H. injection H as <- <- <-.
      repeat split; now left.
Qed.

(** *** Sequences of calls *)



Lemma invoke_all_cons env m ms s :
  invoke_all env (m :: ms) s
  = match invoke env m s with
    | (Blocked, s') => ([Blocked], s')
    | (r, s') => let '(rs, s'') := invoke_all env ms s' in (r :: rs, s'')
    end.
Proof. reflexivity. Qed.



Lemma invoke_all_without_build env ms :
  forall s rs s',
    image (fst s) = None ->
    invoke_all env ms s = (rs, s') ->
    (forall k, ms !! k = Some call_build -> rs !! k <> Some (Returned tt)) ->
    image (fst s') = None
    /\ filter (fun c => is_run c = true) (docker_calls (snd s'))
       = filter (fun c => is_run c = true) (docker_calls (snd s))
    /\ (forall k dest_root,
          ms !! k = Some (call_export dest_root) -> is_Some (rs !! k) ->
          rs !! k = Some (Raised (ValueError "Image has not been built"))).
Proof.
  induction ms as [|m ms IH]; intros s rs s' Hi Hall Hnb.
  - injection Hall as <- <-. repeat split; auto. intros k d Hk. discriminate.
  - rewrite invoke_all_cons in Hall.
    destruct (invoke env m s) as [r s1] eqn:Hm.
    destruct (invoke_effect _ _ _ _ _ Hm) as (_ & Himg & Hruns).
    assert (m = call_build -> r = Returned tt -> False) as Hnot.
    { intros -> ->. destruct (invoke_all env ms s1) as [rs1 s2].
      injection Hall as <- _. now apply (Hnb O eq_refl). }
    assert (image (fst s1) = None) as Hi1.
    { destruct Himg as [->|(Hmb & Hrt & _)]; [exact Hi|]. now destruct (Hnot Hmb Hrt). }
    assert (filter (fun c => is_run c = true) (docker_calls (snd s1))
            = filter (fun c => is_run c = true) (docker_calls (snd s))) as Hr1.
    { destruct Hruns as [?|(d & img & _ & Hsome & _)]; [assumption|congruence]. }
    assert (forall dest_root, m = call_export dest_root ->
              r = Raised (ValueError "Image has not been built")) as Hexp.
    { intros d ->. cbn [invoke] in Hm. destruct s as [self w].
      rewrite (export_without_image env d self w Hi) in Hm. now injection Hm as <- _. }
    destruct r as [[]|e|].
    + destruct (invoke_all env ms s1) as [rs1 s2] eqn:Hrest. injection Hall as <- <-.
      assert (forall k, ms !! k = Some call_build -> rs1 !! k <> Some (Returned tt)) as Hnb'
        by (intros k Hk; apply (Hnb (S k) Hk)).
      destruct (IH s1 rs1 s2 Hi1 Hrest Hnb') as (H1 & H2 & H3).
      split; [exact H1|]. split; [congruence|].
      intros [|k] d Hk Hsome; [|now apply (H3 k d)].
      injection Hk as ->. pose proof (Hexp d eq_refl). discriminate.
    + destruct (invoke_all env ms s1) as [rs1 s2] eqn:Hrest. injection Hall as <- <-.
      assert (forall k, ms !! k = Some call_build -> rs1 !! k <> Some (Returned tt)) as Hnb'
        by (intros k Hk; apply (Hnb (S k) Hk)).
      destruct (IH s1 rs1 s2 Hi1 Hrest Hnb') as (H1 & H2 & H3).
      split; [exact H1|]. split; [congruence|].
      intros [|k] d Hk Hsome; [|now apply (H3 k d)].
      injection Hk as ->. simpl. f_equal. now apply (Hexp d).
    + injection Hall as <- <-. split; [exact Hi1|]. split; [exact Hr1|].
      intros [|k] d Hk Hsome.
      * injection Hk as ->. pose proof (Hexp d eq_refl). discriminate.
      * simpl in Hsome. destruct Hsome as [x Hx]. destruct k; discriminate.
Qed.


Lemma init_fresh env package platform build_root package_root remove_build_dir suffix
    w self w' :
  init env package platform build_root package_root remove_build_dir suffix w
  = (Returned self, w') ->
  staged self = false /\ image self = None.
Proof.
  unfold init, bind, ret, fs_call. destruct (mkdir _ (fs w)); intros H; simplify_eq.
  now split.
Qed.


(** C7: build on a unit that is not staged, and export on a unit without
    an image, raise the precondition error and leave the object and the world,
    the record of backend calls included, as they were; on a staged unit whose
    build arguments are defined build hands exactly one build call to the
    backend, and on a unit with an image export hands it exactly one run of
    that image. *)
Theorem precondition_errors_fail_fast env self w :
  (staged self = false ->
   build env (self, w)
   = (Raised (ValueError "Files have not been staged for building"), (self, w)))
  /\ (forall dest_root,
         image self = None ->
         export env dest_root (self, w)
         = (Raised (ValueError "Image has not been built"), (self, w)))
  /\ (forall args,
         staged self = true -> buildargs env self = Returned args ->
         exists r self' w',
           build env (self, w) = (r, (self', w'))
           /\ docker_calls w' = docker_calls w ++ [build_call self args]
           /\ match images_build env (docker_calls w) (build_call self args) with
              | Returned (img, _) => r = Returned tt /\ self' = set_image self (Some img)
              | Raised e => r = Raised e /\ self' = self
              | Blocked => r = Blocked /\ self' = self
              end)
  /\ (forall dest_root img,
         image self = Some img ->
         exists r w',
           export env dest_root (self, w) = (r, (self, w'))
           /\ docker_calls w' = docker_calls w ++ [ContainersRun (image_id img) dest_root]
           /\ match containers_run env (docker_calls w)
                      (ContainersRun (image_id img) dest_root) with
              | Returned _ => r = Returned tt
              | Raised e => r = Raised e
              | Blocked => r = Blocked
              end).
Proof.
  split; [apply build_not_staged|].
  split; [intros d; apply export_without_image|].
  split; [intros args; apply build_staged|].
  intros d img. apply export_with_image.
Qed.

Lemma precondition_errors_fail_fast_witness :
  build Scenario.env_ok (Scenario.unit1, Scenario.w1)
  = (Raised (ValueError "Files have not been staged for building"),
     (Scenario.unit1, Scenario.w1))
  /\ export Scenario.env_ok ["work"; "dist"; "amzn1"]%string (Scenario.unit1, Scenario.w1)
     = (Raised (ValueError "Image has not been built"), (Scenario.unit1, Scenario.w1)).
Proof.
  destruct (precondition_errors_fail_fast Scenario.env_ok Scenario.unit1 Scenario.w1)
    as (Hb & He & _).
  split; [apply Hb; reflexivity|apply He; reflexivity].
Defined.

(** C10: a new unit has no image; a call changes the image only when it
    is a build that returned, and then to the image the backend returned; so
    along any sequence of calls from a unit without an image in which no build
    returned, whatever was raised and ignored, the image stays absent, no
    container run is added to the backend's record, and every export that was
    made raised the precondition error. *)
Theorem image_only_from_successful_build env :
  (forall package platform build_root package_root remove_build_dir suffix w self w',
      init env package platform build_root package_root remove_build_dir suffix w
      = (Returned self, w') ->
      image self = None)
  /\ (forall m s r s',
         invoke env m s = (r, s') ->
         image (fst s') = image (fst s)
         \/ (m = call_build /\ r = Returned tt /\ staged (fst s) = true
             /\ exists args img logs,
                  buildargs env (fst s) = Returned args
                  /\ images_build env (docker_calls (snd s)) (build_call (fst s) args)
                     = Returned (img, logs)
                  /\ image (fst s') = Some img))
  /\ (forall ms s rs s',
         image (fst s) = None ->
         invoke_all env ms s = (rs, s') ->
         (forall k, ms !! k = Some call_build -> rs !! k <> Some (Returned tt)) ->
         image (fst s') = None
         /\ filter (fun c => is_run c = true) (docker_calls (snd s'))
            = filter (fun c => is_run c = true) (docker_calls (snd s))
         /\ (forall k dest_root,
               ms !! k = Some (call_export dest_root) -> is_Some (rs !! k) ->
               rs !! k = Some (Raised (ValueError "Image has not been built")))).
Proof.
  split.
  { intros package platform build_root package_root remove_build_dir suffix w self w' H.
    now destruct (init_fresh _ _ _ _ _ _ _ _ _ _ H). }
  split; [intros m s r s' H; apply (invoke_effect _ _ _ _ _ H)|].
  intros ms. apply invoke_all_without_build.
Qed.

End BuildUnitFacts.

(** ** Properties of the staging *)
Module StagingFacts.

Import Descriptors FileSystem Process Download BuildUnit BuildUnitFacts TransferFacts.
Local Open Scope Z_scope.

(** *** Listing a directory *)

Lemma child_of_Some dir p name_ :
  child_of dir p = Some name_ <-> p = dir ++ [name_].
Proof.
  revert p. induction dir as [|d dir IH]; intros p; simpl.
  - destruct p as [|c [|c' p]]; split; intros H; simplify_eq; reflexivity.
  - destruct p as [|c p]; [split; intros H; simplify_eq|].
    destruct (String.eqb_spec d c) as [->|Hne].
    + rewrite IH. split; intros H; simplify_eq; reflexivity.
    + split; intros H; simplify_eq.
Qed.

Lemma elem_of_scandir fs dir name_ n :
  (name_, n) ∈ scandir fs dir <-> fs !! (dir ++ [name_]) = Some n.
Proof.
  unfold scandir. rewrite list_elem_of_omap. split.
  - intros ([p n'] & Hin & H). apply elem_of_map_to_list in Hin.
    destruct (child_of dir p) as [nm|] eqn:Hc; [|discriminate].
    injection H as -> ->. apply child_of_Some in Hc. now subst p.
  - intros H. exists (dir ++ [name_], n). split; [now apply elem_of_map_to_list|].
    now rewrite (proj2 (child_of_Some dir _ name_) eq_refl).
Qed.


(** *** What the file-system calls do when they return *)

Lemma fs_call_returns f w w' :
  fs_call f w = (Returned tt, w') -> f (fs w) = Returned (fs w').
Proof.
  unfold fs_call. destruct (f (fs w)) as [fs'| |]; intros H; simplify_eq. reflexivity.
Qed.

Lemma mkdir_effect p fs fs' :
  mkdir p fs = Returned fs' -> fs !! p = None /\ exists d, fs' = <[p := Dir d]> fs.
Proof.
  unfold mkdir. destruct (fs !! p); [discriminate|].
  destruct (target_dir_dev fs p) as [d| |]; intros H; simplify_eq. eauto.
Qed.


(** *** A loop that returns keeps its invariant *)


(** *** The tree under a directory and its replica *)

(** [tree_entry fs dir q node]: going down from [dir] through directories
    along [q] one finds [node]. *)
Inductive tree_entry (fs : gmap (list string) node) : list string -> list string -> node -> Prop :=
| entry_here dir name_ n :
    fs !! (dir ++ [name_]) = Some n -> tree_entry fs dir [name_] n
| entry_below dir name_ d q n :
    fs !! (dir ++ [name_]) = Some (Dir d) ->
    tree_entry fs (dir ++ [name_]) q n ->
    tree_entry fs dir (name_ :: q) n.


(** Neither directory lies inside the other. *)
Definition apart (a b : list string) : Prop := forall x y, a ++ x <> b ++ y.


Lemma tree_entry_nonempty fs dir q n : tree_entry fs dir q n -> q <> [].
Proof. now destruct 1. Qed.

(** *** The three loops of one directory *)

Section OneDirectory.
Context (copy : copy_function) (S T : list string).
Hypothesis S_T_apart : forall x y, S ++ x <> T ++ y.



End OneDirectory.

(** *** The names a listing yields *)


Lemma elem_of_subdirs_of fs dir d :
  d ∈ subdirs_of (scandir fs dir) <-> exists dev, fs !! (dir ++ [d]) = Some (Dir dev).
Proof.
  unfold subdirs_of. rewrite list_elem_of_fmap. split.
  - intros ([nm n] & -> & [Hf Hin]%list_elem_of_filter). simpl in *.
    apply elem_of_scandir in Hin. destruct n; [discriminate|eauto].
  - intros (dev & H). exists (d, Dir dev). split; [reflexivity|].
    apply list_elem_of_filter. split; [reflexivity|]. now apply elem_of_scandir.
Qed.




(** *** The walk replicates the tree *)


(** *** The choice of the copy function and the two last copies *)




(** *** The walk never runs out of fuel *)

(** Nothing changes but inside [dir]. *)
Definition outside (dir : list string) (w w' : World) : Prop :=
  forall p, (forall q, q <> [] -> p <> dir ++ q) -> fs w' !! p = fs w !! p.

Lemma outside_refl dir w : outside dir w w.
Proof. now intros p _. Qed.

Lemma outside_trans dir w1 w2 w3 :
  outside dir w1 w2 -> outside dir w2 w3 -> outside dir w1 w3.
Proof. intros H1 H2 p Hp. now rewrite H2, H1. Qed.

Lemma apply_copy_writes copy a t fs fs' :
  apply_copy copy a t fs = Returned fs' ->
  exists x n, fs' = <[t ++ x := n]> fs.
Proof.
  destruct copy; cbn [apply_copy]; unfold link, copy2, write_file; intros H.
  - exists []. rewrite app_nil_r.
    repeat (case_match; simplify_eq); eauto.
  - destruct (fs !! t) as [[|]|], (last a); rewrite ?app_nil_r in *;
      repeat (case_match; simplify_eq);
      first [ now (exists []; rewrite app_nil_r; eauto) | eauto ].
Qed.

Lemma keeps_outside_copy dir copy a x :
  x <> [] -> keeps (outside dir) (fs_call (apply_copy copy a (dir ++ x))).
Proof.
  intros Hx w r w'. unfold fs_call.
  destruct (apply_copy copy a (dir ++ x) (fs w)) as [fs'| |] eqn:H;
    intros [= <- <-]; try apply outside_refl.
  apply apply_copy_writes in H as (y & n & ->). intros p Hp. cbn.
  apply lookup_insert_ne. intros <-. apply (Hp (x ++ y)).
  - now destruct x.
  - now rewrite app_assoc.
Qed.

Lemma keeps_outside_mkdir dir x :
  x <> [] -> keeps (outside dir) (fs_call (mkdir (dir ++ x))).
Proof.
  intros Hx w r w'. unfold fs_call.
  destruct (mkdir (dir ++ x) (fs w)) as [fs'| |] eqn:H;
    intros [= <- <-]; try apply outside_refl.
  apply mkdir_effect in H as (_ & d & ->). intros p Hp. cbn.
  apply lookup_insert_ne. intros <-. now apply (Hp x).
Qed.

Lemma keeps_outside_walk copy self src fuel rel :
  keeps (outside (build_dir self)) (walk_copy fuel copy self src (src ++ rel)).
Proof.
  revert rel. induction fuel as [|fuel IH]; intros rel; cbn [walk_copy].
  - apply (keeps_lift _ (outside_refl _)).
  - rewrite drop_app_length.
    apply (keeps_bind _ (outside_trans _)); [intros w r w' [= <- <-]; apply outside_refl|].
    intros fs0.
    apply (keeps_bind _ (outside_trans _)).
    { apply (keeps_for_each _ (outside_refl _) (outside_trans _)). intros f.
      rewrite <- (app_assoc (build_dir self)). apply keeps_outside_copy. now destruct rel. }
    intros _. apply (keeps_bind _ (outside_trans _)).
    { apply (keeps_for_each _ (outside_refl _) (outside_trans _)). intros d.
      rewrite <- (app_assoc (build_dir self)). apply keeps_outside_mkdir. now destruct rel. }
    intros _. apply (keeps_for_each _ (outside_refl _) (outside_trans _)). intros d.
    rewrite <- app_assoc. apply IH.
Qed.

(** What the model raises when the fuel is used up; no call of the
    program raises it. *)
Definition out_of_fuel : exn := OtherError "walk: deeper than the fuel".

Lemma apply_copy_not_out_of_fuel copy a t fs :
  apply_copy copy a t fs <> Raised out_of_fuel.
Proof.
  destruct copy; cbn [apply_copy]; unfold link, copy2, write_file, target_dir_dev;
    repeat (case_match; simplify_eq); discriminate.
Qed.

Lemma mkdir_not_out_of_fuel p fs : mkdir p fs <> Raised out_of_fuel.
Proof. unfold mkdir, target_dir_dev; repeat (case_match; simplify_eq); discriminate. Qed.

Lemma fs_call_not_out_of_fuel f w r w' :
  (forall fs, f fs <> Raised out_of_fuel) ->
  fs_call f w = (r, w') -> r <> Raised out_of_fuel.
Proof.
  intros Hf. unfold fs_call. pose proof (Hf (fs w)) as H.
  destruct (f (fs w)); intros [= <- <-]; congruence.
Qed.

Lemma for_each_avoids {A} (I : World -> Prop) (bad : exn) (body : A -> M World unit)
    (l : list A) :
  (forall a w r w', a ∈ l -> I w -> body a w = (r, w') -> r <> Raised bad /\ I w') ->
  forall w r w', I w -> for_each l body w = (r, w') -> r <> Raised bad /\ I w'.
Proof.
  induction l as [|a l IH]; intros Hb w r w' HI; cbn [for_each].
  - intros [= <- <-]. split; [discriminate|exact HI].
  - unfold bind. destruct (body a w) as [o w1] eqn:H1.
    destruct (Hb a w o w1 ltac:(left) HI H1) as [Ho HI1].
    destruct o as [[]| |].
    + apply IH; [|exact HI1]. intros b w2 r2 w3 Hin. apply Hb. now right.
    + intros [= <- <-]. now split.
    + intros [= <- <-]. now split.
Qed.

Section Fuel.
Variables (copy : copy_function) (self : PackageBuild) (src : list string) (N : nat).
Hypothesis Hapart : apart src (build_dir self).

(** No path of the source tree is longer than [N]. *)
Definition shallow (w : World) : Prop :=
  forall x n, fs w !! (src ++ x) = Some n -> (length (src ++ x) <= N)%nat.

Lemma shallow_outside w w' : outside (build_dir self) w w' -> shallow w -> shallow w'.
Proof.
  intros Hout Hs x n Hx. apply (Hs x n). rewrite <- Hout; [exact Hx|].
  intros q _. apply Hapart.
Qed.

Lemma walk_copy_within_fuel fuel rel w r w' :
  shallow w -> (1 <= fuel)%nat -> (N < fuel + length (src ++ rel))%nat ->
  walk_copy fuel copy self src (src ++ rel) w = (r, w') ->
  r <> Raised out_of_fuel.
Proof.
  revert rel w r w'. induction fuel as [|fuel IH]; intros rel w r w' Hs Hpos Hfuel; [lia|].
  cbn [walk_copy]. rewrite drop_app_length.
  unfold bind at 1. unfold get_fs at 1. cbv beta iota.
  set (entries := scandir (fs w) (src ++ rel)).
  unfold bind at 1.
  destruct (for_each (filenames_of entries) _ w) as [oA wA] eqn:HA.
  apply (for_each_avoids shallow out_of_fuel) in HA as [HoA HsA]; [|clear HA|exact Hs].
  2:{ intros f w1 r1 w2 _ Hs1 H1. split.
      - revert H1. apply fs_call_not_out_of_fuel. intros ?. apply apply_copy_not_out_of_fuel.
      - apply (shallow_outside w1); [|exact Hs1]. revert H1.
        rewrite <- (app_assoc (build_dir self)). apply keeps_outside_copy. now destruct rel. }
  destruct oA as [[]| |]; [|intros [= <- <-]; exact HoA..].
  unfold bind at 1.
  destruct (for_each (subdirs_of entries) _ wA) as [oB wB] eqn:HB.
  apply (for_each_avoids shallow out_of_fuel) in HB as [HoB HsB]; [|clear HB|exact HsA].
  2:{ intros d w1 r1 w2 _ Hs1 H1. split.
      - revert H1. apply fs_call_not_out_of_fuel. intros ?. apply mkdir_not_out_of_fuel.
      - apply (shallow_outside w1); [|exact Hs1]. revert H1.
        rewrite <- (app_assoc (build_dir self)). apply keeps_outside_mkdir. now destruct rel. }
  destruct oB as [[]| |]; [|intros [= <- <-]; exact HoB..].
  intros HC.
  apply (for_each_avoids shallow out_of_fuel) in HC as [HoC _]; [exact HoC| |exact HsB].
  intros d w1 r1 w2 Hd Hs1 H1.
  apply elem_of_subdirs_of in Hd as [dev Hd].
  rewrite <- app_assoc in Hd. apply Hs in Hd.
  rewrite <- app_assoc in H1. split.
  - apply (IH (rel ++ [d]) w1 r1 w2 Hs1); [| |exact H1];
      rewrite ?length_app in *; cbn [length] in *; lia.
  - apply (shallow_outside w1); [|exact Hs1]. revert H1. apply keeps_outside_walk.
Qed.
End Fuel.

(** The fuel the staging gives the walk is never used up: the model's own
    error is not among the results of the walk. *)
Lemma walk_fuel_suffices copy self src w r w' :
  apart src (build_dir self) ->
  walk_copy (walk_fuel (fs w)) copy self src src w = (r, w') ->
  r <> Raised out_of_fuel.
Proof.
  intros Hapart H. rewrite <- (app_nil_r src) in H at 2.
  apply (walk_copy_within_fuel copy self src
           (max_list (map (fun entry => length (fst entry)) (map_to_list (fs w)))) Hapart)
    in H; [exact H|..]; unfold walk_fuel; try lia.
  intros x n Hx. apply max_list_elem_of_le.
  apply elem_of_map_to_list in Hx.
  apply (list_elem_of_fmap_2 (fun entry => length (fst entry))) in Hx. exact Hx.
Qed.

(** *** The scenario, staged *)





Definition scenario_staged : outcome unit * (PackageBuild * World) :=
  stage_files Scenario.env_ok (Scenario.unit1, Scenario.w1).




Lemma returned_pair {S} (r : outcome unit * (PackageBuild * S)) :
  fst r = Returned tt -> r = (Returned tt, (fst (snd r), snd (snd r))).
Proof. destruct r as [o [u x]]. simpl. now intros ->. Qed.





End StagingFacts.

(** ** More on the normalisation of diagnostics *)
Module LogStripFacts.

Import LogStrip.

Lemma lead_len_no_newline s : forallb (fun c => negb (is_nl c)) s = true -> lead_len s = O.
Proof.
  induction s as [|c s IH]; [reflexivity|].
  cbn [forallb lead_len]. intros [Hc Hs]%andb_true_iff.
  rewrite (IH Hs). destruct (is_ws c); [|reflexivity].
  now destruct (is_nl c).
Qed.

Lemma tail_nl_no_newline s : forallb (fun c => negb (is_nl c)) s = true -> tail_nl s = [].
Proof.
  induction s as [|c s IH]; [reflexivity|].
  cbn [forallb tail_nl]. intros [Hc Hs]%andb_true_iff.
  destruct (is_nl c); [discriminate|]. cbn [andb]. exact (IH Hs).
Qed.

Lemma lead_len_blank_line lead rest :
  forallb is_ws lead = true -> lead_len (lead ++ nl :: rest) <> O.
Proof.
  induction lead as [|c lead IH]; cbn [app forallb lead_len].
  - intros _. change (is_ws nl) with true. change (is_nl nl) with true.
    cbv iota. destruct (lead_len rest); discriminate.
  - intros [Hc Hl]%andb_true_iff. rewrite Hc.
    destruct (lead_len (lead ++ nl :: rest)) eqn:H; [now destruct (IH Hl)|discriminate].
Qed.

Lemma tail_nl_final_newline t : tail_nl (t ++ [nl]) <> [].
Proof.
  induction t as [|c t IH]; [discriminate|].
  cbn [app tail_nl]. destruct (forallb is_nl (c :: t ++ [nl])); [discriminate|exact IH].
Qed.

Lemma lead_len_normalized s : lead_len (normalized s) = O.
Proof.
  unfold normalized. apply (lead_len_app_0 _ (tail_nl (strip_lead s))).
  rewrite <- strip_tail_app_tail. apply lead_len_strip_lead.
Qed.

(** X1: a text without a newline is logged as it is, spaces at either end
    included: the pattern only drops blank lines before and newlines after. *)
Theorem log_strip_keeps_single_line (s : string) :
  forallb (fun c => negb (is_nl c)) (list_ascii_of_string s) = true ->
  log_strip s = Some s.
Proof.
  intros H. unfold log_strip. rewrite log_strip_chars_normalized.
  change (Some (string_of_list_ascii (normalized (list_ascii_of_string s))) = Some s).
  unfold normalized, strip_lead. rewrite (lead_len_no_newline _ H). cbn [drop].
  rewrite strip_tail_fixed by now apply tail_nl_no_newline.
  f_equal. apply string_of_list_ascii_of_string.
Qed.

Lemma log_strip_keeps_single_line_witness :
  log_strip "  Step 3/7 : RUN make  " = Some "  Step 3/7 : RUN make  "%string.
Proof. apply log_strip_keeps_single_line. reflexivity. Defined.

(** X2: whatever the text, what is logged neither ends with a newline nor
    begins with a blank line (spaces and newlines up to a newline). *)
Theorem log_strip_result_has_no_blank_edge (s r : string) :
  log_strip s = Some r ->
  (forall t, list_ascii_of_string r <> t ++ [nl])
  /\ (forall lead rest,
        forallb is_ws lead = true -> list_ascii_of_string r <> lead ++ nl :: rest).
Proof.
  unfold log_strip. rewrite log_strip_chars_normalized.
  intros H.
  change (Some (string_of_list_ascii (normalized (list_ascii_of_string s))) = Some r) in H.
  injection H as <-.
  rewrite list_ascii_of_string_of_list_ascii. split.
  - intros t Ht. apply (tail_nl_final_newline t). rewrite <- Ht.
    apply tail_nl_strip_tail.
  - intros lead rest Hl Hr. apply (lead_len_blank_line lead rest Hl).
    rewrite <- Hr. apply lead_len_normalized.
Qed.

Lemma log_strip_result_has_no_blank_edge_witness :
  (forall t, list_ascii_of_string "step 3 failed" <> t ++ [nl])
  /\ (forall lead rest,
        forallb is_ws lead = true ->
        list_ascii_of_string "step 3 failed" <> lead ++ nl :: rest).
Proof. apply (log_strip_result_has_no_blank_edge step_3_failed_raw). reflexivity. Defined.

End LogStripFacts.

(** ** More on the descriptors: URL templates, archive names, platforms *)
Module DescriptorFacts.

Import PyStr UrlLib PyFormat Descriptors FileSystem Process Download BuildUnit.
Local Open Scope string_scope.

(** *** Templates *)

(** A character that is neither brace. *)
Definition plain_char (c : ascii) : bool := negb (is_char c "{") && negb (is_char c "}").


Lemma append_cons c s t : String c s ++ t = String c (s ++ t).
Proof. reflexivity. Qed.

Lemma append_empty_r s : s ++ "" = s.
Proof. induction s as [|c s IH]; [reflexivity|]. now rewrite append_cons, IH. Qed.

Lemma append_snoc s c t : (s ++ String c "") ++ t = s ++ String c t.
Proof. induction s as [|a s IH]; [reflexivity|]. now rewrite !append_cons, IH. Qed.

Lemma format_plain kwargs t :
  all_chars plain_char t = true -> format_from kwargs None t = Returned t.
Proof.
  induction t as [|c t IH]; [reflexivity|].
  cbn [all_chars format_from]. unfold plain_char at 1.
  intros [[Ho Hc]%andb_true_iff Ht]%andb_true_iff.
  apply negb_true_iff in Ho, Hc. rewrite Ho, Hc, (IH Ht). reflexivity.
Qed.






(** X3: a URL template without braces is the resolved URL, whatever the
    package and the host. *)
Theorem literal_url_resolves_to_itself host (self : Package) :
  all_chars plain_char (download_url self) = true ->
  resolved_download_url host self = Returned (download_url self).
Proof. intros H. unfold resolved_download_url, format. now apply format_plain. Qed.

Lemma literal_url_resolves_to_itself_witness :
  resolved_download_url linux_host
    {| name := "foo"; version := "1.0";
       download_url := "https://example.org/dist/foo.tar.gz"; dependencies := ∅ |}
  = Returned "https://example.org/dist/foo.tar.gz".
Proof. apply literal_url_resolves_to_itself. reflexivity. Defined.



(** *** Archive names *)

(** A unit for [pkg] as the constructor makes it in the scenario's working
    directory, and the world it leaves. *)
Definition construct (pkg : Package)
    : outcome PackageBuild * World :=
  init Scenario.env_ok pkg amzn1_x86_64 ["work"; "builds"] ["work"; "packages"] false
    "k3x9" Scenario.w0.

Definition unit_of (pkg : Package) : PackageBuild :=
  match fst (construct pkg) with
  | Returned self => self
  | _ => Scenario.unit1
  end.

Definition world_of (pkg : Package) : World := snd (construct pkg).

(** A package whose URL path holds an escaped slash and a query. *)
Definition escaped_package : Package :=
  {| name := "foo"; version := "1.0";
     download_url := "http://x/a/b%2Fc.tar.gz?v=1"; dependencies := ∅ |}.

Lemma contains_basename p : contains "/" (basename p) = false.
Proof.
  unfold basename. induction p as [|d p IH]; [reflexivity|].
  cbn [rsplit_keep]. destruct (contains "/" (String d p)) eqn:H.
  - destruct (rsplit_keep "/" p). exact IH.
  - exact H.
Qed.

Lemma split_slash_plain cur s :
  contains "/" s = false -> split_slash cur s = [cur ++ s].
Proof.
  revert cur. induction s as [|c s IH]; intros cur.
  - intros _. cbn [split_slash]. now rewrite append_empty_r.
  - cbn [contains split_slash]. intros [Hc Hs]%orb_false_iff.
    unfold is_char in *. rewrite Ascii.eqb_sym in Hc. rewrite Hc, (IH _ Hs).
    now rewrite append_snoc.
Qed.

Lemma path_join_plain base s :
  contains "/" s = false -> path_join base s = enter base s.
Proof.
  intros H. unfold path_join. rewrite (split_slash_plain _ _ H).
  change ("" ++ s) with s. cbn [fold_left].
  destruct s as [|c s]; [reflexivity|].
  cbn [contains] in H. apply orb_false_iff in H as [Hc _].
  unfold starts_with, is_char in *. cbn [String.prefix].
  destruct (ascii_dec "/" c) as [<-|_]; [|reflexivity].
  now rewrite Ascii.eqb_refl in Hc.
Qed.

Lemma enter_name base s :
  s <> "" -> s <> "." -> s <> ".." -> enter base s = (base ++ [s])%list.
Proof.
  intros H0 H1 H2. unfold enter.
  apply String.eqb_neq in H0, H1, H2. now rewrite H0, H1, H2.
Qed.

(** X5: the archive name never holds a slash, even when the URL path holds
    an escaped one; so, unless the name is empty, a dot or two dots, the
    archive is an entry of the package directory itself and its staged copy
    an entry of the build directory itself. *)
Theorem archive_is_an_entry_of_the_package_directory env self archive :
  source_archive_name (host env) (package self) = Returned archive ->
  contains "/" archive = false
  /\ (archive <> "" -> archive <> "." -> archive <> ".." ->
      source_archive_path env self = Returned (package_dir self ++ [archive])%list
      /\ staged_archive env self = Returned (build_dir self ++ [archive])%list).
Proof.
  intros H.
  assert (contains "/" archive = false) as Hplain.
  { unfold source_archive_name in H.
    destruct (resolved_download_url (host env) (package self)); simplify_eq.
    apply contains_basename. }
  split; [exact Hplain|]. intros H0 H1 H2.
  unfold source_archive_path, staged_archive. rewrite H.
  now rewrite !(path_join_plain _ _ Hplain), !enter_name.
Qed.

Lemma archive_is_an_entry_of_the_package_directory_witness :
  contains "/" "c.tar.gz" = false
  /\ source_archive_path Scenario.env_ok (unit_of escaped_package)
     = Returned ["work"; "packages"; "foo"; "c.tar.gz"].
Proof.
  destruct (archive_is_an_entry_of_the_package_directory Scenario.env_ok
              (unit_of escaped_package) "c.tar.gz" eq_refl) as [Hplain Hpath].
  split; [exact Hplain|].
  now destruct Hpath as [-> _].
Defined.

(** *** Platforms *)

(** X6: no two platforms share a short name, so no two share a recipe file
    or a directory under a common export root; and the architecture goes with
    the package type, x86_64 for RPM and amd64 for DEB. *)
Theorem platforms_are_told_apart_by_name (p q : Platform) :
  (os_name p = os_name q -> p = q)
  /\ (dockerfile_template p = dockerfile_template q -> p = q)
  /\ (forall root, path_join root (os_name p) = path_join root (os_name q) -> p = q)
  /\ arch p = match package_type p with RPM => "x86_64" | DEB => "amd64" end.
Proof.
  split; [destruct p, q; (reflexivity || discriminate)|].
  split; [destruct p, q; (reflexivity || (intros H; vm_compute in H; discriminate))|].
  split; [|destruct p; reflexivity].
  intros root H.
  assert (forall r, path_join root (os_name r) = (root ++ [os_name r])%list) as Hjoin
    by (intros r; destruct r; reflexivity).
  rewrite !Hjoin in H. apply app_inv_head in H.
  destruct p, q; (reflexivity || discriminate).
Qed.

End DescriptorFacts.

(** ** More on the download: what a call leaves behind *)
Module DownloadFacts.

Import PyStr UrlLib Descriptors FileSystem Process Download TransferFacts.
Local Open Scope Z_scope.

(** The call owns the download: nothing is recorded for the package, or a
    failure is. *)
Definition may_claim (self : PackageBuild) (w : World) : Prop :=
  source_state w !! name (package self) = None
  \/ source_state w !! name (package self) = Some Failed.

(** The package directory is there or can be made. *)
Definition package_dir_ready (self : PackageBuild) (w : World) : Prop :=
  is_Some (fs w !! package_dir self)
  \/ (package_dir self <> [] /\ exists d, fs w !! parent (package_dir self) = Some (Dir d)).

Lemma download_claims env self w :
  may_claim self w ->
  download_source_package env self w
  = match transfer env self (set_state self InProgress w) with
    | (Returned _, w') => (Returned true, set_state self Downloaded w')
    | (Raised e, w') => (Raised e, set_state self Failed w')
    | (Blocked, w') => (Blocked, w')
    end.
Proof. intros [H|H]; unfold download_source_package; now rewrite H. Qed.

(** The first step of the transfer: the package directory, made when it is
    not there. *)
Definition ensure_package_dir (self : PackageBuild) : M World unit :=
  bind get_fs (fun fs0 =>
    if exists_ fs0 (package_dir self) then ret tt else fs_call (mkdir (package_dir self))).

(** What the first step leaves: the directory is there, made as a directory
    when it was not; nothing else has changed. *)
Definition dir_step (self : PackageBuild) (w w1 : World) : Prop :=
  is_Some (fs w1 !! package_dir self)
  /\ (forall p, p <> package_dir self -> fs w1 !! p = fs w !! p)
  /\ (is_Some (fs w !! package_dir self) -> w1 = w)
  /\ (fs w !! package_dir self = None -> exists d, fs w1 !! package_dir self = Some (Dir d))
  /\ source_state w1 = source_state w /\ requests w1 = requests w.

Lemma ensure_package_dir_ready self w :
  package_dir_ready self w ->
  exists w1,
    ensure_package_dir self w = (Returned tt, w1)
    /\ dir_step self w w1.
Proof.
  intros Hready. unfold ensure_package_dir, bind, get_fs, exists_, ret, dir_step.
  case_bool_decide as Hex.
  - exists w. split; [reflexivity|]. split; [exact Hex|].
    split; [reflexivity|]. split; [reflexivity|]. split; [|now split].
    intros Hnone. destruct Hex as [x Hx]. congruence.
  - destruct Hready as [Hsome|(Hne & d & Hparent)]; [contradiction|].
    unfold fs_call, mkdir, target_dir_dev.
    destruct (fs w !! package_dir self) eqn:Hnone; [destruct Hex; eauto|].
    destruct (package_dir self) as [|c rest] eqn:Hp; [contradiction|].
    rewrite Hparent. eexists. split; [reflexivity|]. cbn.
    split; [rewrite lookup_insert_eq; eauto|].
    split; [intros p Hp'; now apply lookup_insert_ne|].
    split; [intros [x Hx]; congruence|].
    split; [|now split]. intros _. exists d. apply lookup_insert_eq.
Qed.

(** The transfer, once the directory is there and the URL is resolved, step
    by step. *)
Definition transfer_from (env : Env) (self : PackageBuild) (url : string) (w1 : World)
    : outcome unit * World :=
  let w2 := with_request w1 url in
  match urlopen env (requests w1) url with
  | Returned req =>
      match source_archive_path env self with
      | Returned archive =>
          match write_file archive [] (fs w1) with
          | Returned fs2 =>
              match content_length_of (content_length_header req) with
              | Returned content_length =>
                  let '(r, written) := read_loop url content_length 0 (reads req) [] in
                  match write_file archive written fs2 with
                  | Returned fs3 => (r, with_fs (with_fs w2 fs2) fs3)
                  | Raised e => (Raised e, with_fs w2 fs2)
                  | Blocked => (Blocked, with_fs w2 fs2)
                  end
              | Raised e => (Raised e, with_fs w2 fs2)
              | Blocked => (Blocked, with_fs w2 fs2)
              end
          | Raised e => (Raised e, w2)
          | Blocked => (Blocked, w2)
          end
      | Raised e => (Raised e, w2)
      | Blocked => (Blocked, w2)
      end
  | Raised e => (Raised e, w2)
  | Blocked => (Blocked, w2)
  end.

Lemma transfer_steps env self w url :
  package_dir_ready self w ->
  resolved_download_url (host env) (package self) = Returned url ->
  exists w1, transfer env self w = transfer_from env self url w1 /\ dir_step self w w1.
Proof.
  intros Hready Hurl.
  destruct (ensure_package_dir_ready self w Hready) as (w1 & Hdir & Hrest).
  exists w1. split; [|exact Hrest].
  change (transfer env self w)
    with (bind (ensure_package_dir self) (fun _ =>
            bind (lift (resolved_download_url (host env) (package self))) (fun url =>
            bind (fun w => (urlopen env (requests w) url, with_request w url)) (fun req =>
            bind (lift (source_archive_path env self)) (fun archive =>
            bind (fs_call (write_file archive [])) (fun _ =>
            bind (lift (content_length_of (content_length_header req)))
              (fun content_length w =>
               let '(r, written) := read_loop url content_length 0 (reads req) [] in
               match write_file archive written (fs w) with
               | Returned fs' => (r, with_fs w fs')
               | Raised e => (Raised e, w)
               | Blocked => (Blocked, w)
               end)))))) w).
  unfold bind at 1. rewrite Hdir. unfold bind at 1. unfold lift at 1. rewrite Hurl.
  unfold transfer_from, bind, lift, fs_call.
  destruct (urlopen env (requests w1) url) as [req| |]; try reflexivity.
  destruct (source_archive_path env self) as [archive| |]; try reflexivity.
  cbn [fs with_request].
  destruct (write_file archive [] (fs w1)) as [fs2| |]; reflexivity.
Qed.

Lemma state_after_set self st w :
  source_state (set_state self st w) !! name (package self) = Some st.
Proof. unfold set_state. cbn. apply lookup_insert_eq. Qed.

(** The archive can be opened for writing: it is a file already, or it is a
    new entry of the package directory, which is not itself a file. *)
Definition can_open (self : PackageBuild) (archive : list string) (w : World) : Prop :=
  (exists d old, fs w !! archive = Some (File d old))
  \/ (fs w !! archive = None /\ archive <> [] /\ parent archive = package_dir self
      /\ forall d data, fs w !! package_dir self <> Some (File d data)).

Lemma removelast_shorter {A} (l : list A) : l <> [] -> removelast l <> l.
Proof.
  intros Hne Heq. pose proof (f_equal length Heq) as Hlen.
  rewrite removelast_firstn_len, length_take in Hlen.
  destruct l; [contradiction|]. simpl in Hlen. lia.
Qed.

Lemma can_open_after_dir self archive w w1 :
  can_open self archive w -> dir_step self w w1 ->
  exists d, forall data,
    write_file archive data (fs w1) = Returned (<[archive := File d data]> (fs w1)).
Proof.
  intros Hopen (Hsome & Hframe & Hsame & Hmade & _).
  destruct Hopen as [(d & old & Hfile)|(Hnone & Hne & Hparent & Hnofile)].
  - assert (fs w1 !! archive = Some (File d old)) as H1.
    { destruct (fs w !! package_dir self) eqn:Hp.
      - rewrite (Hsame ltac:(eauto)). exact Hfile.
      - rewrite Hframe; [exact Hfile|]. intros ->. congruence. }
    exists d. intros data. unfold write_file. now rewrite H1.
  - assert (exists d, fs w1 !! package_dir self = Some (Dir d)) as [d Hd].
    { destruct (fs w !! package_dir self) as [[d0 data0|d0]|] eqn:Hp.
      - now destruct (Hnofile d0 data0).
      - rewrite (Hsame ltac:(eauto)). eauto.
      - now apply Hmade. }
    assert (fs w1 !! archive = None) as H1.
    { destruct (decide (archive = package_dir self)) as [Heq|Hneq].
      - exfalso. rewrite <- Heq in Hparent. now apply (removelast_shorter archive).
      - now rewrite Hframe. }
    exists d. intros data. unfold write_file, target_dir_dev. rewrite H1.
    destruct archive as [|a rest]; [contradiction|]. now rewrite Hparent, Hd.
Qed.

(** The transfer of a call that may claim the download, in the steps'
    normal form. *)
Lemma claimed_transfer env self w url :
  may_claim self w -> package_dir_ready self w ->
  resolved_download_url (host env) (package self) = Returned url ->
  exists w1,
    dir_step self (set_state self InProgress w) w1
    /\ download_source_package env self w
       = match transfer_from env self url w1 with
         | (Returned _, w') => (Returned true, set_state self Downloaded w')
         | (Raised e, w') => (Raised e, set_state self Failed w')
         | (Blocked, w') => (Blocked, w')
         end.
Proof.
  intros Hclaim Hready Hurl. rewrite (download_claims _ _ _ Hclaim).
  destruct (transfer_steps env self (set_state self InProgress w) url Hready Hurl)
    as (w1 & -> & Hstep).
  exists w1. now split.
Qed.

(** X7: when the request itself fails, the call raises that error, the
    package is marked Failed, the URL has been asked once, and no file is
    touched: an archive from an earlier run stays as it was (the package
    directory is made when it was missing). *)
Theorem failed_request_leaves_the_archive env self w url e :
  may_claim self w -> package_dir_ready self w ->
  resolved_download_url (host env) (package self) = Returned url ->
  urlopen env (requests w) url = Raised e ->
  exists w',
    download_source_package env self w = (Raised e, w')
    /\ source_state w' !! name (package self) = Some Failed
    /\ requests w' = requests w ++ [url]
    /\ (forall p, p <> package_dir self -> fs w' !! p = fs w !! p)
    /\ (is_Some (fs w !! package_dir self) -> fs w' = fs w).
Proof.
  intros Hclaim Hready Hurl Hopen.
  destruct (claimed_transfer env self w url Hclaim Hready Hurl)
    as (w1 & (_ & Hframe & Hsame & _ & _ & Hreq) & ->).
  change (requests (set_state self InProgress w)) with (requests w) in Hreq.
  change (fs (set_state self InProgress w)) with (fs w) in Hframe, Hsame.
  unfold transfer_from. rewrite Hreq, Hopen.
  eexists. split; [reflexivity|]. split; [apply state_after_set|].
  cbn. split; [now rewrite Hreq|]. split; [exact Hframe|].
  intros Hsome. now rewrite (Hsame Hsome).
Qed.

(** A server that refuses the connection. *)
Definition env_refused : Env :=
  {| host := linux_host; cwd := ["work"%string];
     urlopen := fun _ url => Raised (URLError url);
     images_build := Scenario.backend_ok; containers_run := Scenario.run_ok |}.

Lemma failed_request_leaves_the_archive_witness :
  exists w',
    download_source_package env_refused Scenario.unit1 Scenario.w1
    = (Raised (URLError "http://x/foo-1.0.tar.gz"), w')
    /\ source_state w' !! "foo"%string = Some Failed
    /\ requests w' = ["http://x/foo-1.0.tar.gz"%string]
    /\ (forall p, p <> ["work"; "packages"; "foo"]%string -> fs w' !! p = fs Scenario.w1 !! p)
    /\ (is_Some (fs Scenario.w1 !! ["work"; "packages"; "foo"]%string) ->
        fs w' = fs Scenario.w1).
Proof.
  apply (failed_request_leaves_the_archive env_refused Scenario.unit1 Scenario.w1
           "http://x/foo-1.0.tar.gz" (URLError "http://x/foo-1.0.tar.gz")).
  - left. reflexivity.
  - left. vm_compute. eauto.
  - reflexivity.
  - reflexivity.
Defined.





(** X9: a declared length of zero or less reads nothing: the call returns
    true, the package is Downloaded and the archive is an empty file, whatever
    the server would have sent. *)
Theorem nothing_declared_nothing_read env self w url req archive n :
  may_claim self w -> package_dir_ready self w ->
  resolved_download_url (host env) (package self) = Returned url ->
  urlopen env (requests w) url = Returned req ->
  source_archive_path env self = Returned archive ->
  can_open self archive w ->
  content_length_header req = HeaderInt n -> n <= 0 ->
  exists w' d,
    download_source_package env self w = (Returned true, w')
    /\ source_state w' !! name (package self) = Some Downloaded
    /\ fs w' !! archive = Some (File d [])
    /\ requests w' = requests w ++ [url].
Proof.
  intros Hclaim Hready Hurl Hopen Hpath Hcan Hlen Hn.
  destruct (claimed_transfer env self w url Hclaim Hready Hurl) as (w1 & Hstep & ->).
  destruct (can_open_after_dir self archive (set_state self InProgress w) w1 Hcan Hstep)
    as [d Hwrite].
  destruct Hstep as (_ & Hframe & _ & _ & _ & Hreq).
  change (requests (set_state self InProgress w)) with (requests w) in Hreq.
  unfold transfer_from. rewrite Hreq, Hopen, Hpath, Hwrite, Hlen. cbn [content_length_of].
  assert (read_loop url n 0 (reads req) [] = (Returned tt, [])) as ->.
  { destruct (reads req); cbn [read_loop];
      (destruct (0 <? n) eqn:H0; [apply Z.ltb_lt in H0; lia|reflexivity]). }
  unfold write_file at 1. rewrite lookup_insert_eq. rewrite insert_insert_eq.
  exists (set_state self Downloaded
            (with_fs (with_fs (with_request w1 url) (<[archive := File d []]> (fs w1)))
               (<[archive := File d []]> (fs w1)))), d.
  split; [reflexivity|]. split; [apply state_after_set|]. cbn.
  split; [apply lookup_insert_eq|now rewrite Hreq].
Qed.

(** A server that declares nothing and would send three bytes. *)
Definition env_zero : Env :=
  {| host := linux_host; cwd := ["work"%string];
     urlopen := fun _ _ =>
       Returned {| content_length_header := HeaderInt 0; reads := [Scenario.bytes "abc"] |};
     images_build := Scenario.backend_ok; containers_run := Scenario.run_ok |}.

Lemma nothing_declared_nothing_read_witness :
  exists w' d,
    download_source_package env_zero Scenario.unit1 Scenario.w1 = (Returned true, w')
    /\ source_state w' !! "foo"%string = Some Downloaded
    /\ fs w' !! ["work"; "packages"; "foo"; "foo-1.0.tar.gz"]%string = Some (File d [])
    /\ requests w' = ["http://x/foo-1.0.tar.gz"%string].
Proof.
  apply (nothing_declared_nothing_read env_zero Scenario.unit1 Scenario.w1
           "http://x/foo-1.0.tar.gz"
           {| content_length_header := HeaderInt 0; reads := [Scenario.bytes "abc"] |}
           _ 0).
  - left. reflexivity.
  - left. vm_compute. eauto.
  - reflexivity.
  - reflexivity.
  - reflexivity.
  - right. vm_compute. repeat split; discriminate.
  - reflexivity.
  - lia.
Defined.

(** X10: a URL whose path ends with a slash names no file: the archive
    path is the package directory itself, opening it for writing raises the
    is-a-directory error after the URL has been asked, and the package is
    marked Failed. *)
Theorem url_without_file_name_cannot_be_saved env self w url req :
  may_claim self w -> package_dir_ready self w ->
  (forall d data, fs w !! package_dir self <> Some (File d data)) ->
  resolved_download_url (host env) (package self) = Returned url ->
  basename (url_unquote_plus (urlparse_path url)) = ""%string ->
  urlopen env (requests w) url = Returned req ->
  exists w',
    download_source_package env self w = (Raised (IsADirectoryError (package_dir self)), w')
    /\ source_state w' !! name (package self) = Some Failed
    /\ requests w' = requests w ++ [url]
    /\ (forall p, p <> package_dir self -> fs w' !! p = fs w !! p).
Proof.
  intros Hclaim Hready Hnofile Hurl Hname Hopen.
  destruct (claimed_transfer env self w url Hclaim Hready Hurl) as (w1 & Hstep & ->).
  destruct Hstep as (Hsome & Hframe & Hsame & Hmade & _ & Hreq).
  change (requests (set_state self InProgress w)) with (requests w) in Hreq.
  change (fs (set_state self InProgress w)) with (fs w) in Hframe, Hsame, Hmade.
  assert (source_archive_path env self = Returned (package_dir self)) as Hpath.
  { unfold source_archive_path, source_archive_name. now rewrite Hurl, Hname. }
  assert (exists d, fs w1 !! package_dir self = Some (Dir d)) as [d Hd].
  { destruct (fs w !! package_dir self) as [[d0 data0|d0]|] eqn:Hp.
    - now destruct (Hnofile d0 data0).
    - rewrite (Hsame ltac:(eauto)). eauto.
    - now apply Hmade. }
  unfold transfer_from. rewrite Hreq, Hopen, Hpath.
  unfold write_file. rewrite Hd.
  eexists. split; [reflexivity|]. split; [apply state_after_set|]. cbn.
  split; [now rewrite Hreq|exact Hframe].
Qed.

(** A package whose URL names a directory. *)
Definition nameless_package : Package :=
  {| name := "foo"; version := "1.0"; download_url := "http://x/{Name}/";
     dependencies := ∅ |}.

Definition nameless_unit : PackageBuild :=
  {| package := nameless_package; platform := platform Scenario.unit1;
     build_root := build_root Scenario.unit1; package_root := package_root Scenario.unit1;
     package_dir := package_dir Scenario.unit1; build_dir := build_dir Scenario.unit1;
     remove_build_dir := false; staged := false; image := None |}.

Lemma url_without_file_name_cannot_be_saved_witness :
  exists w',
    download_source_package Scenario.env_ok nameless_unit Scenario.w1
    = (Raised (IsADirectoryError ["work"; "packages"; "foo"]%string), w')
    /\ source_state w' !! "foo"%string = Some Failed
    /\ requests w' = ["http://x/foo/"%string]
    /\ (forall p, p <> ["work"; "packages"; "foo"]%string -> fs w' !! p = fs Scenario.w1 !! p).
Proof.
  apply (url_without_file_name_cannot_be_saved Scenario.env_ok nameless_unit Scenario.w1
           "http://x/foo/"
           {| content_length_header := HeaderInt 3; reads := [Scenario.bytes "abc"] |}).
  - left. reflexivity.
  - left. vm_compute. eauto.
  - intros d data. vm_compute. discriminate.
  - reflexivity.
  - reflexivity.
  - reflexivity.
Defined.

(** X11: the result of a call decides the next call for the same package
    name, by whichever unit: after a call that returned, the next one returns
    false and changes nothing; after a call that raised, the package is Failed
    and the next call transfers again, returning true when that transfer
    returns. *)
Theorem outcome_decides_the_next_call env self other w r w' :
  name (package other) = name (package self) ->
  download_source_package env self w = (r, w') ->
  (forall b, r = Returned b -> download_source_package env other w' = (Returned false, w'))
  /\ (forall e, r = Raised e ->
        source_state w' !! name (package self) = Some Failed
        /\ forall w'',
             transfer env other (set_state other InProgress w') = (Returned tt, w'') ->
             download_source_package env other w'
             = (Returned true, set_state other Downloaded w'')).
Proof.
  intros Hname Hcall.
  assert (forall st, (exists w0, w' = set_state self st w0)
                     \/ (source_state w' !! name (package self) = Some st) ->
                     source_state w' !! name (package other) = Some st) as Hstate.
  { intros st [[w0 ->]|H]; rewrite Hname; [apply state_after_set|exact H]. }
  unfold download_source_package in Hcall.
  destruct (source_state w !! name (package self)) as [[]|] eqn:Hst.
  - injection Hcall as <- <-. split; intros; discriminate.
  - injection Hcall as <- <-. split; [|intros; discriminate].
    intros b _. unfold download_source_package. now rewrite Hname, Hst.
  - destruct (transfer env self (set_state self InProgress w)) as [[[]|e0|] w1];
      injection Hcall as <- <-; (split; [intros b Hb|intros e1 He]); try discriminate.
    + unfold download_source_package. now rewrite (Hstate Downloaded) by eauto.
    + split; [apply state_after_set|]. intros w'' Ht.
      unfold download_source_package. rewrite (Hstate Failed) by eauto. now rewrite Ht.
  - destruct (transfer env self (set_state self InProgress w)) as [[[]|e0|] w1];
      injection Hcall as <- <-; (split; [intros b Hb|intros e1 He]); try discriminate.
    + unfold download_source_package. now rewrite (Hstate Downloaded) by eauto.
    + split; [apply state_after_set|]. intros w'' Ht.
      unfold download_source_package. rewrite (Hstate Failed) by eauto. now rewrite Ht.
Qed.

Lemma outcome_decides_the_next_call_witness :
  download_source_package Scenario.env_ok Scenario.unit2
    (snd (download_source_package Scenario.env_ok Scenario.unit1 Scenario.w1))
  = (Returned false, snd (download_source_package Scenario.env_ok Scenario.unit1 Scenario.w1)).
Proof.
  destruct (outcome_decides_the_next_call Scenario.env_ok Scenario.unit1 Scenario.unit2
              Scenario.w1
              (fst (download_source_package Scenario.env_ok Scenario.unit1 Scenario.w1))
              (snd (download_source_package Scenario.env_ok Scenario.unit1 Scenario.w1)))
    as [Hret _].
  - reflexivity.
  - now destruct (download_source_package Scenario.env_ok Scenario.unit1 Scenario.w1).
  - apply (Hret true). vm_compute. reflexivity.
Defined.

(** *** What the read loop consumes *)

Lemma read_loop_stops_early url content_length reads :
  forall total_read written r data,
    read_loop url content_length total_read reads written = (r, data) ->
    exists k,
      data = written ++ concat (take k reads)
      /\ (forall j, (j < k)%nat -> total_read + bytes_in (take j reads) < content_length)
      /\ ((r = Returned tt /\ content_length <= total_read + bytes_in (take k reads))
          \/ (r = Raised (TransferError url (total_read + bytes_in (take k reads))
                            content_length)
              /\ total_read + bytes_in (take k reads) < content_length)).
Proof.
  induction reads as [|buffer reads IH]; intros total_read written r data; cbn [read_loop].
  - destruct (total_read <? content_length) eqn:Hlt; intros [= <- <-]; exists 0%nat;
      unfold bytes_in; simpl; rewrite app_nil_r, Z.add_0_r;
      (split; [reflexivity|]); (split; [intros j Hj; lia|]).
    + right. split; [reflexivity|]. now apply Z.ltb_lt.
    + left. split; [reflexivity|]. now apply Z.ltb_ge.
  - destruct (total_read <? content_length) eqn:Hlt.
    + apply Z.ltb_lt in Hlt. destruct (Z.of_nat (length buffer) =? 0) eqn:Hz.
      * intros [= <- <-]. exists 0%nat. unfold bytes_in. simpl.
        rewrite app_nil_r, Z.add_0_r. split; [reflexivity|].
        split; [intros j Hj; lia|]. right. now split.
      * rewrite take_whole_buffer.
        assert ((if Z.of_nat (length buffer) <? READ_BUFFER_SIZE
                 then written ++ buffer else written ++ buffer)
                = written ++ buffer) as ->
          by (destruct (Z.of_nat (length buffer) <? READ_BUFFER_SIZE); reflexivity).
        intros H. destruct (IH _ _ _ _ H) as (k & -> & Hless & Hk).
        exists (S k). unfold bytes_in in *. cbn [take concat].
        rewrite <- app_assoc. split; [reflexivity|].
        split.
        -- intros [|j] Hj; cbn [take concat].
           ++ simpl. lia.
           ++ specialize (Hless j ltac:(lia)). rewrite length_app, Nat2Z.inj_add. lia.
        -- rewrite length_app, Nat2Z.inj_add. rewrite <- !Z.add_assoc in Hk. exact Hk.
    + intros [= <- <-]. exists 0%nat. unfold bytes_in. simpl.
      rewrite app_nil_r, Z.add_0_r. split; [reflexivity|].
      split; [intros j Hj; lia|]. left. split; [reflexivity|]. now apply Z.ltb_ge.
Qed.

(** X12: once the archive is open and the length is declared, the archive
    ends up holding the chunks read, in order and nothing else: a prefix of
    what the server sends, cut after the first chunk that reaches the declared
    length.  The call returns true when the length is reached; otherwise it
    raises the transfer error with the number of bytes read, the package is
    Failed and the partial archive stays on disk. *)
Theorem archive_holds_the_chunks_read env self w url req archive n r w' :
  may_claim self w -> package_dir_ready self w ->
  resolved_download_url (host env) (package self) = Returned url ->
  urlopen env (requests w) url = Returned req ->
  source_archive_path env self = Returned archive ->
  can_open self archive w ->
  content_length_header req = HeaderInt n ->
  download_source_package env self w = (r, w') ->
  exists k d,
    fs w' !! archive = Some (File d (concat (take k (reads req))))
    /\ (forall j, (j < k)%nat -> bytes_in (take j (reads req)) < n)
    /\ ((r = Returned true /\ n <= bytes_in (take k (reads req))
         /\ source_state w' !! name (package self) = Some Downloaded)
        \/ (r = Raised (TransferError url (bytes_in (take k (reads req))) n)
            /\ bytes_in (take k (reads req)) < n
            /\ source_state w' !! name (package self) = Some Failed)).
Proof.
  intros Hclaim Hready Hurl Hopen Hpath Hcan Hlen.
  destruct (claimed_transfer env self w url Hclaim Hready Hurl) as (w1 & Hstep & ->).
  destruct (can_open_after_dir self archive (set_state self InProgress w) w1 Hcan Hstep)
    as [d Hwrite].
  destruct Hstep as (_ & _ & _ & _ & _ & Hreq).
  change (requests (set_state self InProgress w)) with (requests w) in Hreq.
  unfold transfer_from. rewrite Hreq, Hopen, Hpath, Hwrite, Hlen. cbn [content_length_of].
  destruct (read_loop url n 0 (reads req) []) as [r0 data] eqn:Hloop.
  destruct (read_loop_stops_early _ _ _ _ _ _ _ Hloop) as (k & -> & Hless & Hk).
  cbn [app] in *.
  unfold write_file at 1. rewrite lookup_insert_eq, insert_insert_eq.
  intros Hcall. exists k, d.
  destruct Hk as [[-> Hge]|[-> Hlt]]; injection Hcall as <- <-.
  - split; [apply lookup_insert_eq|]. split; [exact Hless|].
    left. split; [reflexivity|]. split; [lia|apply state_after_set].
  - split; [apply lookup_insert_eq|]. split; [exact Hless|].
    right. split; [reflexivity|]. split; [lia|apply state_after_set].
Qed.

Lemma archive_holds_the_chunks_read_witness :
  exists k d,
    fs (snd (download_source_package Scenario.env_short Scenario.unit1 Scenario.w1))
      !! ["work"; "packages"; "foo"; "foo-1.0.tar.gz"]%string
    = Some (File d (concat (take k [repeat "x"%char 999])))
    /\ (forall j, (j < k)%nat -> bytes_in (take j [repeat "x"%char 999]) < 1000)
    /\ ((fst (download_source_package Scenario.env_short Scenario.unit1 Scenario.w1)
         = Returned true
         /\ 1000 <= bytes_in (take k [repeat "x"%char 999])
         /\ source_state (snd (download_source_package Scenario.env_short Scenario.unit1
                                 Scenario.w1)) !! "foo"%string = Some Downloaded)
        \/ (fst (download_source_package Scenario.env_short Scenario.unit1 Scenario.w1)
            = Raised (TransferError "http://x/foo-1.0.tar.gz"
                        (bytes_in (take k [repeat "x"%char 999])) 1000)
            /\ bytes_in (take k [repeat "x"%char 999]) < 1000
            /\ source_state (snd (download_source_package Scenario.env_short Scenario.unit1
                                    Scenario.w1)) !! "foo"%string = Some Failed)).
Proof.
  apply (archive_holds_the_chunks_read Scenario.env_short Scenario.unit1 Scenario.w1
           "http://x/foo-1.0.tar.gz"
           {| content_length_header := HeaderInt 1000; reads := [repeat "x"%char 999] |}).
  - left. reflexivity.
  - left. vm_compute. eauto.
  - reflexivity.
  - reflexivity.
  - reflexivity.
  - right. vm_compute. repeat split; discriminate.
  - reflexivity.
  - now destruct (download_source_package Scenario.env_short Scenario.unit1 Scenario.w1).
Defined.

End DownloadFacts.

(** ** More on build and export: what the error handlers log *)
Module BackendFacts.

Import Descriptors FileSystem Process Download BuildUnit BuildUnitFacts.

(** The line logged for a text: the payload of the pattern on it. *)
Definition stripped (text : string) : string :=
  string_of_list_ascii (LogStrip.normalized (list_ascii_of_string text)).

(** The lines of a field of a build-log entry, which may be absent. *)
Definition optional_line (text : option string) : list string :=
  match text with
  | Some t => [stripped t]
  | None => []
  end.


Definition build_error_lines (e : exn) : list string :=
  match e with
  | BuildError build_log =>
      flat_map (fun entry => optional_line (fst entry) ++ optional_line (snd entry)) build_log
  | _ => []
  end.


(** The state with [lines] more diagnostics and nothing else changed. *)
Definition logs (lines : list string) (s s' : PackageBuild * World) : Prop :=
  fst s' = fst s /\ fs (snd s') = fs (snd s)
  /\ source_state (snd s') = source_state (snd s)
  /\ requests (snd s') = requests (snd s)
  /\ docker_calls (snd s') = docker_calls (snd s)
  /\ diagnostics (snd s') = diagnostics (snd s) ++ lines.

Lemma logs_nothing s : logs [] s s.
Proof. unfold logs. rewrite app_nil_r. now repeat split. Qed.

Lemma logs_app l1 l2 s1 s2 s3 : logs l1 s1 s2 -> logs l2 s2 s3 -> logs (l1 ++ l2) s1 s3.
Proof.
  intros (A1 & B1 & C1 & D1 & E1 & F1) (A2 & B2 & C2 & D2 & E2 & F2).
  unfold logs. rewrite app_assoc, <- F1. repeat split; congruence.
Qed.

Lemma log_strip_stripped text : LogStrip.log_strip text = Some (stripped text).
Proof.
  unfold LogStrip.log_strip. now rewrite LogStrip.log_strip_chars_normalized.
Qed.

Lemma log_stripped_logs text s :
  exists s', log_stripped text s = (Returned tt, s') /\ logs [stripped text] s s'.
Proof.
  unfold log_stripped. rewrite log_strip_stripped. unfold on_world. cbn [fst snd].
  eexists. split; [reflexivity|]. now repeat split.
Qed.

Lemma log_optional_logs text s :
  exists s', log_optional text s = (Returned tt, s') /\ logs (optional_line text) s s'.
Proof.
  destruct text as [t|]; [apply log_stripped_logs|].
  exists s. split; [reflexivity|apply logs_nothing].
Qed.


Lemma on_build_error_logs e s :
  exists s', on_build_error e s = (Raised e, s') /\ logs (build_error_lines e) s s'.
Proof.
  assert (forall s, exists s', lift (S := PackageBuild * World) (A := unit) (Raised e) s
                               = (Raised e, s') /\ logs [] s s') as Hlift
    by (intros s0; exists s0; split; [reflexivity|apply logs_nothing]).
  destruct e; try apply Hlift.
  unfold on_build_error, build_error_lines. unfold bind at 1.
  assert (exists s',
            for_each build_log (fun log_entry =>
              bind (log_optional (fst log_entry)) (fun _ => log_optional (snd log_entry))) s
            = (Returned tt, s')
            /\ logs (flat_map (fun entry => optional_line (fst entry)
                                             ++ optional_line (snd entry)) build_log) s s')
    as (s1 & -> & Hs1).
  { clear Hlift. revert s. induction build_log as [|entry rest IH]; intros s.
    - exists s. split; [reflexivity|apply logs_nothing].
    - cbn [for_each flat_map]. unfold bind at 1. unfold bind at 1.
      destruct (log_optional_logs (fst entry) s) as (s1 & -> & H1).
      destruct (log_optional_logs (snd entry) s1) as (s2 & -> & H2).
      destruct (IH s2) as (s3 & -> & H3).
      exists s3. split; [reflexivity|].
      eapply logs_app; [|exact H3]. eapply logs_app; eauto. }
  exists s1. split; [reflexivity|exact Hs1].
Qed.


(** X13: when the backend fails to build, the unit raises the backend's
    own error, never the error of the handler's assertions: a build error has
    the stream text and the error detail of every entry of its log logged, in
    order, each reduced to its payload; any other error logs nothing.  The
    call is recorded, and the unit, the files and the download states are as
    before. *)
Theorem failed_build_is_logged_and_raised_again env self w args e :
  staged self = true -> buildargs env self = Returned args ->
  images_build env (docker_calls w) (build_call self args) = Raised e ->
  exists w',
    build env (self, w) = (Raised e, (self, w'))
    /\ diagnostics w' = diagnostics w ++ build_error_lines e
    /\ docker_calls w' = docker_calls w ++ [build_call self args]
    /\ fs w' = fs w /\ source_state w' = source_state w /\ requests w' = requests w.
Proof.
  intros Hs Ha Hb. unfold build, bind, get_self, lift. cbn [fst snd].
  rewrite Hs, Ha. cbn [negb fst snd]. fold (build_call self args). rewrite Hb.
  destruct (on_build_error_logs e (self, with_docker_call w (build_call self args)))
    as ([self' w'] & -> & Hself & Hfs & Hst & Hreq & Hcalls & Hdiag).
  cbn [fst snd] in *. subst self'. exists w'. repeat split; assumption.
Qed.

(** A backend whose build fails at the third step. *)
Definition step_3_log : list (option string * option string) :=
  [(Some LogStrip.step_3_failed_raw, None); (None, Some "exit code 2"%string)].

Definition env_build_fails : Env :=
  {| host := linux_host; cwd := ["work"%string];
     urlopen := urlopen Scenario.env_ok;
     images_build := fun _ _ => Raised (BuildError step_3_log);
     containers_run := Scenario.run_ok |}.

Definition staged_unit : PackageBuild := set_staged Scenario.unit1 true.

Definition unit1_args : gmap string string :=
  list_to_map
    [("ARCH", "x86_64"); ("OS_NAME", "amzn1"); ("PACKAGE", "foo"); ("REGION", "us-west-2");
     ("REL", "0"); ("SOURCE_ARCHIVE", "foo-1.0.tar.gz"); ("VERSION", "1.0")]%string.

Lemma failed_build_is_logged_and_raised_again_witness :
  exists w',
    build env_build_fails (staged_unit, Scenario.w1)
    = (Raised (BuildError step_3_log), (staged_unit, w'))
    /\ diagnostics w' = ["step 3 failed"; "exit code 2"]%string
    /\ docker_calls w' = [build_call staged_unit unit1_args]
    /\ fs w' = fs Scenario.w1 /\ source_state w' = source_state Scenario.w1
    /\ requests w' = requests Scenario.w1.
Proof.
  apply (failed_build_is_logged_and_raised_again env_build_fails staged_unit Scenario.w1
           unit1_args (BuildError step_3_log)); reflexivity.
Defined.





(** *** From staging to export *)

Lemma staged_unit_has_buildargs env self w self1 w1 :
  stage_files env (self, w) = (Returned tt, (self1, w1)) ->
  self1 = set_staged self true /\ docker_calls w1 = docker_calls w
  /\ exists args, buildargs env self1 = Returned args.
Proof.
  intros H.
  pose proof (keeps_stage_files env _ _ _ H) as [[Hcalls _] _]. cbn [fst snd] in Hcalls.
  destruct (stage_files_cases _ _ _ _ _ _ H)
    as [(_ & -> & copy & wd & ww & Hsteps)|(Hne & _)]; [|now destruct Hne].
  split; [reflexivity|]. split; [exact Hcalls|].
  destruct Hsteps as (b & archive & target & w3 & _ & _ & _ & Ha & _).
  unfold source_archive_path in Ha. unfold buildargs. cbn [package set_staged].
  destruct (source_archive_name (host env) (package self)); simplify_eq. eauto.
Qed.

(** X15: a unit that has staged can always work out its build arguments,
    the archive name having been resolved for the download; so its build goes
    to the backend with the staged Dockerfile and the build directory as
    context, and when the backend returns an image and the container then runs,
    the export has run that very image on the destination: two backend calls
    in all, in this order. *)
Theorem staged_unit_builds_and_exports env self w self1 w1 :
  stage_files env (self, w) = (Returned tt, (self1, w1)) ->
  exists args,
    buildargs env self1 = Returned args
    /\ forall img build_logs,
         images_build env (docker_calls w) (build_call self1 args)
         = Returned (img, build_logs) ->
         exists w2,
           build env (self1, w1) = (Returned tt, (set_image self1 (Some img), w2))
           /\ forall dest_root logs,
                containers_run env (docker_calls w ++ [build_call self1 args])
                  (ContainersRun (image_id img) dest_root) = Returned logs ->
                exists w3,
                  export env dest_root (set_image self1 (Some img), w2)
                  = (Returned tt, (set_image self1 (Some img), w3))
                  /\ docker_calls w3
                     = docker_calls w
                       ++ [build_call self1 args; ContainersRun (image_id img) dest_root].
Proof.
  intros H. destruct (staged_unit_has_buildargs _ _ _ _ _ H) as (-> & Hcalls & args & Ha).
  exists args. split; [exact Ha|]. intros img build_logs Hb.
  destruct (build_staged env (set_staged self true) w1 args eq_refl Ha)
    as (r & self2 & w2 & Hbuild & Hcalls2 & Hres).
  rewrite Hcalls, Hb in Hres. destruct Hres as [-> ->].
  exists w2. split; [exact Hbuild|]. intros dest_root logs Hr.
  destruct (export_with_image env dest_root (set_image (set_staged self true) (Some img)) w2 img
              eq_refl) as (r & w3 & Hexport & Hcalls3 & Hres).
  rewrite Hcalls2, Hcalls, Hr in Hres. subst r.
  exists w3. split; [exact Hexport|].
  rewrite Hcalls3, Hcalls2, Hcalls, <- app_assoc. reflexivity.
Qed.

Lemma staged_unit_builds_and_exports_witness :
  exists args,
    buildargs Scenario.env_ok (fst (snd StagingFacts.scenario_staged)) = Returned args
    /\ forall img build_logs,
         images_build Scenario.env_ok (docker_calls Scenario.w1)
           (build_call (fst (snd StagingFacts.scenario_staged)) args)
         = Returned (img, build_logs) ->
         exists w2,
           build Scenario.env_ok
             (fst (snd StagingFacts.scenario_staged), snd (snd StagingFacts.scenario_staged))
           = (Returned tt, (set_image (fst (snd StagingFacts.scenario_staged)) (Some img), w2))
           /\ forall dest_root logs,
                containers_run Scenario.env_ok
                  (docker_calls Scenario.w1
                   ++ [build_call (fst (snd StagingFacts.scenario_staged)) args])
                  (ContainersRun (image_id img) dest_root) = Returned logs ->
                exists w3,
                  export Scenario.env_ok dest_root
                    (set_image (fst (snd StagingFacts.scenario_staged)) (Some img), w2)
                  = (Returned tt,
                     (set_image (fst (snd StagingFacts.scenario_staged)) (Some img), w3))
                  /\ docker_calls w3
                     = docker_calls Scenario.w1
                       ++ [build_call (fst (snd StagingFacts.scenario_staged)) args;
                           ContainersRun (image_id img) dest_root].
Proof.
  apply (staged_unit_builds_and_exports Scenario.env_ok Scenario.unit1 Scenario.w1).
  apply (StagingFacts.returned_pair StagingFacts.scenario_staged). vm_compute. reflexivity.
Defined.

End BackendFacts.

(** ** More on staging: what it leaves alone *)
Module StagingFrame.

Import PyStr Descriptors FileSystem Process Download BuildUnit BuildUnitFacts StagingFacts.
Import DescriptorFacts.





Lemma write_file_inserts p data fs fs' :
  write_file p data fs = Returned fs' -> exists d, fs' = <[p := File d data]> fs.
Proof.
  unfold write_file. intros H. repeat (case_match; simplify_eq); eauto.
Qed.










(** On the state of a unit: what holds of the worlds. *)
Definition on_fs (P : World -> World -> Prop) (s s' : PackageBuild * World) : Prop :=
  P (snd s) (snd s').

Lemma keeps_on_fs {A} (P : World -> World -> Prop) (m : M World A) :
  keeps P m -> keeps (on_fs P) (on_world m).
Proof.
  intros Hm [self w] r [self' w']. unfold on_world, on_fs. cbn [fst snd].
  destruct (m w) as [r0 w0] eqn:H. intros [= <- <- <-]. eapply Hm, H.
Qed.




End StagingFrame.

(** ** Cleaning up: the destructor of a build unit *)
Module Cleanup.

Import PyStr Descriptors FileSystem Process Download BuildUnit BuildUnitFacts StagingFacts.
Import StagingFrame.







(** *** A unit from its construction to its end *)








End Cleanup.

(** ** The program: main *)
Module Main.

Import PyStr Descriptors FileSystem Process Download BuildUnit BuildUnitFacts.
Local Open Scope Z_scope.
Local Open Scope list_scope.

(** What [main] meets beside the environment of a unit: the YAML parser,
    whose result is taken as the list of the manifest's mappings, each with
    its Dependencies apart, and the names [mkdtemp] picks, one for each call
    of the process in order. *)
Record Setup := {
  safe_load : list ascii
              -> outcome (list (gmap string string * option (gmap string string)));
  mkdtemp : nat -> string
}.

(** The state [main] runs on: the number of [mkdtemp] calls so far and the
    world. *)
Definition in_process {A} (m : M World A) : M (nat * World) A :=
  fun s =>
    match m (snd s) with
    | (r, w') => (r, (fst s, w'))
    end.

(** [open(p, "r")] and the text read from it. *)
Definition read_text (p : list string) (fs : gmap (list string) node)
    : outcome (list ascii) :=
  match fs !! p with
  | Some (File _ data) => Returned data
  | Some (Dir _) => Raised (IsADirectoryError p)
  | None => Raised (FileNotFoundError p)
  end.

(** [if not exists(p): mkdir(p)] *)
Definition ensure_dir (p : list string) : M World unit :=
  let! fs0 := get_fs in
  if exists_ fs0 p then ret tt else fs_call (mkdir p).

(** The loop that fills [packages]: the entries in order, up to the first
    one that lacks a key. *)
Fixpoint packages_of (package_infos : list (gmap string string * option (gmap string string)))
    : outcome (list Package) :=
  match package_infos with
  | [] => Returned []
  | package_info :: rest =>
      match from_yaml_config (fst package_info) (snd package_info) with
      | Returned package =>
          match packages_of rest with
          | Returned packages => Returned (package :: packages)
          | Raised e => Raised e
          | Blocked => Blocked
          end
      | Raised e => Raised e
      | Blocked => Blocked
      end
  end.

(** The block that reads [packages.yaml]. *)
Definition load_packages (env : Env) (setup : Setup) : M World (list Package) :=
  let! fs0 := get_fs in
  let! text := lift (read_text (path_join (cwd env) "packages.yaml") fs0) in
  let! package_infos := lift (safe_load setup text) in
  lift (packages_of package_infos).

(** The members of [Platform] in the order of iteration, that of their
    definition. *)
Definition all_platforms : list Platform :=
  [amzn1_x86_64; amzn2_x86_64; el7_x86_64; ubuntu_1604_x86_64; ubuntu_1804_x86_64;
   ubuntu_1810_x86_64; ubuntu_1904_x86_64].

(** The three calls on a unit. *)
Definition stage_build_export (env : Env) (dest_root : list string)
    : M (PackageBuild * World) unit :=
  let! _ := stage_files env in
  let! _ := build env in
  export env dest_root.

(** The body of the two loops: a unit is made, keeping its build directory,
    then staged, built and exported.  The object is dropped when the next
    one is bound; its destructor does nothing, the directory being kept. *)
Definition build_package (env : Env) (setup : Setup)
    (build_root package_root dist_root : list string)
    (platform : Platform) (package : Package) : M (nat * World) unit :=
  fun s =>
    match init env package platform build_root package_root false
            (mkdtemp setup (fst s)) (snd s) with
    | (Returned pb, w1) =>
        match stage_build_export env (path_join dist_root (os_name platform)) (pb, w1) with
        | (r, s2) => (r, (S (fst s), snd s2))
        end
    | (Raised e, w1) => (Raised e, (S (fst s), w1))
    | (Blocked, w1) => (Blocked, (S (fst s), w1))
    end.

(** [main]; its argument is not used, and the set-up of the logging and the
    debug lines are left out. *)
Definition main (env : Env) (setup : Setup) : M (nat * World) Z :=
  let package_root := path_join (cwd env) "./packages" in
  let build_root := path_join (cwd env) "./builds" in
  let dist_root := path_join (cwd env) "./dist" in
  let! _ := in_process (ensure_dir build_root) in
  let! _ := in_process (ensure_dir package_root) in
  let! _ := in_process (ensure_dir dist_root) in
  let! packages := in_process (load_packages env setup) in
  let! _ := for_each all_platforms (fun platform =>
              for_each packages (fun package =>
                build_package env setup build_root package_root dist_root
                  platform package)) in
  ret 0.

(** *** The paths of [main] *)

Lemma roots env :
  path_join (cwd env) "./packages" = cwd env ++ ["packages"%string]
  /\ path_join (cwd env) "./builds" = cwd env ++ ["builds"%string]
  /\ path_join (cwd env) "./dist" = cwd env ++ ["dist"%string]
  /\ path_join (cwd env) "packages.yaml" = cwd env ++ ["packages.yaml"%string].
Proof. repeat split. Qed.

Lemma export_root dist_root platform :
  path_join dist_root (os_name platform) = dist_root ++ [os_name platform].
Proof. now destruct platform. Qed.

(** *** What the steps leave alone *)

(** The download states and the requests are as they were. *)
Definition same_process (w w' : World) : Prop :=
  source_state w' = source_state w /\ requests w' = requests w.

Lemma same_process_refl w : same_process w w.
Proof. now split. Qed.

Lemma same_process_trans w1 w2 w3 :
  same_process w1 w2 -> same_process w2 w3 -> same_process w1 w3.
Proof. intros [? ?] [? ?]. split; congruence. Qed.

Lemma process_fs_call f : keeps same_process (fs_call f).
Proof.
  intros w r w'. unfold fs_call. destruct (f (fs w)); intros [= <- <-]; now split.
Qed.

Lemma process_get_fs : keeps same_process get_fs.
Proof. intros w r w' [= <- <-]. now split. Qed.

Ltac process_frames :=
  repeat first
    [ apply (keeps_bind same_process same_process_trans); [|intros ?]
    | apply (keeps_for_each same_process same_process_refl same_process_trans); intros ?
    | apply (keeps_ret same_process same_process_refl)
    | apply (keeps_lift same_process same_process_refl)
    | apply process_fs_call
    | apply process_get_fs
    | match goal with
      | |- keeps _ (if ?c then _ else _) => destruct c
      end ].

Lemma process_walk_copy fuel copy self src dir :
  keeps same_process (walk_copy fuel copy self src dir).
Proof.
  revert dir. induction fuel as [|fuel IH]; intros dir; cbn [walk_copy]; process_frames.
  apply IH.
Qed.

Lemma process_choose env self : keeps same_process (choose_copy_function env self).
Proof. unfold choose_copy_function. process_frames. Qed.

Lemma process_ensure_dir p : keeps same_process (ensure_dir p).
Proof. unfold ensure_dir. process_frames. Qed.

Lemma process_init env package platform build_root package_root flag suffix :
  keeps same_process (init env package platform build_root package_root flag suffix).
Proof. unfold init. process_frames. Qed.

(** *** The requests of a download *)

(** A transfer leaves the download states alone; it asks for the resolved
    URL once, or ends before asking. *)
Lemma transfer_requests env self w r w' :
  transfer env self w = (r, w') ->
  source_state w' = source_state w
  /\ ((exists url, resolved_download_url (host env) (package self) = Returned url
                   /\ requests w' = requests w ++ [url])
      \/ (requests w' = requests w /\ r <> Returned tt)).
Proof.
  unfold transfer, bind, get_fs, lift, ret, fs_call.
  intros H.
  repeat (case_match; simplify_eq); cbn;
    (split; [reflexivity|]); first [right; split; [reflexivity|discriminate] | left; eauto].
Qed.

(** The download states when every package seen is downloaded. *)
Definition all_downloaded (seen : gset string) : gmap string SourcePackageState :=
  gset_to_gmap Downloaded seen.

Lemma download_requests env self w r w' seen :
  source_state w = all_downloaded seen ->
  download_source_package env self w = (r, w') ->
  if decide (name (package self) ∈ seen) then w' = w
  else (exists url, resolved_download_url (host env) (package self) = Returned url
                    /\ requests w' = requests w ++ [url]
                    /\ (forall b, r = Returned b ->
                        source_state w' = all_downloaded ({[name (package self)]} ∪ seen)))
       \/ (requests w' = requests w /\ forall b, r <> Returned b).
Proof.
  intros Hseen. unfold download_source_package. rewrite Hseen. unfold all_downloaded.
  destruct (decide (name (package self) ∈ seen)) as [Hin|Hout].
  - rewrite (proj2 (lookup_gset_to_gmap_Some _ _ _ _) (conj Hin eq_refl)).
    now intros [= <- <-].
  - rewrite (proj2 (lookup_gset_to_gmap_None _ _ _) Hout).
    destruct (transfer env self _) as [[[]|e|] w1] eqn:Ht;
      apply transfer_requests in Ht as [Hst Hrq]; cbn in Hst, Hrq; intros [= <- <-]; cbn.
    + destruct Hrq as [(url & Hurl & Hrq)|[_ Hne]]; [|now destruct Hne].
      left. exists url. split; [exact Hurl|]. split; [exact Hrq|]. intros _ _.
      rewrite Hst, Hseen. unfold all_downloaded. rewrite insert_insert_eq.
      now rewrite gset_to_gmap_union_singleton.
    + destruct Hrq as [(url & Hurl & Hrq)|[Hrq _]].
      * left. exists url. split; [exact Hurl|]. split; [exact Hrq|]. discriminate.
      * right. split; [exact Hrq|discriminate].
    + destruct Hrq as [(url & Hurl & Hrq)|[Hrq _]].
      * left. exists url. split; [exact Hurl|]. split; [exact Hrq|]. discriminate.
      * right. split; [exact Hrq|discriminate].
Qed.

(** *** One unit *)

(** After its download a staging asks for nothing more. *)
Lemma stage_files_after_download env self w r s' :
  stage_files env (self, w) = (r, s') ->
  exists rd wd,
    download_source_package env self w = (rd, wd)
    /\ same_process wd (snd s')
    /\ (r = Returned tt -> exists b, rd = Returned b).
Proof.
  set (P := StagingFrame.on_fs same_process).
  assert (forall s, P s s) as Prefl by (intros s; apply same_process_refl).
  assert (forall s1 s2 s3, P s1 s2 -> P s2 s3 -> P s1 s3) as Ptrans
    by (intros s1 s2 s3; apply same_process_trans).
  intros H. unfold stage_files in H. unfold bind at 1 in H. unfold get_self at 1 in H.
  cbv beta iota in H. cbn [fst] in H.
  unfold bind at 1 in H. unfold on_world at 1 in H. cbn [fst snd] in H.
  destruct (download_source_package env self w) as [rd wd].
  exists rd, wd. split; [reflexivity|].
  destruct rd as [b|e|]; [|injection H as <- <-; split; [apply same_process_refl|discriminate]..].
  split; [|eauto].
  match type of H with
  | ?m _ = _ => enough (keeps P m) as K by exact (K _ _ _ H)
  end.
  clear H.
  repeat first
    [ apply (keeps_bind P Ptrans); [|intros ?]
    | apply (keeps_lift P Prefl)
    | apply StagingFrame.keeps_on_fs ].
  - apply process_choose.
  - apply process_get_fs.
  - apply process_walk_copy.
  - apply process_fs_call.
  - apply process_fs_call.
  - intros s0 r0 s0' [= <- <-]. apply same_process_refl.
Qed.

Lemma process_build env s r s' :
  build env s = (r, s') -> same_process (snd s) (snd s').
Proof.
  destruct s as [self w]. unfold build, bind, get_self, lift. cbn [fst snd].
  destruct (negb (staged self)); [intros [= <- <-]; apply same_process_refl|].
  destruct (buildargs env self) as [args| |]; try (intros [= <- <-]; apply same_process_refl).
  cbv beta iota zeta. cbn [fst snd].
  destruct (images_build env _ _) as [[img logs]|e|]; try (intros [= <- <-]; now split).
  destruct (on_build_error_raises e
              (self, with_docker_call w
                       (ImagesBuild (staged_dockerfile self) (build_dir self) true args)))
    as (s1 & -> & _ & _ & Hst & Hrq & _).
  intros [= <- <-]. now split.
Qed.

Lemma process_export env dest_root s r s' :
  export env dest_root s = (r, s') -> same_process (snd s) (snd s').
Proof.
  destruct s as [self w]. unfold export, bind, get_self, lift. cbn [fst snd].
  destruct (image self) as [img|]; [|intros [= <- <-]; apply same_process_refl].
  cbv beta iota zeta. cbn [fst snd].
  destruct (containers_run env _ _) as [logs|e|]; try (intros [= <- <-]; now split).
  destruct (on_container_error_raises e
              (self, with_docker_call w (ContainersRun (image_id img) dest_root)))
    as (s1 & -> & _ & _ & Hst & Hrq & _).
  intros [= <- <-]. now split.
Qed.

(** The three calls on a unit, taken apart. *)
Lemma stage_build_export_cases env dest_root s r s' :
  stage_build_export env dest_root s = (r, s') ->
  exists r1 s1,
    stage_files env s = (r1, s1)
    /\ same_process (snd s1) (snd s')
    /\ (r = Returned tt ->
        r1 = Returned tt
        /\ exists s2, build env s1 = (Returned tt, s2)
                      /\ export env dest_root s2 = (Returned tt, s')).
Proof.
  unfold stage_build_export, bind.
  destruct (stage_files env s) as [r1 s1]. intros H. exists r1, s1.
  split; [reflexivity|].
  destruct r1 as [[]|e|]; [|injection H as <- <-; split; [apply same_process_refl|discriminate]..].
  destruct (build env s1) as [r2 s2] eqn:Hb.
  pose proof (process_build _ _ _ _ Hb) as Hp2.
  destruct r2 as [[]|e|]; [|injection H as <- <-; split; [exact Hp2|discriminate]..].
  pose proof (process_export _ _ _ _ _ H) as Hp3.
  split; [eapply same_process_trans; eauto|].
  intros ->. split; [reflexivity|]. now exists s2.
Qed.

(** The requests of one unit, when every package recorded is downloaded:
    none for a package that is recorded; otherwise the resolved URL, once, or
    none when the unit fails before it asks. *)
Lemma build_package_requests env setup build_root package_root dist_root platform pkg
    s r s' seen :
  source_state (snd s) = all_downloaded seen ->
  build_package env setup build_root package_root dist_root platform pkg s = (r, s') ->
  if decide (name pkg ∈ seen) then same_process (snd s) (snd s')
  else (exists url, resolved_download_url (host env) pkg = Returned url
                    /\ requests (snd s') = requests (snd s) ++ [url]
                    /\ (r = Returned tt ->
                        source_state (snd s') = all_downloaded ({[name pkg]} ∪ seen)))
       \/ (requests (snd s') = requests (snd s) /\ r <> Returned tt).
Proof.
  intros Hseen. unfold build_package.
  destruct (init _ _ _ _ _ _ _ _) as [ri w1] eqn:Hinit.
  pose proof (process_init _ _ _ _ _ _ _ _ _ _ Hinit) as [Hst1 Hrq1].
  assert (forall pb, ri = Returned pb -> package pb = pkg) as Hpkg.
  { intros pb ->. unfold init, bind, ret, fs_call in Hinit.
    destruct (mkdir _ _); simplify_eq. reflexivity. }
  destruct ri as [pb|e|].
  2,3: intros [= <- <-]; cbn [snd]; destruct (decide _);
         [now split|right; split; [exact Hrq1|discriminate]].
  specialize (Hpkg pb eq_refl).
  destruct (stage_build_export env _ (pb, w1)) as [r0 s2] eqn:Hrun. intros [= <- <-].
  cbn [snd].
  destruct (stage_build_export_cases _ _ _ _ _ Hrun) as (r1 & s1 & Hstage & Hp & Hret).
  destruct (stage_files_after_download _ _ _ _ _ Hstage) as (rd & wd & Hd & Hp1 & Hret1).
  assert (same_process wd (snd s2)) as [Hst Hrq] by (eapply same_process_trans; eauto).
  assert (source_state w1 = all_downloaded seen) as Hseen1 by congruence.
  pose proof (download_requests _ _ _ _ _ _ Hseen1 Hd) as Hdl. rewrite Hpkg in Hdl.
  destruct (decide (name pkg ∈ seen)).
  - subst wd. split; congruence.
  - destruct Hdl as [(url & Hurl & Hrqd & Hstd)|[Hrqd Hne]].
    + left. exists url. split; [exact Hurl|].
      split; [congruence|]. intros ->.
      destruct (Hret eq_refl) as [-> _]. destruct (Hret1 eq_refl) as [b ->].
      rewrite Hst. now apply (Hstd b).
    + right. split; [congruence|]. intros ->.
      destruct (Hret eq_refl) as [-> _]. destruct (Hret1 eq_refl) as [b ->].
      now apply (Hne b).
Qed.

(** *** The two loops as one *)

(** The units of a run, in the order of the two loops. *)
Definition units (packages : list Package) : list (Platform * Package) :=
  list_prod all_platforms packages.

Lemma for_each_app {S A} (l1 l2 : list A) (body : A -> M S unit) s :
  for_each (l1 ++ l2) body s = bind (for_each l1 body) (fun _ => for_each l2 body) s.
Proof.
  revert s. induction l1 as [|a l1 IH]; intros s; [reflexivity|].
  cbn [app for_each]. unfold bind.
  destruct (body a s) as [[[]|e|] s1]; try reflexivity. now rewrite IH.
Qed.

Lemma for_each_map {S A B} (f : A -> B) (l : list A) (body : B -> M S unit) s :
  for_each (map f l) body s = for_each l (fun a => body (f a)) s.
Proof.
  revert s. induction l as [|a l IH]; intros s; [reflexivity|].
  cbn [map for_each]. unfold bind. destruct (body (f a) s) as [[[]|e|] s1]; try reflexivity.
  apply IH.
Qed.

Lemma for_each_nested {S A B} (l1 : list A) (l2 : list B) (body : A -> B -> M S unit) s :
  for_each l1 (fun a => for_each l2 (body a)) s
  = for_each (list_prod l1 l2) (fun u => body (fst u) (snd u)) s.
Proof.
  revert s. induction l1 as [|a l1 IH]; intros s; [reflexivity|].
  cbn [list_prod for_each]. rewrite for_each_app. unfold bind.
  rewrite for_each_map. cbn [fst snd].
  replace (for_each l2 (fun b => body a b) s) with (for_each l2 (body a) s) by reflexivity.
  destruct (for_each l2 (body a) s) as [[[]|e|] s1]; try reflexivity. apply IH.
Qed.

(** The packages whose name has not come before, in order. *)
Fixpoint first_of_each_name (seen : gset string) (packages : list Package) : list Package :=
  match packages with
  | [] => []
  | p :: rest =>
      if decide (name p ∈ seen) then first_of_each_name seen rest
      else p :: first_of_each_name ({[name p]} ∪ seen) rest
  end.

Definition names (packages : list Package) : gset string := list_to_set (name <$> packages).

Lemma names_cons p l : names (p :: l) = {[name p]} ∪ names l.
Proof. reflexivity. Qed.

Lemma first_of_each_name_app seen l1 l2 :
  first_of_each_name seen (l1 ++ l2)
  = first_of_each_name seen l1 ++ first_of_each_name (names l1 ∪ seen) l2.
Proof.
  revert seen. induction l1 as [|p l1 IH]; intros seen; cbn [app first_of_each_name].
  - change (names []) with (∅ : gset string). now rewrite (left_id_L ∅ (∪)).
  - assert ({[name p]} ∪ names l1 ∪ seen = names l1 ∪ ({[name p]} ∪ seen)) as E
      by (apply set_eq; intros x; rewrite !elem_of_union; tauto).
    rewrite names_cons, E.
    destruct (decide (name p ∈ seen)) as [Hin|Hout]; rewrite IH; cbn [app]; [|reflexivity].
    rewrite (subseteq_union_1_L {[name p]} seen); [reflexivity|].
    now apply singleton_subseteq_l.
Qed.

Lemma first_of_each_name_seen seen l :
  (forall p, p ∈ l -> name p ∈ seen) -> first_of_each_name seen l = [].
Proof.
  induction l as [|p l IH]; intros H; [reflexivity|]. cbn [first_of_each_name].
  destruct (decide (name p ∈ seen)) as [_|Hout].
  - apply IH. intros q Hq. apply H. now right.
  - destruct Hout. apply H. now left.
Qed.

Lemma first_of_each_name_fresh seen l p :
  p ∈ first_of_each_name seen l -> (name p ∉ seen) /\ (p ∈ l).
Proof.
  revert seen. induction l as [|q l IH]; intros seen; cbn [first_of_each_name].
  - intros H. inversion H.
  - destruct (decide (name q ∈ seen)) as [Hin|Hout].
    + intros H. destruct (IH _ H). split; [assumption|now right].
    + intros H. apply elem_of_cons in H as [->|H]; [split; [assumption|now left]|].
      destruct (IH _ H) as [Hn Hl]. split; [|now right].
      intros Hs. apply Hn. now apply elem_of_union_r.
Qed.

Lemma first_of_each_name_NoDup seen l : NoDup (name <$> first_of_each_name seen l).
Proof.
  revert seen. induction l as [|q l IH]; intros seen; cbn [first_of_each_name].
  - constructor.
  - destruct (decide (name q ∈ seen)); [apply IH|].
    cbn. constructor; [|apply IH].
    intros H. apply list_elem_of_fmap in H as (p & Hname & Hp).
    apply first_of_each_name_fresh in Hp as [Hp _]. apply Hp.
    rewrite <- Hname. now apply elem_of_union_l, elem_of_singleton.
Qed.

Lemma packages_of_units (platforms : list Platform) (packages : list Package) p :
  p ∈ map snd (list_prod platforms packages) -> p ∈ packages.
Proof.
  intros H. apply list_elem_of_fmap in H as ([a b] & -> & H).
  apply list_elem_of_In, in_prod_iff in H as [_ H]. now apply list_elem_of_In.
Qed.

Lemma first_of_each_name_rounds (platform : Platform) platforms packages :
  first_of_each_name ∅ (map snd (list_prod (platform :: platforms) packages))
  = first_of_each_name ∅ packages.
Proof.
  cbn [list_prod]. rewrite map_app, first_of_each_name_app, map_map. cbn [snd].
  rewrite map_id.
  rewrite (first_of_each_name_seen (names packages ∪ ∅)); [now rewrite app_nil_r|].
  intros p Hp. apply packages_of_units in Hp.
  unfold names. apply elem_of_union_l, elem_of_list_to_set, list_elem_of_fmap. eauto.
Qed.

Lemma first_of_each_name_units packages :
  first_of_each_name ∅ (map snd (units packages)) = first_of_each_name ∅ packages.
Proof. apply first_of_each_name_rounds. Qed.

(** *** The requests of the units in a row *)

Definition resolves (env : Env) (p : Package) (url : string) : Prop :=
  resolved_download_url (host env) p = Returned url.

Definition unit_body (env : Env) (setup : Setup)
    (build_root package_root dist_root : list string) (u : Platform * Package)
    : M (nat * World) unit :=
  build_package env setup build_root package_root dist_root (fst u) (snd u).

Lemma units_requests env setup build_root package_root dist_root us :
  forall seen s r s',
    source_state (snd s) = all_downloaded seen ->
    for_each us (unit_body env setup build_root package_root dist_root) s = (r, s') ->
    exists asked urls,
      requests (snd s') = requests (snd s) ++ urls
      /\ Forall2 (resolves env) asked urls
      /\ asked `prefix_of` first_of_each_name seen (map snd us)
      /\ (r = Returned tt -> asked = first_of_each_name seen (map snd us)).
Proof.
  induction us as [|[platform pkg] us IH]; intros seen s r s' Hseen.
  - intros [= <- <-]. exists [], []. rewrite app_nil_r.
    split; [reflexivity|]. split; [constructor|]. split; [apply prefix_nil|reflexivity].
  - cbn [for_each map snd first_of_each_name]. unfold bind.
    destruct (unit_body _ _ _ _ _ (platform, pkg) s) as [r1 s1] eqn:Hbody.
    unfold unit_body in Hbody. cbn [fst snd] in Hbody.
    pose proof (build_package_requests _ _ _ _ _ _ _ _ _ _ _ Hseen Hbody) as Hone.
    destruct (decide (name pkg ∈ seen)) as [Hin|Hout].
    + destruct Hone as [Hst Hrq].
      destruct r1 as [[]|e|].
      * intros Hrest. rewrite <- Hrq. apply (IH seen s1 r s'); [congruence|exact Hrest].
      * intros [= <- <-]. exists [], []. rewrite app_nil_r.
        split; [exact Hrq|]. split; [constructor|]. split; [apply prefix_nil|discriminate].
      * intros [= <- <-]. exists [], []. rewrite app_nil_r.
        split; [exact Hrq|]. split; [constructor|]. split; [apply prefix_nil|discriminate].
    + destruct Hone as [(url & Hurl & Hrq & Hst)|[Hrq Hne]].
      * destruct r1 as [[]|e|].
        -- intros Hrest.
           destruct (IH _ s1 r s' (Hst eq_refl) Hrest) as (asked & urls & Hrqs & Hall & Hpre & Hret).
           exists (pkg :: asked), (url :: urls).
           split; [rewrite Hrqs, Hrq, <- app_assoc; reflexivity|].
           split; [now constructor|].
           split; [now apply prefix_cons|]. intros Hr. now rewrite (Hret Hr).
        -- intros [= <- <-]. exists [pkg], [url].
           split; [exact Hrq|]. split; [repeat constructor; exact Hurl|].
           split; [apply prefix_cons, prefix_nil|discriminate].
        -- intros [= <- <-]. exists [pkg], [url].
           split; [exact Hrq|]. split; [repeat constructor; exact Hurl|].
           split; [apply prefix_cons, prefix_nil|discriminate].
      * destruct r1 as [[]|e|]; [now destruct Hne|..];
          intros [= <- <-]; exists [], []; rewrite app_nil_r;
          (split; [exact Hrq|]); (split; [constructor|]);
          (split; [apply prefix_nil|discriminate]).
Qed.

(** *** The start of [main] *)

(** The three directories, each made when it is not there. *)
Definition make_roots (env : Env) : M World unit :=
  let! _ := ensure_dir (cwd env ++ ["builds"%string]) in
  let! _ := ensure_dir (cwd env ++ ["packages"%string]) in
  ensure_dir (cwd env ++ ["dist"%string]).

Lemma main_steps env setup s :
  main env setup s
  = bind (in_process (make_roots env)) (fun _ =>
      bind (in_process (load_packages env setup)) (fun packages =>
        bind (for_each (units packages)
                (unit_body env setup (cwd env ++ ["builds"%string])
                   (cwd env ++ ["packages"%string]) (cwd env ++ ["dist"%string])))
             (fun _ => ret 0))) s.
Proof.
  unfold main, make_roots.
  change (path_join (cwd env) "./packages") with (cwd env ++ ["packages"%string]).
  change (path_join (cwd env) "./builds") with (cwd env ++ ["builds"%string]).
  change (path_join (cwd env) "./dist") with (cwd env ++ ["dist"%string]).
  cbv zeta. unfold bind, in_process. cbn [fst snd].
  destruct (ensure_dir (cwd env ++ ["builds"%string]) (snd s)) as [[[]|e|] w1];
    try reflexivity.
  cbv beta iota. cbn [fst snd].
  destruct (ensure_dir (cwd env ++ ["packages"%string]) w1) as [[[]|e|] w2];
    try reflexivity.
  cbv beta iota. cbn [fst snd].
  destruct (ensure_dir (cwd env ++ ["dist"%string]) w2) as [[[]|e|] w3];
    try reflexivity.
  cbv beta iota. cbn [fst snd].
  destruct (load_packages env setup w3) as [[packages|e|] w4]; try reflexivity.
  cbv beta iota. cbn [fst snd].
  exact (f_equal
           (fun x : outcome unit * (nat * World) =>
              match x with
              | (Returned _, s') => (Returned 0, s')
              | (Raised e, s') => (Raised e, s')
              | (Blocked, s') => (Blocked, s')
              end)
           (for_each_nested all_platforms packages
              (build_package env setup (cwd env ++ ["builds"%string])
                 (cwd env ++ ["packages"%string]) (cwd env ++ ["dist"%string]))
              (fst s, w4))).
Qed.

(** The manifest as [main] loads it when the files are those of [w]. *)
Definition manifest (env : Env) (setup : Setup) (w : World) : outcome (list Package) :=
  fst (load_packages env setup w).

Lemma load_packages_reads env setup w :
  load_packages env setup w = (manifest env setup w, w).
Proof.
  unfold manifest, load_packages, bind, get_fs, lift.
  destruct (read_text _ (fs w)) as [text| |]; try reflexivity.
  destruct (safe_load setup text) as [infos| |]; reflexivity.
Qed.

Lemma manifest_same env setup w w' :
  fs w' !! (cwd env ++ ["packages.yaml"%string]) = fs w !! (cwd env ++ ["packages.yaml"%string]) ->
  manifest env setup w' = manifest env setup w.
Proof.
  intros H. unfold manifest, load_packages, bind, get_fs, lift, read_text.
  change (path_join (cwd env) "packages.yaml") with (cwd env ++ ["packages.yaml"%string]).
  rewrite H. destruct (fs w !! _) as [[dev text|dev]|]; try reflexivity.
  destruct (safe_load setup text) as [infos| |]; reflexivity.
Qed.

(** The world with the directories [made] added where they were missing and
    nothing else changed. *)
Definition grown (made : list (list string)) (w w' : World) : Prop :=
  same_process w w' /\ same_backend w w'
  /\ fs w ⊆ fs w'
  /\ forall q, q ∉ made -> fs w' !! q = fs w !! q.

Lemma grown_refl made w : grown made w w.
Proof.
  split; [apply same_process_refl|]. split; [apply same_backend_refl|]. now split.
Qed.

Lemma grown_trans made w1 w2 w3 : grown made w1 w2 -> grown made w2 w3 -> grown made w1 w3.
Proof.
  intros (A1 & B1 & C1 & D1) (A2 & B2 & C2 & D2).
  split; [eapply same_process_trans; eauto|]. split; [eapply same_backend_trans; eauto|].
  split; [now transitivity (fs w2)|]. intros q Hq. now rewrite D2, D1.
Qed.

Lemma grown_ensure_dir made p : p ∈ made -> keeps (grown made) (ensure_dir p).
Proof.
  intros Hp w r w'. unfold ensure_dir, bind, get_fs, exists_, ret, fs_call, mkdir.
  case_bool_decide as Hex; [intros [= <- <-]; apply grown_refl|].
  destruct (fs w !! p) eqn:Hnone; [destruct Hex; eauto|].
  destruct (target_dir_dev (fs w) p) as [d| |]; intros [= <- <-]; try apply grown_refl.
  split; [now split|]. split; [now split|]. cbn.
  split; [now apply insert_subseteq|].
  intros q Hq. apply lookup_insert_ne. now intros <-.
Qed.

Definition root_paths (env : Env) : list (list string) :=
  [cwd env ++ ["builds"%string]; cwd env ++ ["packages"%string]; cwd env ++ ["dist"%string]].

Lemma grown_make_roots env : keeps (grown (root_paths env)) (make_roots env).
Proof.
  unfold make_roots.
  repeat (apply (keeps_bind _ (grown_trans _)); [|intros _]);
    apply grown_ensure_dir; unfold root_paths; rewrite !elem_of_cons; auto.
Qed.

Lemma manifest_not_a_root env : cwd env ++ ["packages.yaml"%string] ∉ root_paths env.
Proof.
  unfold root_paths. intros H.
  repeat (apply elem_of_cons in H as [H|H]; [apply app_inv_head in H; discriminate|]).
  inversion H.
Qed.


(** *** Runs on a small site *)

(** A working directory with the manifest, the tree of package foo and the
    recipes of all platforms, on one device. *)
Definition site_fs : gmap (list string) node :=
  list_to_map
    ([([], Dir 1); (["work"%string], Dir 1);
      (["work"; "packages.yaml"]%string, File 1 (Scenario.bytes "- Name: foo"));
      (["work"; "foo"]%string, Dir 1);
      (["work"; "foo"; "foo.spec"]%string, File 1 (Scenario.bytes "Name: foo"))]
     ++ map (fun platform =>
               (["work"%string; dockerfile_template platform],
                File 1 (Scenario.bytes "FROM base")))
          all_platforms).

Definition site : World :=
  {| fs := site_fs; source_state := ∅; requests := []; docker_calls := [];
     diagnostics := [] |}.

Definition entry (n v : string) : gmap string string * option (gmap string string) :=
  (list_to_map [("Name", n); ("Version", v);
                ("URL", "http://x/{Name}-{Version}.tar.gz")]%string, None).

Definition letters (n : nat) : string := String (ascii_of_nat (97 + n)) EmptyString.

(** The manifest with one package; with two versions of it; with an entry
    that has no URL after a good one. *)
Definition one_package : Setup :=
  {| safe_load := fun _ => Returned [entry "foo" "1.0"]; mkdtemp := letters |}.

Definition two_versions : Setup :=
  {| safe_load := fun _ => Returned [entry "foo" "1.0"; entry "foo" "2.0"];
     mkdtemp := letters |}.

Definition entry_without_url : Setup :=
  {| safe_load := fun _ =>
       Returned [entry "foo" "1.0";
                 (list_to_map [("Name", "bar"); ("Version", "2")]%string, None)];
     mkdtemp := letters |}.

Definition run_one : outcome Z * (nat * World) := main Scenario.env_ok one_package (O, site).

Definition run_two : outcome Z * (nat * World) := main Scenario.env_ok two_versions (O, site).

Lemma run_pair {A S} (x : outcome A * S) : x = (fst x, snd x).
Proof. now destruct x. Qed.

(** X19: in a run of [main] that starts with no download recorded, whatever
    its result, the URLs asked for are those of the manifest's packages in
    order, one for each name: an entry whose name has come before is never
    asked for, whatever its URL, and no platform after the first asks again.
    A run that returns has asked for the first entry of every name; one that
    fails has asked for the first of them up to where it failed. *)
Theorem each_package_name_is_requested_once env setup n w r s' packages :
  source_state w = ∅ ->
  manifest env setup w = Returned packages ->
  main env setup (n, w) = (r, s') ->
  exists asked urls,
    requests (snd s') = requests w ++ urls
    /\ Forall2 (fun p url => resolved_download_url (host env) p = Returned url) asked urls
    /\ asked `prefix_of` first_of_each_name ∅ packages
    /\ NoDup (name <$> asked)
    /\ (r = Returned 0 -> asked = first_of_each_name ∅ packages).
Proof.
  intros Hfresh Hmanifest. rewrite main_steps.
  assert (forall asked : list Package,
             asked `prefix_of` first_of_each_name ∅ packages -> NoDup (name <$> asked))
    as Hdup.
  { intros asked [k Hk]. pose proof (first_of_each_name_NoDup ∅ packages) as H.
    rewrite Hk, fmap_app in H. now apply NoDup_app in H as [H _]. }
  assert (forall w0, requests w0 = requests w ->
            exists asked urls : list _,
              requests w0 = requests w ++ urls
              /\ Forall2 (fun p url => resolved_download_url (host env) p = Returned url)
                   asked urls
              /\ asked `prefix_of` first_of_each_name ∅ packages
              /\ NoDup (name <$> asked)) as Hnone.
  { intros w0 H0. exists [], []. rewrite app_nil_r. split; [exact H0|].
    split; [constructor|]. split; [apply prefix_nil|constructor]. }
  unfold bind at 1. unfold in_process at 1. cbn [fst snd].
  destruct (make_roots env w) as [r0 w3] eqn:Hroots.
  apply grown_make_roots in Hroots as ([Hst Hrq] & _ & _ & Hframe).
  destruct r0 as [[]|e|].
  2,3: intros [= <- <-]; destruct (Hnone w3 Hrq) as (asked & urls & H1 & H2 & H3 & H4);
       exists asked, urls; repeat (split; [assumption|]); discriminate.
  unfold bind at 1. unfold in_process at 1. cbn [fst snd].
  rewrite load_packages_reads,
    (manifest_same env setup w w3 (Hframe _ (manifest_not_a_root env))), Hmanifest.
  unfold bind at 1.
  destruct (for_each _ _ (n, w3)) as [r1 s1] eqn:Hloop.
  assert (source_state (snd (n, w3)) = all_downloaded ∅) as Hseen.
  { cbn [snd]. rewrite Hst, Hfresh. unfold all_downloaded.
    now rewrite gset_to_gmap_empty. }
  destruct (units_requests _ _ _ _ _ _ _ _ _ _ Hseen Hloop)
    as (asked & urls & Hrqs & Hall & Hpre & Hret).
  rewrite first_of_each_name_units in Hpre, Hret. cbn [snd] in Hrqs.
  intros Hend. exists asked, urls.
  assert (snd s' = snd s1 /\ (r = Returned 0 -> r1 = Returned tt)) as [-> Hr].
  { destruct r1 as [[]|e|]; injection Hend as <- <-; (split; [reflexivity|]);
      [reflexivity|discriminate..]. }
  split; [now rewrite Hrqs, Hrq|]. split; [exact Hall|]. split; [exact Hpre|].
  split; [now apply Hdup|]. intros H. now apply Hret, Hr.
Qed.

Lemma each_package_name_is_requested_once_witness :
  exists asked urls,
    requests (snd (snd run_two)) = requests site ++ urls
    /\ Forall2 (fun p url => resolved_download_url (host Scenario.env_ok) p = Returned url)
         asked urls
    /\ asked `prefix_of`
         first_of_each_name ∅
           [Build_Package "foo" "1.0" "http://x/{Name}-{Version}.tar.gz" ∅;
            Build_Package "foo" "2.0" "http://x/{Name}-{Version}.tar.gz" ∅]
    /\ NoDup (name <$> asked)
    /\ (fst run_two = Returned 0 ->
        asked = first_of_each_name ∅
                  [Build_Package "foo" "1.0" "http://x/{Name}-{Version}.tar.gz" ∅;
                   Build_Package "foo" "2.0" "http://x/{Name}-{Version}.tar.gz" ∅]).
Proof.
  apply (each_package_name_is_requested_once Scenario.env_ok two_versions O site).
  - reflexivity.
  - vm_compute. reflexivity.
  - apply run_pair.
Defined.

(** *** The backend calls of a run that returns *)

(** The calls of one unit that went through: the build of its staged
    Dockerfile in its build directory, a new entry of the build root, with
    its build arguments, then the run of the image with the platform's
    directory under the export root. *)
Definition unit_calls (env : Env) (build_root dist_root : list string)
    (u : Platform * Package) (calls : list docker_call) : Prop :=
  exists self args img,
    package self = snd u /\ platform self = fst u
    /\ (exists entry, build_dir self = build_root ++ [entry])
    /\ buildargs env self = Returned args
    /\ calls = [build_call self args;
                ContainersRun (image_id img) (dist_root ++ [os_name (fst u)])].

Lemma init_unit env pkg plat build_root package_root flag suffix w self w1 :
  init env pkg plat build_root package_root flag suffix w = (Returned self, w1) ->
  package self = pkg /\ platform self = plat
  /\ (exists entry, build_dir self = build_root ++ [entry])
  /\ docker_calls w1 = docker_calls w.
Proof.
  unfold init, bind, ret, fs_call. destruct (mkdir _ (fs w)); intros H; simplify_eq.
  cbn. repeat split. eauto.
Qed.

Lemma build_package_calls env setup build_root package_root dist_root plat pkg s s' :
  build_package env setup build_root package_root dist_root plat pkg s
  = (Returned tt, s') ->
  fst s' = S (fst s)
  /\ exists calls,
       docker_calls (snd s') = docker_calls (snd s) ++ calls
       /\ unit_calls env build_root dist_root (plat, pkg) calls.
Proof.
  unfold build_package.
  destruct (init _ _ _ _ _ _ _ _) as [[pb|e|] w1] eqn:Hinit; try discriminate.
  destruct (stage_build_export env _ (pb, w1)) as [r0 s2] eqn:Hrun. intros [= -> <-].
  split; [reflexivity|]. cbn [snd].
  apply init_unit in Hinit as (Hpkg & Hplat & Hdir & Hcalls0).
  destruct (stage_build_export_cases _ _ _ _ _ Hrun) as (r1 & [self1 w1'] & Hstage & _ & Hret).
  destruct (Hret eq_refl) as (-> & [self2 w2] & Hbuild & Hexport).
  destruct (BackendFacts.staged_unit_has_buildargs _ _ _ _ _ Hstage)
    as (-> & Hcalls1 & args & Hargs).
  destruct (build_staged env (set_staged pb true) w1' args eq_refl Hargs)
    as (rb & self' & w' & Hb & Hcalls2 & Hres).
  rewrite Hbuild in Hb. injection Hb as <- <- <-.
  destruct (images_build env _ _) as [[img logs]|e|]; [|now destruct Hres..].
  destruct Hres as [_ ->].
  destruct (export_with_image env (path_join dist_root (os_name plat))
              (set_image (set_staged pb true) (Some img)) w2 img eq_refl)
    as (re & w3 & He & Hcalls3 & _).
  rewrite Hexport in He. injection He as <- ->. cbn [snd].
  exists [build_call (set_staged pb true) args;
          ContainersRun (image_id img) (dist_root ++ [os_name plat])].
  split.
  - rewrite Hcalls3, Hcalls2, Hcalls1, Hcalls0, export_root, <- app_assoc. reflexivity.
  - exists (set_staged pb true), args, img. cbn [fst snd set_staged package platform build_dir].
    repeat split; assumption.
Qed.

Lemma units_calls env setup build_root package_root dist_root us :
  forall s s',
    for_each us (unit_body env setup build_root package_root dist_root) s
    = (Returned tt, s') ->
    fst s' = (fst s + length us)%nat
    /\ exists chunks,
         docker_calls (snd s') = docker_calls (snd s) ++ concat chunks
         /\ Forall2 (unit_calls env build_root dist_root) us chunks.
Proof.
  induction us as [|[platform pkg] us IH]; intros s s'.
  - intros [= <-]. split; [cbn; lia|]. exists []. rewrite app_nil_r. now split.
  - cbn [for_each]. unfold bind.
    destruct (unit_body _ _ _ _ _ (platform, pkg) s) as [[[]|e|] s1] eqn:Hbody;
      try discriminate.
    unfold unit_body in Hbody. cbn [fst snd] in Hbody.
    apply build_package_calls in Hbody as (Hn & calls & Hcalls & Hunit).
    intros Hrest. destruct (IH _ _ Hrest) as (Hn' & chunks & Hcalls' & Hall).
    split; [rewrite Hn', Hn; cbn [length]; lia|].
    exists (calls :: chunks). split; [|now constructor].
    rewrite Hcalls', Hcalls, <- app_assoc. reflexivity.
Qed.

(** X20: a run of [main] that returns gives 0, and it has loaded the
    manifest, made one build directory for every platform and package, and
    asked the backend, for every platform in the order of the enumeration and
    within it for every package in the order of the manifest, for one build
    followed by one run that exports to the platform's directory under dist;
    it has asked for nothing else. *)
Theorem returned_run_has_built_every_unit env setup n w z s' :
  main env setup (n, w) = (Returned z, s') ->
  z = 0
  /\ exists packages chunks,
       manifest env setup w = Returned packages
       /\ fst s' = (n + 7 * length packages)%nat
       /\ docker_calls (snd s') = docker_calls w ++ concat chunks
       /\ Forall2 (unit_calls env (cwd env ++ ["builds"%string]) (cwd env ++ ["dist"%string]))
            (list_prod all_platforms packages) chunks.
Proof.
  rewrite main_steps.
  unfold bind at 1. unfold in_process at 1. cbn [fst snd].
  destruct (make_roots env w) as [r0 w3] eqn:Hroots.
  apply grown_make_roots in Hroots as (_ & [Hcalls _] & _ & Hframe).
  destruct r0 as [[]|e|]; try discriminate.
  unfold bind at 1. unfold in_process at 1. cbn [fst snd].
  rewrite load_packages_reads,
    (manifest_same env setup w w3 (Hframe _ (manifest_not_a_root env))).
  destruct (manifest env setup w) as [packages|e|]; try discriminate.
  unfold bind at 1.
  destruct (for_each _ _ (n, w3)) as [[[]|e|] s1] eqn:Hloop; try discriminate.
  intros [= <- <-]. split; [reflexivity|].
  apply units_calls in Hloop as (Hn & chunks & Hcalls' & Hall).
  exists packages, chunks. split; [reflexivity|].
  split.
  { rewrite Hn. cbn [fst]. unfold units. rewrite length_prod. reflexivity. }
  split; [|exact Hall]. rewrite Hcalls'. cbn [snd]. now rewrite Hcalls.
Qed.

Lemma returned_run_has_built_every_unit_witness :
  0 = 0
  /\ exists packages chunks,
       manifest Scenario.env_ok one_package site = Returned packages
       /\ fst (snd run_one) = (0 + 7 * length packages)%nat
       /\ docker_calls (snd (snd run_one)) = docker_calls site ++ concat chunks
       /\ Forall2 (unit_calls Scenario.env_ok ["work"; "builds"]%string
                     ["work"; "dist"]%string)
            (list_prod all_platforms packages) chunks.
Proof.
  apply (returned_run_has_built_every_unit Scenario.env_ok one_package O site 0
           (snd run_one)).
  transitivity (fst run_one, snd run_one); [apply run_pair|].
  apply (f_equal (fun r => (r, snd run_one))). vm_compute. reflexivity.
Defined.

(** X21: when the manifest cannot be loaded (no file, a text the parser
    refuses, an entry without one of its keys, even the last), [main] started
    in a directory raises that error and has done nothing but make the
    directories builds, packages and dist where they were missing: no unit is
    made, nothing is asked for, and every other path is as it was. *)
Theorem unloadable_manifest_stops_the_run env setup n w d e :
  fs w !! cwd env = Some (Dir d) ->
  manifest env setup w = Raised e ->
  exists w',
    main env setup (n, w) = (Raised e, (n, w'))
    /\ (forall root, root ∈ root_paths env -> is_Some (fs w' !! root))
    /\ fs w ⊆ fs w'
    /\ (forall q, q ∉ root_paths env -> fs w' !! q = fs w !! q)
    /\ requests w' = requests w /\ docker_calls w' = docker_calls w
    /\ source_state w' = source_state w.
Proof.
  intros Hcwd Hmanifest.
  assert (forall x w0, fs w0 !! cwd env = Some (Dir d) ->
            exists w1, ensure_dir (cwd env ++ [x]) w0 = (Returned tt, w1)
                       /\ is_Some (fs w1 !! (cwd env ++ [x]))) as Hstep.
  { intros x w0 H0. unfold ensure_dir, bind, get_fs, exists_, ret, fs_call, mkdir.
    case_bool_decide as Hex; [now exists w0|].
    destruct (fs w0 !! (cwd env ++ [x])) eqn:Hnone; [destruct Hex; eauto|].
    unfold target_dir_dev, parent. rewrite removelast_last, H0.
    destruct (cwd env ++ [x]) eqn:Hp; [now destruct (cwd env)|].
    eexists. split; [reflexivity|]. cbn. rewrite lookup_insert_eq. eauto. }
  assert (forall x w0 w1, x ∈ ["builds"; "packages"; "dist"]%string ->
            ensure_dir (cwd env ++ [x]) w0 = (Returned tt, w1) ->
            grown (root_paths env) w0 w1) as Hgrow.
  { intros x w0 w1 Hx H. eapply (grown_ensure_dir (root_paths env)); [|exact H].
    unfold root_paths. rewrite !elem_of_cons in Hx. rewrite !elem_of_cons.
    destruct Hx as [->|[->|[->|Hx]]]; auto. inversion Hx. }
  assert (forall w0 w1, grown (root_paths env) w0 w1 -> fs w0 !! cwd env = Some (Dir d) ->
            fs w1 !! cwd env = Some (Dir d)) as Hkeep.
  { intros w0 w1 (_ & _ & Hsub & _) H0. eapply lookup_weaken; eauto. }
  destruct (Hstep "builds"%string w Hcwd) as (w1 & H1 & S1).
  pose proof (Hgrow "builds"%string _ _ ltac:(rewrite !elem_of_cons; auto) H1) as G1.
  destruct (Hstep "packages"%string w1 (Hkeep _ _ G1 Hcwd)) as (w2 & H2 & S2).
  pose proof (Hgrow "packages"%string _ _ ltac:(rewrite !elem_of_cons; auto) H2) as G2.
  pose proof (grown_trans _ _ _ _ G1 G2) as G12.
  destruct (Hstep "dist"%string w2 (Hkeep _ _ G12 Hcwd)) as (w3 & H3 & S3).
  pose proof (Hgrow "dist"%string _ _ ltac:(rewrite !elem_of_cons; auto) H3) as G3.
  pose proof (grown_trans _ _ _ _ G12 G3) as G.
  exists w3. split.
  - rewrite main_steps. unfold bind at 1. unfold in_process at 1, make_roots, bind.
    cbn [fst snd]. rewrite H1, H2, H3. unfold in_process. cbn [fst snd].
    rewrite load_packages_reads.
    destruct G as (_ & _ & _ & Hframe).
    now rewrite (manifest_same env setup w w3 (Hframe _ (manifest_not_a_root env))),
      Hmanifest.
  - destruct G as ([Hst Hrq] & [Hcalls _] & Hsub & Hframe).
    split.
    { intros root Hroot. unfold root_paths in Hroot. rewrite !elem_of_cons in Hroot.
      destruct G3 as (_ & _ & Hsub3 & _). destruct G2 as (_ & _ & Hsub2 & _).
      destruct Hroot as [->|[->|[->|Hroot]]]; [| |exact S3|inversion Hroot].
      - destruct S1 as [x Hx]. exists x.
        eapply lookup_weaken; [|exact Hsub3]. eapply lookup_weaken; eauto.
      - destruct S2 as [x Hx]. exists x. eapply lookup_weaken; eauto. }
    repeat split; assumption.
Qed.

Lemma unloadable_manifest_stops_the_run_witness :
  exists w',
    main Scenario.env_ok entry_without_url (O, site) = (Raised (KeyError "URL"), (O, w'))
    /\ (forall root, root ∈ root_paths Scenario.env_ok -> is_Some (fs w' !! root))
    /\ fs site ⊆ fs w'
    /\ (forall q, q ∉ root_paths Scenario.env_ok -> fs w' !! q = fs site !! q)
    /\ requests w' = requests site /\ docker_calls w' = docker_calls site
    /\ source_state w' = source_state site.
Proof.
  apply (unloadable_manifest_stops_the_run Scenario.env_ok entry_without_url O site 1).
  - reflexivity.
  - vm_compute. reflexivity.
Defined.

End Main.

(** ** Staging a unit a second time *)
Module Restaging.

Import PyStr Descriptors FileSystem Process Download BuildUnit BuildUnitFacts StagingFacts.
Local Open Scope Z_scope.
Local Open Scope list_scope.

(** What is at [p] stays at [p], as it is or replaced. *)
Definition present (p : list string) (w w' : World) : Prop :=
  is_Some (fs w !! p) -> is_Some (fs w' !! p).

Lemma present_refl p w : present p w w.
Proof. now intros H. Qed.

Lemma present_trans p w1 w2 w3 : present p w1 w2 -> present p w2 w3 -> present p w1 w3.
Proof. unfold present. auto. Qed.

Lemma present_insert p f :
  (forall fs fs', f fs = Returned fs' -> exists t n, fs' = <[t := n]> fs) ->
  keeps (present p) (fs_call f).
Proof.
  intros Hf w r w'. unfold fs_call. destruct (f (fs w)) as [fs'| |] eqn:H;
    intros [= <- <-]; try apply present_refl.
  destruct (Hf _ _ H) as (t & n & ->). intros Hp. cbn.
  destruct (decide (t = p)) as [->|Hne].
  - rewrite lookup_insert_eq. eauto.
  - now rewrite lookup_insert_ne.
Qed.

Lemma present_copy p copy a t : keeps (present p) (fs_call (apply_copy copy a t)).
Proof.
  apply present_insert. intros fs1 fs2 H.
  apply apply_copy_writes in H as (x & n & ->). eauto.
Qed.

Lemma present_mkdir p t : keeps (present p) (fs_call (mkdir t)).
Proof.
  apply present_insert. intros fs1 fs2 H.
  apply mkdir_effect in H as (_ & d & ->). eauto.
Qed.

Lemma present_walk p copy self src fuel dir :
  keeps (present p) (walk_copy fuel copy self src dir).
Proof.
  revert dir. induction fuel as [|fuel IH]; intros dir; cbn [walk_copy].
  - apply (keeps_lift _ (present_refl p)).
  - apply (keeps_bind _ (present_trans p)); [intros w r w' [= <- <-]; apply present_refl|].
    intros fs0.
    apply (keeps_bind _ (present_trans p)).
    { apply (keeps_for_each _ (present_refl p) (present_trans p)). intros f.
      apply present_copy. }
    intros _. apply (keeps_bind _ (present_trans p)).
    { apply (keeps_for_each _ (present_refl p) (present_trans p)). intros d.
      apply present_mkdir. }
    intros _. apply (keeps_for_each _ (present_refl p) (present_trans p)). intros d.
    apply IH.
Qed.

(** A copy that returned has put something at its target. *)
Lemma apply_copy_target copy a t fs fs' :
  apply_copy copy a t fs = Returned fs' -> is_Some (fs' !! t).
Proof.
  destruct copy; cbn [apply_copy]; unfold link, copy2; intros H.
  - repeat (case_match; simplify_eq). rewrite lookup_insert_eq. eauto.
  - destruct (fs !! a) as [[d data|d]|]; try discriminate.
    destruct (fs !! t) as [[d0 old|d0]|] eqn:Ht.
    + case_bool_decide; [discriminate|].
      apply TransferFacts.write_file_lookup in H as (d' & ->). eauto.
    + destruct (last a) as [base|].
      * case_bool_decide; [discriminate|].
        apply StagingFrame.write_file_inserts in H as (d' & ->).
        destruct (decide (t ++ [base] = t)) as [->|Hne].
        -- rewrite lookup_insert_eq. eauto.
        -- rewrite lookup_insert_ne by exact Hne. rewrite Ht. eauto.
      * case_bool_decide; [discriminate|].
        apply TransferFacts.write_file_lookup in H as (d' & ->). eauto.
    + case_bool_decide; [discriminate|].
      apply TransferFacts.write_file_lookup in H as (d' & ->). eauto.
Qed.

(** A download that returned has recorded the package as downloaded. *)
Lemma download_returned env self w b w' :
  download_source_package env self w = (Returned b, w') ->
  source_state w' !! name (package self) = Some Downloaded.
Proof.
  unfold download_source_package.
  destruct (source_state w !! name (package self)) as [[]|] eqn:Hst.
  - discriminate.
  - now intros [= <- <-].
  - destruct (transfer env self _) as [[[]| |] w1]; intros H; simplify_eq.
    apply DownloadFacts.state_after_set.
  - destruct (transfer env self _) as [[[]| |] w1]; intros H; simplify_eq.
    apply DownloadFacts.state_after_set.
Qed.

(** X22: staging is not to be repeated where files are hard-linked.  Once
    a staging of a unit has returned, a second staging of it, in a world where
    the copy function chosen is the link, never returns: the recipe linked
    into the build directory the first time is in the way, at the latest.
    The unit stays as it was, flagged as staged, and nothing is asked from
    the network. *)
Theorem staging_again_with_links_fails env self w self1 w1 r s2 :
  stage_files env (self, w) = (Returned tt, (self1, w1)) ->
  choose_copy_function env self1 w1 = (Returned use_link, w1) ->
  stage_files env (self1, w1) = (r, s2) ->
  r <> Returned tt /\ fst s2 = self1 /\ staged (fst s2) = true
  /\ requests (snd s2) = requests w1.
Proof.
  intros Hfirst Hlink Hsecond.
  (* what the first staging left *)
  destruct (stage_files_cases _ _ _ _ _ _ Hfirst)
    as [(_ & -> & copy & wd & ww & Hsteps)|(Hne & _)]; [|now destruct Hne].
  destruct Hsteps as (b & archive & target & w3 & Hd & _ & _ & _ & _ & _ & H4).
  assert (is_Some (fs w1 !! staged_dockerfile self)) as Hthere.
  { apply fs_call_returns in H4. now apply apply_copy_target in H4. }
  assert (source_state w1 !! name (package self) = Some Downloaded) as Hstate.
  { destruct (Main.stage_files_after_download _ _ _ _ _ Hfirst)
      as (rd & wd' & Hd' & [Hst _] & _).
    rewrite Hd in Hd'. injection Hd' as <- <-. cbn [snd] in Hst. rewrite Hst.
    eapply download_returned, Hd. }
  (* the second download does nothing *)
  assert (download_source_package env (set_staged self true) w1 = (Returned false, w1))
    as Hd2.
  { unfold download_source_package. cbn [package set_staged]. now rewrite Hstate. }
  destruct s2 as [self2 w2].
  destruct (Main.stage_files_after_download _ _ _ _ _ Hsecond)
    as (rd & wd2 & Hd2' & [_ Hrq] & _).
  rewrite Hd2 in Hd2'. injection Hd2' as <- <-. cbn [fst snd] in *.
  destruct (stage_files_cases _ _ _ _ _ _ Hsecond)
    as [(_ & _ & copy2 & wd2 & ww2 & Hsteps2)|(Hne & -> & _)].
  - exfalso.
    destruct Hsteps2 as (b2 & archive2 & target2 & w32 & Hdd & Hc & Hw & _ & _ & H3 & H42).
    rewrite Hd2 in Hdd. injection Hdd as <- <-.
    rewrite Hlink in Hc. injection Hc as <-.
    apply (present_walk (staged_dockerfile self)) in Hw.
    apply (present_copy (staged_dockerfile self)) in H3.
    apply fs_call_returns in H42. cbn [apply_copy] in H42. unfold link in H42.
    destruct (H3 (Hw Hthere)) as [x Hx].
    change (staged_dockerfile (set_staged self true)) with (staged_dockerfile self) in H42.
    rewrite Hx in H42. repeat (case_match; simplify_eq).
  - split; [exact Hne|]. split; [reflexivity|]. split; [reflexivity|exact Hrq].
Qed.

(** The unit of package foo on the first platform, made in the small site
    once its three directories are there, and staged twice. *)
Definition site_ready : World := snd (Main.make_roots Scenario.env_ok Main.site).

Definition construct_linked : outcome PackageBuild * World :=
  init Scenario.env_ok foo_package amzn1_x86_64 ["work"; "builds"]%string
    ["work"; "packages"]%string false "a" site_ready.

Definition linked_unit : PackageBuild :=
  match fst construct_linked with
  | Returned self => self
  | _ => Scenario.unit1
  end.

Definition staged_once : outcome unit * (PackageBuild * World) :=
  stage_files Scenario.env_ok (linked_unit, snd construct_linked).

Definition staged_twice : outcome unit * (PackageBuild * World) :=
  stage_files Scenario.env_ok (snd staged_once).

Lemma staging_again_with_links_fails_witness :
  fst staged_twice <> Returned tt
  /\ fst (snd staged_twice) = fst (snd staged_once)
  /\ staged (fst (snd staged_twice)) = true
  /\ requests (snd (snd staged_twice)) = requests (snd (snd staged_once)).
Proof.
  apply (staging_again_with_links_fails Scenario.env_ok linked_unit (snd construct_linked)
           (fst (snd staged_once)) (snd (snd staged_once))
           (fst staged_twice) (snd staged_twice)).
  - rewrite <- (surjective_pairing (snd staged_once)).
    transitivity (fst staged_once, snd staged_once); [apply surjective_pairing|].
    apply (f_equal (fun r => (r, snd staged_once))). vm_compute. reflexivity.
  - pose proof (choose_copy_function_reads Scenario.env_ok (fst (snd staged_once))
                  (snd (snd staged_once)) _ _ (surjective_pairing _)) as Hw.
    assert (fst (choose_copy_function Scenario.env_ok (fst (snd staged_once))
                   (snd (snd staged_once))) = Returned use_link) as Hr
      by (vm_compute; reflexivity).
    rewrite (surjective_pairing (choose_copy_function _ _ _)). now rewrite Hr, Hw.
  - rewrite <- (surjective_pairing (snd staged_once)). apply surjective_pairing.
Defined.

End Restaging.
